(** * n9ml cognitive quantum field and the ggml hybrid persona agent

    A shallow embedding of [app/lib/n9ml/utils.ts],
    [app/lib/n9ml/cognitive-quantum-field.ts] and the persona agent
    ([GGMLPersonaAgent]), followed by the properties established about them.

    Conventions of the embedding:
    - a JavaScript [number] that carries a measured quantity is an IEEE-754
      binary64 value, given by the Standard Library's executable
      specification [SpecFloat] (precision 53, [emax] 1024);
    - a [number] that the program only uses as an integer counter
      ([complexity], [recursionLevel], [recursionDepth], [maxResults],
      [layers], [parameters], dimensions of a shape) is a [Z];
    - typed arrays and shape arrays are objects of a heap, addressed by
      location, so that sharing and in-place mutation are visible;
    - a [Map] is an insertion-ordered association list ([JSMap]); a plain
      object used as a dictionary is a [gmap];
    - [Date.now()] and [Math.random()] read an environment [Env], the k-th call
      returning the k-th value of a stream; methods are computations in a
      state-and-exception monad, where a [throw] keeps every mutation made
      before it. *)

From Stdlib Require Import ZArith QArith Qabs Lia Lqa Bool Ascii String.
From Stdlib Require Import Floats.SpecFloat Sorting.Sorted.
From stdpp Require Import gmap strings list pretty.

Local Open Scope Z_scope.

(** ** JavaScript numbers *)

Module JS.

Definition number := spec_float.

Definition prec : Z := 53.
Definition emax : Z := 1024.

Definition NaN : number := S754_nan.
Definition Infinity : number := S754_infinity false.

Definition js_add : number -> number -> number := SFadd prec emax.
Definition js_sub : number -> number -> number := SFsub prec emax.
Definition js_mul : number -> number -> number := SFmul prec emax.
Definition js_div : number -> number -> number := SFdiv prec emax.
Definition Math_sqrt : number -> number := SFsqrt prec emax.

(** [x < y], [x > y], [x >= y]: false as soon as one side is [NaN]. *)
Definition js_lt (x y : number) : bool := SFltb x y.
Definition js_gt (x y : number) : bool := SFltb y x.
Definition js_ge (x y : number) : bool := SFleb y x.

(** The number denoted by an integer literal. *)
Definition js_of_Z (n : Z) : number := binary_normalize prec emax n 0 false.

(** The number denoted by the decimal literal [n / 10^k]: the double nearest
    to that rational, which is what a correctly rounded division of the two
    integers yields. *)
Definition js_decimal (n : Z) (k : Z) : number :=
  js_div (js_of_Z n) (js_of_Z (10 ^ k)).

Definition is_NaN (x : number) : bool :=
  match x with S754_nan => true | _ => false end.

Definition is_zero (x : number) : bool :=
  match x with S754_zero _ => true | _ => false end.

(** A positive normal double: its significand has all [prec] bits. *)
Definition is_positive_normal (x : number) : bool :=
  match x with
  | S754_finite false m e =>
      valid_binary prec emax x && (Z.pos (digits2_pos m) =? prec)
  | _ => false
  end.

(** [Math.min(a, b)]. *)
Definition Math_min (a b : number) : number :=
  if is_NaN a || is_NaN b then NaN
  else match a, b with
       | S754_zero sa, S754_zero sb => S754_zero (sa || sb)
       | _, _ => if js_lt b a then b else a
       end.

(** [Math.round(x)]: the integer closest to [x], a tie going up. *)
Definition Math_round (x : number) : number :=
  match x with
  | S754_finite s m e =>
      if 0 <=? e then x
      else
        let n := (2 * cond_Zopp s (Z.pos m) + 2 ^ (- e)) / 2 ^ (1 - e) in
        if n =? 0 then S754_zero s else js_of_Z n
  | _ => x
  end.

(** The integral part of a number (truncation toward zero); [NaN] and the
    infinities give 0, as in the conversions to the integer element types. *)
Definition truncate (x : number) : Z :=
  match x with
  | S754_finite s m e =>
      cond_Zopp s (if 0 <=? e then Z.pos m * 2 ^ e else Z.pos m / 2 ^ (- e))
  | _ => 0
  end.

Definition ToUint8 (x : number) : Z := truncate x mod 2 ^ 8.
Definition ToUint16 (x : number) : Z := truncate x mod 2 ^ 16.

(** [Math.fround]: rounding to binary32 (precision 24, [emax] 128), the result
    read back as a double. *)
Definition fround (x : number) : number :=
  match x with
  | S754_finite s m e =>
      match binary_round 24 128 s m e with
      | S754_finite s' m' e' => binary_round prec emax s' m' e'
      | y => y
      end
  | _ => x
  end.

(** The rational denoted by a finite number (0 for the others). *)
Definition to_Q (x : number) : Q :=
  match x with
  | S754_finite s m e =>
      if 0 <=? e then inject_Z (cond_Zopp s (Z.pos m * 2 ^ e))
      else Qmake (cond_Zopp s (Z.pos m)) (Z.to_pos (2 ^ (- e)))
  | _ => 0%Q
  end.

#[global] Arguments js_add : simpl never.
#[global] Arguments js_sub : simpl never.
#[global] Arguments js_mul : simpl never.
#[global] Arguments js_div : simpl never.
#[global] Arguments Math_sqrt : simpl never.
#[global] Arguments js_lt : simpl never.
#[global] Arguments js_gt : simpl never.
#[global] Arguments js_ge : simpl never.
#[global] Arguments js_of_Z : simpl never.
#[global] Arguments js_decimal : simpl never.
#[global] Arguments Math_min : simpl never.
#[global] Arguments Math_round : simpl never.
#[global] Arguments fround : simpl never.

(** *** Strings *)

Definition lower_ascii (c : ascii) : ascii :=
  let n := nat_of_ascii c in
  if ((65 <=? n) && (n <=? 90))%nat then ascii_of_nat (n + 32) else c.

(** [s.toLowerCase()] on the ASCII letters [A]-[Z]; a character outside ASCII
    is left as it is, where JavaScript also lowers the letters of other
    scripts.  The one use, in [parseIntentToCognitive], looks for ASCII
    keywords. *)
Fixpoint toLowerCase (s : string) : string :=
  match s with
  | EmptyString => EmptyString
  | String c s' => String (lower_ascii c) (toLowerCase s')
  end.

Fixpoint startsWith (s p : string) : bool :=
  match p, s with
  | EmptyString, _ => true
  | String c p', String d s' => if Ascii.eqb c d then startsWith s' p' else false
  | String _ _, EmptyString => false
  end.

(** [s.includes(p)], that is [s.indexOf(p) !== -1]. *)
Fixpoint includes (s p : string) : bool :=
  startsWith s p ||
  match s with
  | EmptyString => false
  | String _ s' => includes s' p
  end.

Fixpoint split_from (sep : ascii) (s : string) (cur : string) : list string :=
  match s with
  | EmptyString => [String.rev cur]
  | String c s' =>
      if Ascii.eqb c sep then String.rev cur :: split_from sep s' EmptyString
      else split_from sep s' (String c cur)
  end.

(** [s.split(sep)] for a one-character separator. *)
Definition split (s : string) (sep : ascii) : list string :=
  split_from sep s EmptyString.

(** [l.indexOf(x) !== -1] on an array of strings. *)
Definition array_includes (l : list string) (x : string) : bool :=
  existsb (String.eqb x) l.

(** [String(n)] for a non-negative integer. *)
Definition string_of_N (n : N) : string := pretty n.

End JS.

(** ** Errors, the heap and the method monad *)

Module Runtime.
Import JS.

(** The exceptions the methods raise. Both of the program's own are plain
    [Error] objects, told apart by their message:
    ["Invalid path: must contain at least domain and task"] and
    ["Maximum recursion depth <depth> exceeded"].  [TypeError] is what reading
    through a reference to no object raises. *)
Inductive error : Type :=
  | InvalidPathError
  | RecursionLimitError (depth : Z)
  | TypeError.

Definition loc := positive.

Inductive TypedArrayKind : Type := Float32Array | Uint8Array | Uint16Array.

(** A typed array: its class and its elements as indexing reads them. *)
Record TypedArray : Type := mkTypedArray {
  kind : TypedArrayKind;
  elems : list number
}.

(** What [a[i] = v] stores in an array of the given class: the value rounded
    to binary32, or its integral part modulo [2^8] or [2^16]. *)
Definition store (k : TypedArrayKind) (v : number) : number :=
  match k with
  | Float32Array => fround v
  | Uint8Array => js_of_Z (ToUint8 v)
  | Uint16Array => js_of_Z (ToUint16 v)
  end.

(** The sources of non-determinism: the clock, the random generator, and the
    rendering [x.toString(36).substr(2, 9)] of a random number. *)
Record Env : Type := mkEnv {
  Date_now : nat -> N;
  Math_random : nat -> number;
  random_suffix : number -> string
}.

(** The heap of typed arrays and of plain number arrays, with the number of
    clock readings and of random draws made so far. *)
Record World : Type := mkWorld {
  buffers : gmap loc TypedArray;
  arrays : gmap loc (list Z);
  ticks : nat;
  draws : nat
}.

Definition empty_world : World := mkWorld ∅ ∅ 0 0.

(** A method of an object of state [S] returning an [A]. *)
Definition M (S A : Type) : Type := World -> S -> (error + A) * (World * S).

Definition ret {S A} (a : A) : M S A := fun w s => (inr a, (w, s)).

Definition bind {S A B} (m : M S A) (k : A -> M S B) : M S B :=
  fun w s =>
    match m w s with
    | (inr a, (w', s')) => k a w' s'
    | (inl e, ws) => (inl e, ws)
    end.

Definition throw {S A} (e : error) : M S A := fun w s => (inl e, (w, s)).

Definition this {S} : M S S := fun w s => (inr s, (w, s)).

Definition assign {S} (f : S -> S) : M S unit := fun w s => (inr tt, (w, f s)).

(** Running a method of a component [T] of [S]. *)
Definition on {S T A} (get : S -> T) (set : T -> S -> S) (m : M T A) : M S A :=
  fun w s =>
    match m w (get s) with
    | (r, (w', t')) => (r, (w', set t' s))
    end.

#[global] Instance M_ret {S} : MRet (M S) := @ret S.
#[global] Instance M_bind {S} : MBind (M S) := fun A B k m => bind m k.

Section Primitives.
Context (env : Env) {S : Type}.

(** [Date.now()]. *)
Definition now : M S N := fun w s =>
  (inr (Date_now env (ticks w)),
   (mkWorld (buffers w) (arrays w) (Datatypes.S (ticks w)) (draws w), s)).

(** [Math.random()]. *)
Definition random : M S number := fun w s =>
  (inr (Math_random env (draws w)),
   (mkWorld (buffers w) (arrays w) (ticks w) (Datatypes.S (draws w)), s)).

(** [n] successive draws, in order. *)
Fixpoint randoms (n : nat) : M S (list number) :=
  match n with
  | O => mret []
  | Datatypes.S n' => r ← random; rs ← randoms n'; mret (r :: rs)
  end.

#[global] Arguments randoms : simpl never.

(** Allocation of a typed array holding [a]. *)
Definition new_buffer (a : TypedArray) : M S loc := fun w s =>
  let l := fresh (dom (buffers w)) in
  (inr l, (mkWorld (<[l := a]> (buffers w)) (arrays w) (ticks w) (draws w), s)).

(** Allocation of an array literal. *)
Definition new_array (a : list Z) : M S loc := fun w s =>
  let l := fresh (dom (arrays w)) in
  (inr l, (mkWorld (buffers w) (<[l := a]> (arrays w)) (ticks w) (draws w), s)).

(** The typed array a reference designates. *)
Definition buffer_of (l : loc) : M S TypedArray := fun w s =>
  match buffers w !! l with
  | Some a => (inr a, (w, s))
  | None => (inl TypeError, (w, s))
  end.
End Primitives.

End Runtime.

(** ** app/lib/n9ml *)

Module N9ml.
Import JS Runtime.

(** *** types.ts *)

Inductive Precision : Type := high | medium | low.

Record CognitiveIntent : Type := mkIntent {
  domain : string;
  task : string;
  precision : Precision;
  realtime : bool;
  complexity : Z
}.

Inductive Bits : Type := bits8 | bits16 | bits32.
Inductive Method : Type := linear | dynamic | adaptive.

Record QuantizationStrategy : Type := mkQuant {
  bits : Bits;
  method : Method;
  preserveAccuracy : bool
}.

Inductive ArchitectureType : Type := transformer | cnn | rnn | hybrid.
Inductive Optimization : Type := speed | memory | accuracy.

Record Architecture : Type := mkArch {
  arch_type : ArchitectureType;
  layers : Z;
  parameters : Z;
  optimization : Optimization
}.

Inductive DType : Type := float32 | uint8 | uint16.

(** A tensor object. [data] and [shape] are references: two tensors may
    designate the same array. *)
Record Tensor : Type := mkTensor {
  tensor_id : string;
  data : loc;
  shape : loc;
  dtype : DType;
  architecture : Architecture;
  quantization : QuantizationStrategy
}.

Definition Precision_eqb (p q : Precision) : bool :=
  match p, q with
  | high, high | medium, medium | low, low => true
  | _, _ => false
  end.

Definition Bits_eqb (p q : Bits) : bool :=
  match p, q with
  | bits8, bits8 | bits16, bits16 | bits32, bits32 => true
  | _, _ => false
  end.

Definition DType_eqb (p q : DType) : bool :=
  match p, q with
  | float32, float32 | uint8, uint8 | uint16, uint16 => true
  | _, _ => false
  end.

(** *** utils.ts *)

Definition parsePath (path : string) : error + CognitiveIntent :=
  let parts := List.filter (fun p => negb (String.eqb p "")) (split path "/") in
  if (length parts <? 2)%nat then inl InvalidPathError
  else
    let '(domain, task, modifiers) :=
      match parts with
      | p0 :: p1 :: p2 :: rest =>
          if String.eqb p0 "models" || String.eqb p0 "inference"
          then (p1, p2, rest)
          else (p0, p1, p2 :: rest)
      | p0 :: p1 :: rest => (p0, p1, rest)
      | p0 :: rest => (p0, ""%string, rest)
      | [] => (""%string, ""%string, [])
      end in
    let precision :=
      if includes task "precise" || array_includes modifiers "precise"
         || array_includes modifiers "high"
      then high
      else if includes task "fast" || array_includes modifiers "fast"
              || array_includes modifiers "low"
      then low
      else medium in
    let realtime :=
      includes task "realtime" || array_includes modifiers "realtime"
      || includes task "live" in
    let complexity := 5 in
    let complexity := if String.eqb domain "vision" then complexity + 2 else complexity in
    let complexity := if String.eqb domain "nlp" then complexity + 3 else complexity in
    let complexity := if includes task "generation" then complexity + 2 else complexity in
    let complexity := if Precision_eqb precision high then complexity + 2 else complexity in
    let complexity := if realtime then complexity - 1 else complexity in
    inr {| domain := domain; task := task; precision := precision;
           realtime := realtime;
           complexity := Z.max 1 (Z.min 10 complexity) |}.

Definition optimizeQuantization (intent : CognitiveIntent) : QuantizationStrategy :=
  let bits := bits16 in
  let method := dynamic in
  let preserveAccuracy := true in
  let '(bits, method, preserveAccuracy) :=
    if Precision_eqb (precision intent) high then (bits32, adaptive, preserveAccuracy)
    else if Precision_eqb (precision intent) low || realtime intent
    then (bits8, linear, false)
    else (bits, method, preserveAccuracy) in
  let '(bits, method) :=
    if String.eqb (domain intent) "vision" && realtime intent
    then (bits8, linear)
    else (bits, method) in
  {| bits := bits; method := method; preserveAccuracy := preserveAccuracy |}.

(** [layers] and [parameters] are the integers [Math.floor] yields; the power
    is the exact one, as [Math.pow(2, n)] is up to [n = 1023] (an intent's
    complexity stays far below that). *)
Definition collapseQuantumField (intent : CognitiveIntent)
    (quant : QuantizationStrategy) : Architecture :=
  let type :=
    if String.eqb (domain intent) "vision" then cnn
    else if String.eqb (domain intent) "sequence" || includes (task intent) "time" then rnn
    else if String.eqb (domain intent) "nlp" then transformer
    else if (7 <? complexity intent) && String.eqb (domain intent) "multimodal" then hybrid
    else transformer in
  let optimization :=
    if realtime intent || Bits_eqb (bits quant) bits8 then speed
    else if Bits_eqb (bits quant) bits16 then memory
    else accuracy in
  let layers := Z.max 2 (3 * complexity intent / 2) in
  let parameters := 2 ^ (complexity intent + 10) in
  {| arch_type := type; layers := layers; parameters := parameters;
     optimization := optimization |}.

(** *** cognitive-quantum-field.ts *)

Record CognitiveQuantumField : Type := mkField {
  mountedTensors : gmap string Tensor
}.

Definition set_mounted (path : string) (t : Tensor)
    (f : CognitiveQuantumField) : CognitiveQuantumField :=
  {| mountedTensors := <[path := t]> (mountedTensors f) |}.

Section Field.
Context (env : Env).

Local Abbreviation now := (now env).
Local Abbreviation random := (random env).
Local Abbreviation randoms := (randoms env).

Definition lift_result {S A} (r : error + A) : M S A :=
  match r with inl e => throw e | inr a => mret a end.

Definition createTensor (architecture : Architecture)
    (quantization : QuantizationStrategy) (path : string)
    : M CognitiveQuantumField Tensor :=
  let '(dtype, k) :=
    match bits quantization with
    | bits32 => (float32, Float32Array)
    | bits16 => (uint16, Uint16Array)
    | bits8 => (uint8, Uint8Array)
    end in
  let scale :=
    match bits quantization with
    | bits32 => js_of_Z 1
    | bits16 => js_of_Z (2 ^ 16 - 1)
    | bits8 => js_of_Z (2 ^ 8 - 1)
    end in
  rs ← randoms 1024;
  data ← new_buffer (mkTypedArray k (List.map (fun r => store k (js_mul r scale)) rs));
  t ← now;
  r ← random;
  shape ← new_array [32; 32];
  mret {| tensor_id := "tensor_" +:+ string_of_N t +:+ "_" +:+ random_suffix env r;
          data := data; shape := shape; dtype := dtype;
          architecture := architecture; quantization := quantization |}.

Definition mount (path : string) : M CognitiveQuantumField Tensor :=
  intent ← lift_result (parsePath path);
  let quant := optimizeQuantization intent in
  let arch := collapseQuantumField intent quant in
  tensor ← createTensor arch quant path;
  _ ← assign (set_mounted path tensor);
  mret tensor.

Definition reinterpretTensor (originalTensor : Tensor)
    (newArchitecture : Architecture) (newQuantization : QuantizationStrategy)
    (newPath : string) : M CognitiveQuantumField Tensor :=
  original ← buffer_of (data originalTensor);
  '(dtype, reinterpreted) ←
    (if Bits_eqb (bits newQuantization) bits32
        && negb (DType_eqb (dtype originalTensor) float32)
     then
       let maxVal :=
         if DType_eqb (dtype originalTensor) uint16
         then js_of_Z 65535 else js_of_Z 255 in
       mret (float32,
             mkTypedArray Float32Array
               (List.map (fun x => store Float32Array (js_div x maxVal)) (elems original)))
     else if Bits_eqb (bits newQuantization) bits16
             && negb (DType_eqb (dtype originalTensor) uint16)
     then
       if DType_eqb (dtype originalTensor) float32
       then mret (uint16,
                  mkTypedArray Uint16Array
                    (List.map (fun x => store Uint16Array (Math_round (js_mul x (js_of_Z 65535))))
                              (elems original)))
       else mret (uint16,
                  mkTypedArray Uint16Array
                    (List.map (fun x => store Uint16Array (js_mul x (js_of_Z 257)))
                              (elems original)))
     else if Bits_eqb (bits newQuantization) bits8
             && negb (DType_eqb (dtype originalTensor) uint8)
     then
       if DType_eqb (dtype originalTensor) float32
       then mret (uint8,
                  mkTypedArray Uint8Array
                    (List.map (fun x => store Uint8Array (Math_round (js_mul x (js_of_Z 255))))
                              (elems original)))
       else mret (uint8,
                  mkTypedArray Uint8Array
                    (List.map (fun x => store Uint8Array (Math_round (js_div x (js_of_Z 257))))
                              (elems original)))
     else
       mret (dtype originalTensor, original));
  reinterpretedData ← new_buffer reinterpreted;
  t ← now;
  mret {| tensor_id := "reinterpreted_" +:+ tensor_id originalTensor +:+ "_" +:+ string_of_N t;
          data := reinterpretedData;
          shape := shape originalTensor;
          dtype := dtype;
          architecture := newArchitecture;
          quantization := newQuantization |}.

Definition remount (data : Tensor) (newPath : string)
    : M CognitiveQuantumField Tensor :=
  newIntent ← lift_result (parsePath newPath);
  let newQuant := optimizeQuantization newIntent in
  let newArch := collapseQuantumField newIntent newQuant in
  reinterpretedTensor ← reinterpretTensor data newArch newQuant newPath;
  _ ← assign (set_mounted newPath reinterpretedTensor);
  mret reinterpretedTensor.

Definition getMountedTensors : M CognitiveQuantumField (gmap string Tensor) :=
  f ← this; mret (mountedTensors f).

(** The keys a plain object inherits from [Object.prototype]. *)
Definition inherited_keys : list string :=
  ["constructor"; "hasOwnProperty"; "isPrototypeOf"; "propertyIsEnumerable";
   "toLocaleString"; "toString"; "valueOf"; "__proto__";
   "__defineGetter__"; "__defineSetter__"; "__lookupGetter__";
   "__lookupSetter__"]%string.

(** [this.mountedTensors[path]] as a condition: a mounted tensor is an object,
    and so is what an inherited key gives (a function, or the prototype
    itself); both count as true.  [delete] of a key the object does not own
    changes nothing. *)
Definition unmount (path : string) : M CognitiveQuantumField bool :=
  f ← this;
  if match mountedTensors f !! path with
     | Some _ => true
     | None => array_includes inherited_keys path
     end
  then
    _ ← assign (fun f => {| mountedTensors := delete path (mountedTensors f) |});
    mret true
  else mret false.

(** [new CognitiveQuantumField()]. *)
Definition new_CognitiveQuantumField : CognitiveQuantumField :=
  {| mountedTensors := ∅ |}.
End Field.

End N9ml.

(** ** Insertion-ordered maps with string keys ([Map<string, V>]) *)

Module JSMap.
Section JSMap.
Context {V : Type}.

Definition t : Type := list (string * V).

Definition empty : t := [].

Fixpoint get (m : t) (k : string) : option V :=
  match m with
  | [] => None
  | (k', v) :: m' => if String.eqb k k' then Some v else get m' k
  end.

(** [m.set(k, v)]: a key already present keeps its place. *)
Fixpoint set (m : t) (k : string) (v : V) : t :=
  match m with
  | [] => [(k, v)]
  | (k', v') :: m' =>
      if String.eqb k k' then (k', v) :: m' else (k', v') :: set m' k v
  end.

(** [m.delete(k)]. *)
Fixpoint delete (m : t) (k : string) : t :=
  match m with
  | [] => []
  | (k', v') :: m' =>
      if String.eqb k k' then delete m' k else (k', v') :: delete m' k
  end.

Definition has (m : t) (k : string) : bool :=
  match get m k with Some _ => true | None => false end.

Definition size (m : t) : nat := length m.

(** The entries in iteration order. *)
Definition entries (m : t) : list (string * V) := m.
End JSMap.
Arguments t : clear implicits.
End JSMap.

(** ** The persona agent *)

Module PersonaAgent.
Import JS Runtime.

Definition Float32Vector := list number.

Record PersonaTensor : Type := mkPersonaTensor {
  cognitiveModules : N9ml.Tensor;
  memoryKernel : N9ml.Tensor;
  taskOrchestrator : N9ml.Tensor;
  autonomyCore : N9ml.Tensor
}.

Record PersonaTraits : Type := mkTraits {
  creativity : number;
  precision : number;
  recursionDepth : Z;
  adaptationRate : number;
  boltIntegration : bool
}.

(** The embeddings are [Float32Array]s written once, when generated, and never
    updated in place: the map holds them by value. *)
Record RAGMemoryState : Type := mkRAG {
  embeddings : JSMap.t Float32Vector;
  contextWindow : list string;
  semanticGraph : JSMap.t (list string);
  retrievalThreshold : number
}.

Inductive RepoArchitecture : Type := frontend | backend | fullstack | ai_agent.

Record RepoSpawnRequest : Type := mkRequest {
  intent : string;
  technologies : list string;
  architecture : RepoArchitecture;
  parentRepo : option string;
  recursionLevel : Z
}.

Record Observation : Type := mkObservation {
  observed_intent : string;
  observed_context : list string;
  observed_cognitiveIntent : N9ml.CognitiveIntent;
  observed_timestamp : N
}.

Record Orientation : Type := mkOrientation {
  oriented_cognitiveIntent : N9ml.CognitiveIntent;
  contextEmbeddings : list Float32Vector;
  oriented_timestamp : N
}.

Record Decision : Type := mkDecision {
  shouldSpawnRepo : bool;
  spawnRequests : list RepoSpawnRequest;
  responseType : string;
  decision_complexity : Z;
  decision_timestamp : N
}.

Record MemoryUpdates : Type := mkMemoryUpdates {
  newEmbeddings : Z;
  updatedContexts : Z;
  graphExtensions : Z
}.

Record ExecutionResult : Type := mkExecutionResult {
  response : string;
  result_spawnedRepos : option (list RepoSpawnRequest);
  memoryUpdates : MemoryUpdates;
  result_timestamp : N
}.

Record OODALoopState : Type := mkOODA {
  observe : option Observation;
  orient : option Orientation;
  decide : option Decision;
  act : option ExecutionResult
}.

Record Agent : Type := mkAgent {
  quantumField : N9ml.CognitiveQuantumField;
  personaTensors : PersonaTensor;
  traits : PersonaTraits;
  ragMemory : RAGMemoryState;
  oodaLoop : OODALoopState;
  spawnedRepos : JSMap.t RepoSpawnRequest;
  selfModel : N9ml.Tensor
}.

(** Field updates. *)
Definition with_traits (f : PersonaTraits -> PersonaTraits) (a : Agent) : Agent :=
  mkAgent (quantumField a) (personaTensors a) (f (traits a)) (ragMemory a)
          (oodaLoop a) (spawnedRepos a) (selfModel a).
Definition with_ragMemory (f : RAGMemoryState -> RAGMemoryState) (a : Agent) : Agent :=
  mkAgent (quantumField a) (personaTensors a) (traits a) (f (ragMemory a))
          (oodaLoop a) (spawnedRepos a) (selfModel a).
Definition with_oodaLoop (f : OODALoopState -> OODALoopState) (a : Agent) : Agent :=
  mkAgent (quantumField a) (personaTensors a) (traits a) (ragMemory a)
          (f (oodaLoop a)) (spawnedRepos a) (selfModel a).
Definition with_spawnedRepos (f : JSMap.t RepoSpawnRequest -> JSMap.t RepoSpawnRequest)
    (a : Agent) : Agent :=
  mkAgent (quantumField a) (personaTensors a) (traits a) (ragMemory a)
          (oodaLoop a) (f (spawnedRepos a)) (selfModel a).
Definition with_quantumField (q : N9ml.CognitiveQuantumField) (a : Agent) : Agent :=
  mkAgent q (personaTensors a) (traits a) (ragMemory a)
          (oodaLoop a) (spawnedRepos a) (selfModel a).

Definition set_embedding (k : string) (v : Float32Vector) (r : RAGMemoryState)
    : RAGMemoryState :=
  mkRAG (JSMap.set (embeddings r) k v) (contextWindow r) (semanticGraph r)
        (retrievalThreshold r).
Definition delete_embedding (k : string) (r : RAGMemoryState) : RAGMemoryState :=
  mkRAG (JSMap.delete (embeddings r) k) (contextWindow r) (semanticGraph r)
        (retrievalThreshold r).
Definition push_context (k : string) (r : RAGMemoryState) : RAGMemoryState :=
  mkRAG (embeddings r) (contextWindow r ++ [k]) (semanticGraph r)
        (retrievalThreshold r).
Definition set_contextWindow (l : list string) (r : RAGMemoryState) : RAGMemoryState :=
  mkRAG (embeddings r) l (semanticGraph r) (retrievalThreshold r).
Definition set_semanticGraph (k : string) (v : list string) (r : RAGMemoryState)
    : RAGMemoryState :=
  mkRAG (embeddings r) (contextWindow r) (JSMap.set (semanticGraph r) k v)
        (retrievalThreshold r).

(** A generated file, by the data its template is filled with. *)
Inductive FileContent : Type :=
  | PackageJson (name description : string) (dependencies : list (string * string))
  | Readme (intent : string) (architecture : RepoArchitecture)
           (technologies : list string) (recursionLevel : Z)
  | ReactApp (intent : string)
  | Server (intent : string)
  | AIAgentSource (intent : string).

Record FileAction : Type := mkFileAction {
  filePath : string;
  content : FileContent
}.

Record BoltArtifact : Type := mkArtifact {
  artifact_id : string;
  title : string;
  actions : list FileAction
}.

Record RAGExtension : Type := mkExtension {
  extension_repoId : string;
  extension_embeddings : JSMap.t Float32Vector;
  knowledgeGraph : JSMap.t (list string);
  chat_messages : list string
}.

Record SpawnResult : Type := mkSpawnResult {
  repoId : string;
  boltArtifact : BoltArtifact;
  ragExtension : RAGExtension
}.

Record RetrievalResult : Type := mkRetrieved {
  retrieved_content : string;
  relevance : number;
  source : string
}.

Record SuccessMetrics : Type := mkSuccess {
  overallSuccess : number;
  responseQuality : number;
  executionTime : number;
  resourceUsage : number
}.

Record Performance : Type := mkPerformance {
  successRate : number;
  responseTime : number;
  userSatisfaction : number;
  repoSpawnSuccess : number;
  memoryRetrieval : number
}.

Record Adaptations : Type := mkAdaptations {
  traitEvolutions : list (string * string);
  adaptations_timestamp : N
}.

Record IntentResult : Type := mkIntentResult {
  result_response : string;
  spawned : option (list RepoSpawnRequest);
  result_memoryUpdates : MemoryUpdates;
  adaptations : Adaptations
}.

(** [Array.prototype.slice(0, end)] for an integral [end]: a negative [end]
    counts from the end of the array. *)
Definition slice_to {A} (l : list A) (end_ : Z) : list A :=
  if end_ <? 0
  then take (Z.to_nat (Z.max (Z.of_nat (length l) + end_) 0)) l
  else take (Z.to_nat end_) l.

(** [Array.prototype.splice(0, n)] for an integral [n]: the removed prefix and
    what is left. *)
Definition splice_front {A} (l : list A) (n : Z) : list A * list A :=
  (take (Z.to_nat n) l, drop (Z.to_nat n) l).

(** [Array.prototype.sort(comparefn)]: the elements in the stable order the
    comparator induces; an [x] goes after a [y] when [comparefn(x, y) > 0]
    (a [NaN] counts as 0). *)
Fixpoint sort_insert {A} (comparefn : A -> A -> number) (x : A) (l : list A) : list A :=
  match l with
  | [] => [x]
  | y :: l' =>
      if js_gt (comparefn x y) (js_of_Z 0) then y :: sort_insert comparefn x l'
      else x :: l
  end.

Definition Array_sort {A} (comparefn : A -> A -> number) (l : list A) : list A :=
  foldr (sort_insert comparefn) [] l.

Section Methods.
Context (env : Env).

Local Abbreviation now := (now env).
Local Abbreviation random := (random env).
Local Abbreviation randoms := (randoms env).

Definition onField {A} (m : M N9ml.CognitiveQuantumField A) : M Agent A :=
  on quantumField with_quantumField m.

(** [for (const x of l) body(x)]. *)
Fixpoint for_of {S A} (l : list A) (body : A -> M S unit) : M S unit :=
  match l with
  | [] => mret tt
  | x :: l' => _ ← body x; for_of l' body
  end.

(** [Promise.all(l.map(f))], the calls made in order. *)
Fixpoint map_all {S A B} (f : A -> M S B) (l : list A) : M S (list B) :=
  match l with
  | [] => mret []
  | x :: l' => y ← f x; ys ← map_all f l'; mret (y :: ys)
  end.

Definition generateEmbedding {S} (text : string) : M S Float32Vector :=
  rs ← randoms 384;
  mret (List.map (fun r => store Float32Array
                              (js_sub (js_mul r (js_of_Z 2)) (js_of_Z 1))) rs).

(** [a[i]] and [b[i]] for [i] below [a.length]; an index past the end of [b]
    reads [undefined], a [NaN] in arithmetic. *)
Fixpoint cosine_loop (a b : Float32Vector) (acc : number * number * number)
    : number * number * number :=
  match a with
  | [] => acc
  | x :: a' =>
      let y := match b with [] => NaN | y :: _ => y end in
      let '(dotProduct, normA, normB) := acc in
      cosine_loop a' (tail b)
        (js_add dotProduct (js_mul x y),
         js_add normA (js_mul x x),
         js_add normB (js_mul y y))
  end.

Definition cosineSimilarity (a b : Float32Vector) : number :=
  let '(dotProduct, normA, normB) :=
    cosine_loop a b (js_of_Z 0, js_of_Z 0, js_of_Z 0) in
  js_div dotProduct (js_mul (Math_sqrt normA) (Math_sqrt normB)).

Definition getEmbeddingSource (key : string) : string :=
  if startsWith key "repo:" then "spawned-repository"
  else if startsWith key "context:" then "conversation-context"
  else "memory-kernel".

Definition inferTechnologies (intent : N9ml.CognitiveIntent) : list string :=
  let technologies := ["typescript"; "node.js"]%string in
  let technologies :=
    if String.eqb (N9ml.domain intent) "development"
    then technologies ++ ["react"; "vite"]%string else technologies in
  let technologies :=
    if String.eqb (N9ml.domain intent) "ai"
    then technologies ++ ["python"; "pytorch"; "transformers"]%string
    else technologies in
  technologies.

Definition inferArchitecture (intent : N9ml.CognitiveIntent) : RepoArchitecture :=
  if String.eqb (N9ml.domain intent) "ai" then ai_agent
  else if 7 <? N9ml.complexity intent then fullstack
  else if includes (N9ml.task intent) "api" || includes (N9ml.task intent) "server"
  then backend
  else frontend.

Definition generateDependencies (technologies : list string) : list (string * string) :=
  (if array_includes technologies "react"
   then [("react", "^18.0.0"); ("react-dom", "^18.0.0")]%string else [])
  ++ (if array_includes technologies "express"
      then [("express", "^4.18.0")]%string else [])
  ++ (if array_includes technologies "pytorch"
      then [("@tensorflow/tfjs", "^4.0.0")]%string else []).

Definition generatePackageJson {S} (request : RepoSpawnRequest) : M S FileContent :=
  t ← now;
  mret (PackageJson ("spawned-repo-" +:+ string_of_N t) (intent request)
                    (generateDependencies (technologies request))).

Definition generateReadme (request : RepoSpawnRequest) : FileContent :=
  Readme (intent request) (architecture request) (technologies request)
         (recursionLevel request).

Definition generateArchitectureFiles (request : RepoSpawnRequest) : list FileAction :=
  (match architecture request with
   | frontend | fullstack => [mkFileAction "src/App.tsx" (ReactApp (intent request))]
   | _ => []
   end)
  ++ (match architecture request with
      | backend | fullstack => [mkFileAction "src/server.ts" (Server (intent request))]
      | _ => []
      end)
  ++ (match architecture request with
      | ai_agent => [mkFileAction "src/agent.ts" (AIAgentSource (intent request))]
      | _ => []
      end).

Definition createBoltArtifact {S} (request : RepoSpawnRequest) (repoId : string)
    : M S BoltArtifact :=
  packageJson ← generatePackageJson request;
  mret {| artifact_id := repoId;
          title := "AI-Generated Repository: " +:+ intent request;
          actions :=
            mkFileAction "package.json" packageJson
            :: mkFileAction "README.md" (generateReadme request)
            :: generateArchitectureFiles request |}.

Definition createRAGExtension (request : RepoSpawnRequest) (repoId : string)
    : M Agent RAGExtension :=
  contextEmbedding ← generateEmbedding (intent request);
  _ ← assign (with_ragMemory (set_embedding ("repo:" +:+ repoId) contextEmbedding));
  _ ← assign (with_ragMemory (set_semanticGraph repoId [intent request]));
  mret {| extension_repoId := repoId;
          extension_embeddings :=
            JSMap.set JSMap.empty ("repo:" +:+ repoId +:+ ":intent") contextEmbedding;
          knowledgeGraph := JSMap.empty;
          chat_messages := [] |}.

Definition updateSelfModelFromSpawning (request : RepoSpawnRequest) (repoId : string)
    : M Agent unit :=
  spawnEmbedding ← generateEmbedding ("spawned:" +:+ repoId +:+ ":" +:+ intent request);
  assign (with_ragMemory (set_embedding ("self-model:spawn:" +:+ repoId) spawnEmbedding)).

Definition spawnRepository (request : RepoSpawnRequest) : M Agent SpawnResult :=
  a ← this;
  if recursionDepth (traits a) <=? recursionLevel request
  then throw (RecursionLimitError (recursionDepth (traits a)))
  else
    t ← now;
    r ← random;
    let repoId := "repo_" +:+ string_of_N t +:+ "_" +:+ random_suffix env r in
    boltArtifact ← createBoltArtifact request repoId;
    ragExtension ← createRAGExtension request repoId;
    _ ← assign (with_spawnedRepos (fun m => JSMap.set m repoId request));
    _ ← updateSelfModelFromSpawning request repoId;
    mret {| repoId := repoId; boltArtifact := boltArtifact;
            ragExtension := ragExtension |}.

Definition retrieveFromRAG (query : string) (maxResults : Z)
    : M Agent (list RetrievalResult * Float32Vector) :=
  queryEmbedding ← generateEmbedding query;
  a ← this;
  let results :=
    List.flat_map
      (fun '(key, embedding) =>
         let similarity := cosineSimilarity queryEmbedding embedding in
         if js_gt similarity (retrievalThreshold (ragMemory a))
         then [{| retrieved_content := key; relevance := similarity;
                  source := getEmbeddingSource key |}]
         else [])
      (JSMap.entries (embeddings (ragMemory a))) in
  let results :=
    Array_sort (fun a b => js_sub (relevance b) (relevance a)) results in
  mret (slice_to results maxResults, queryEmbedding).

Definition analyzePerformance : Performance :=
  {| successRate := js_decimal 85 2;
     responseTime := js_of_Z 250;
     userSatisfaction := js_decimal 9 1;
     repoSpawnSuccess := js_decimal 95 2;
     memoryRetrieval := js_decimal 88 2 |}.

Definition adaptPersonaTensors (performance : Performance) : list (string * string) :=
  (if js_lt (successRate performance) (js_decimal 8 1)
   then [("cognitiveModules", "increased_attention_weights")]%string else [])
  ++ (if js_lt (memoryRetrieval performance) (js_decimal 85 2)
      then [("memoryKernel", "enhanced_embedding_precision")]%string else []).

Definition set_creativity (c : number) (t : PersonaTraits) : PersonaTraits :=
  mkTraits c (precision t) (recursionDepth t) (adaptationRate t) (boltIntegration t).
Definition set_precision (p : number) (t : PersonaTraits) : PersonaTraits :=
  mkTraits (creativity t) p (recursionDepth t) (adaptationRate t) (boltIntegration t).
Definition set_adaptationRate (r : number) (t : PersonaTraits) : PersonaTraits :=
  mkTraits (creativity t) (precision t) (recursionDepth t) r (boltIntegration t).

Definition evolveTraits (performance : Performance) : M Agent (list (string * string)) :=
  a1 ←
    (if js_gt (repoSpawnSuccess performance) (js_decimal 9 1)
     then
       _ ← assign (with_traits (fun t =>
              set_creativity (Math_min (js_of_Z 1)
                                (js_mul (creativity t) (js_decimal 105 2))) t));
       mret [("creativity", "increased")]%string
     else mret []);
  a2 ←
    (if js_gt (responseTime performance) (js_of_Z 500)
     then
       _ ← assign (with_traits (fun t =>
              set_precision (Math_min (js_of_Z 1)
                               (js_mul (precision t) (js_decimal 11 1))) t));
       mret [("precision", "increased")]%string
     else mret []);
  mret (a1 ++ a2).

Definition updateSelfModel : M Agent unit := mret tt.

Definition performSelfModification
    : M Agent (Performance * list (string * string) * list (string * string)) :=
  let performance := analyzePerformance in
  let tensorUpdates := adaptPersonaTensors performance in
  traitAdaptations ← evolveTraits performance;
  _ ← updateSelfModel;
  mret (performance, tensorUpdates, traitAdaptations).

Definition parseIntentToCognitive (intent : string) : N9ml.CognitiveIntent :=
  let lower := toLowerCase intent in
  let domain := "general"%string in
  let task := "respond"%string in
  let precision := N9ml.medium in
  let realtime := false in
  let complexity := 5 in
  let '(task, complexity) :=
    if includes lower "create" || includes lower "build"
    then ("creation"%string, complexity + 2) else (task, complexity) in
  let '(task, precision, complexity) :=
    if includes lower "analyze" || includes lower "understand"
    then ("analysis"%string, N9ml.high, complexity + 1)
    else (task, precision, complexity) in
  let '(domain, complexity) :=
    if includes lower "app" || includes lower "website"
    then ("development"%string, complexity + 2) else (domain, complexity) in
  let '(domain, complexity) :=
    if includes lower "ai" || includes lower "machine learning"
    then ("ai"%string, complexity + 3) else (domain, complexity) in
  {| N9ml.domain := domain; N9ml.task := task; N9ml.precision := precision;
     N9ml.realtime := realtime; N9ml.complexity := complexity |}.

Definition orientCognitiveModel (cognitiveIntent : N9ml.CognitiveIntent)
    (context : list string) : M Agent unit :=
  contextEmbeddings ← map_all generateEmbedding context;
  t ← now;
  _ ← assign (with_oodaLoop (fun o =>
         mkOODA (observe o)
                (Some (mkOrientation cognitiveIntent contextEmbeddings t))
                (decide o) (act o)));
  _ ← for_of context (fun contextItem =>
         embedding ← generateEmbedding contextItem;
         _ ← assign (with_ragMemory (set_embedding contextItem embedding));
         assign (with_ragMemory (push_context contextItem)));
  a ← this;
  if (100 <? length (contextWindow (ragMemory a)))%nat
  then
    let '(removedItems, kept) :=
      splice_front (contextWindow (ragMemory a))
                   (Z.of_nat (length (contextWindow (ragMemory a))) - 50) in
    _ ← assign (with_ragMemory (set_contextWindow kept));
    for_of removedItems (fun item =>
      assign (with_ragMemory (delete_embedding item)))
  else mret tt.

Definition decideResponseStrategy (cognitiveIntent : N9ml.CognitiveIntent)
    : M Agent Decision :=
  t ← now;
  a ← this;
  let decision :=
    if boltIntegration (traits a)
       && (String.eqb (N9ml.task cognitiveIntent) "creation"
           || String.eqb (N9ml.domain cognitiveIntent) "development")
       && (6 <? N9ml.complexity cognitiveIntent)
    then
      let spawnRequest :=
        {| intent := "Create repository for " +:+ N9ml.domain cognitiveIntent
                     +:+ " " +:+ N9ml.task cognitiveIntent;
           technologies := inferTechnologies cognitiveIntent;
           architecture := inferArchitecture cognitiveIntent;
           parentRepo := None;
           recursionLevel := 0 |} in
      {| shouldSpawnRepo := true;
         spawnRequests := [] ++ [spawnRequest];
         responseType := "repo-spawn";
         decision_complexity := N9ml.complexity cognitiveIntent;
         decision_timestamp := t |}
    else
      {| shouldSpawnRepo := false;
         spawnRequests := [];
         responseType := "direct";
         decision_complexity := N9ml.complexity cognitiveIntent;
         decision_timestamp := t |} in
  _ ← assign (with_oodaLoop (fun o =>
         mkOODA (observe o) (orient o) (Some decision) (act o)));
  mret decision.

Definition generateDirectResponse (decision : Decision) : M Agent string :=
  a ← this;
  let response := "I understand your request. "%string in
  let response :=
    if js_gt (creativity (traits a)) (js_decimal 7 1)
    then response +:+ "Let me explore some creative possibilities for this. "
    else response in
  let response :=
    if js_gt (precision (traits a)) (js_decimal 7 1)
    then response +:+ "I'll provide a detailed and accurate solution. "
    else response in
  mret (response +:+ "Based on my cognitive analysis (complexity: "
          +:+ pretty (decision_complexity decision) +:+ "), here's my response...").

Definition updateRAGMemory (response : string) : M Agent MemoryUpdates :=
  if String.eqb response ""
  then mret (mkMemoryUpdates 0 0 0)
  else
    embedding ← generateEmbedding response;
    t ← now;
    _ ← assign (with_ragMemory (set_embedding ("execution:" +:+ string_of_N t) embedding));
    mret (mkMemoryUpdates 1 0 0).

(** The loop of [executeDecision] over the requests still to spawn, with
    the response text and the list of spawned requests built so far. *)
Fixpoint spawn_each (requests : list RepoSpawnRequest) (response : string)
    (spawnedRepos : list RepoSpawnRequest)
    : M Agent (string * option (list RepoSpawnRequest)) :=
  match requests with
  | [] => mret (response, Some spawnedRepos)
  | spawnRequest :: rest =>
      spawnResult ← spawnRepository spawnRequest;
      spawn_each rest
        (response +:+ String "010"%char "Spawned repository: " +:+ repoId spawnResult)
        (spawnedRepos ++ [spawnRequest])
  end.

Definition executeDecision (decision : Decision) : M Agent ExecutionResult :=
  t ← now;
  '(response, spawnedRepos) ←
    (if shouldSpawnRepo decision
     then spawn_each (spawnRequests decision) ""%string []
     else
       response ← generateDirectResponse decision;
       mret (response, None));
  memoryUpdates ← updateRAGMemory response;
  let result :=
    {| response := response; result_spawnedRepos := spawnedRepos;
       memoryUpdates := memoryUpdates; result_timestamp := t |} in
  _ ← assign (with_oodaLoop (fun o =>
         mkOODA (observe o) (orient o) (decide o) (Some result)));
  mret result.

Definition analyzeResultSuccess (result : ExecutionResult) : SuccessMetrics :=
  {| overallSuccess := js_decimal 85 2;
     responseQuality := js_decimal 9 1;
     executionTime := js_of_Z 150;
     resourceUsage := js_decimal 3 1 |}.

Definition evolveTraitsFromFailure (metrics : SuccessMetrics)
    : M Agent (list (string * string)) :=
  if js_lt (responseQuality metrics) (js_decimal 6 1)
  then
    _ ← assign (with_traits (fun t =>
           set_precision (Math_min (js_of_Z 1)
                            (js_mul (precision t) (js_decimal 115 2))) t));
    mret [("precision", "increased_from_failure")]%string
  else mret [].

Definition adaptSelfModel (result : ExecutionResult) : M Agent Adaptations :=
  t ← now;
  let successMetrics := analyzeResultSuccess result in
  if js_gt (overallSuccess successMetrics) (js_decimal 8 1)
  then
    _ ← assign (with_traits (fun t =>
           set_adaptationRate (js_mul (adaptationRate t) (js_decimal 11 1)) t));
    mret {| traitEvolutions := []; adaptations_timestamp := t |}
  else
    _ ← assign (with_traits (fun t =>
           set_adaptationRate (js_mul (adaptationRate t) (js_decimal 12 1)) t));
    evolutions ← evolveTraitsFromFailure successMetrics;
    mret {| traitEvolutions := evolutions; adaptations_timestamp := t |}.

Definition processIntent (intent : string) (context : list string)
    : M Agent IntentResult :=
  let cognitiveIntent := parseIntentToCognitive intent in
  t ← now;
  _ ← assign (with_oodaLoop (fun o =>
         mkOODA (Some (mkObservation intent context cognitiveIntent t))
                (orient o) (decide o) (act o)));
  _ ← orientCognitiveModel cognitiveIntent context;
  decision ← decideResponseStrategy cognitiveIntent;
  result ← executeDecision decision;
  adaptations ← adaptSelfModel result;
  mret {| result_response := response result;
          spawned := result_spawnedRepos result;
          result_memoryUpdates := memoryUpdates result;
          adaptations := adaptations |}.

(** [new GGMLPersonaAgent(traits)]. *)
Definition new_GGMLPersonaAgent (traits : PersonaTraits)
    : World -> (error + Agent) * World :=
  fun w =>
    let construct : M N9ml.CognitiveQuantumField Agent :=
      cognitiveModules ← N9ml.mount env "/persona/cognitive/modules";
      memoryKernel ← N9ml.mount env "/persona/memory/rag";
      taskOrchestrator ← N9ml.mount env "/persona/task/bolt";
      autonomyCore ← N9ml.mount env "/persona/autonomy/recursive";
      selfModel ← N9ml.mount env "/persona/self/meta";
      field ← this;
      mret {| quantumField := field;
              personaTensors :=
                mkPersonaTensor cognitiveModules memoryKernel taskOrchestrator
                                autonomyCore;
              traits := traits;
              ragMemory := mkRAG JSMap.empty [] JSMap.empty (js_decimal 7 1);
              oodaLoop := mkOODA None None None None;
              spawnedRepos := JSMap.empty;
              selfModel := selfModel |} in
    match construct w N9ml.new_CognitiveQuantumField with
    | (r, (w', _)) => (r, w')
    end.

Record PersonaState : Type := mkPersonaState {
  state_traits : PersonaTraits;
  memorySize : nat;
  spawnedRepoCount : nat;
  oodaState : OODALoopState;
  tensorMounts : nat
}.

Definition getPersonaState : M Agent PersonaState :=
  a ← this;
  mret {| state_traits := traits a;
          memorySize := JSMap.size (embeddings (ragMemory a));
          spawnedRepoCount := JSMap.size (spawnedRepos a);
          oodaState := oodaLoop a;
          tensorMounts := size (N9ml.mountedTensors (quantumField a)) |}.
(** A call a client makes on the agent's public interface. *)
Inductive Call : Type :=
  | CallProcessIntent (intent : string) (context : list string)
  | CallSpawnRepository (request : RepoSpawnRequest)
  | CallRetrieveFromRAG (query : string) (maxResults : Z)
  | CallPerformSelfModification
  | CallGetPersonaState.

(** The state a call leaves, whether it returns or throws. *)
Definition perform (c : Call) (w : World) (a : Agent) : World * Agent :=
  match c with
  | CallProcessIntent intent context => snd (processIntent intent context w a)
  | CallSpawnRepository request => snd (spawnRepository request w a)
  | CallRetrieveFromRAG query maxResults => snd (retrieveFromRAG query maxResults w a)
  | CallPerformSelfModification => snd (performSelfModification w a)
  | CallGetPersonaState => snd (getPersonaState w a)
  end.

(** The state after a sequence of calls, a caller catching what is thrown. *)
Fixpoint perform_all (cs : list Call) (w : World) (a : Agent) : World * Agent :=
  match cs with
  | [] => (w, a)
  | c :: cs' => let '(w', a') := perform c w a in perform_all cs' w' a'
  end.

(** The context strings a call hands to the Orient phase. *)
Definition context_of (c : Call) : list string :=
  match c with
  | CallProcessIntent _ context => context
  | _ => []
  end.
End Methods.

End PersonaAgent.

(** ** Concrete inputs used to exercise the statements *)

Module Examples.
Import JS Runtime PersonaAgent.

Definition example_env : Env :=
  {| Date_now := fun k => (1700000000000 + N.of_nat k)%N;
     Math_random := fun k => js_decimal (Z.of_nat (k mod 100)) 2;
     random_suffix := fun _ => "k3j9x0q2m"%string |}.

(** The traits the repository configures its agent with. *)
Definition example_traits : PersonaTraits :=
  {| creativity := js_decimal 8 1;
     precision := js_decimal 9 1;
     recursionDepth := 3;
     adaptationRate := js_decimal 1 1;
     boltIntegration := true |}.

Definition blank_tensor : N9ml.Tensor :=
  N9ml.mkTensor "" 1%positive 1%positive N9ml.uint16
    (N9ml.mkArch N9ml.transformer 2 1 N9ml.accuracy)
    (N9ml.mkQuant N9ml.bits16 N9ml.dynamic true).

(** An agent over an empty field, for inputs that need no mounted tensor. *)
Definition bare_agent (traits : PersonaTraits) : Agent :=
  {| quantumField := N9ml.new_CognitiveQuantumField;
     personaTensors := mkPersonaTensor blank_tensor blank_tensor blank_tensor blank_tensor;
     traits := traits;
     ragMemory := mkRAG JSMap.empty [] JSMap.empty (js_decimal 7 1);
     oodaLoop := mkOODA None None None None;
     spawnedRepos := JSMap.empty;
     selfModel := blank_tensor |}.

(** The agent [new GGMLPersonaAgent(traits)] builds, with the heap it leaves. *)
Definition constructed (traits : PersonaTraits) : World * Agent :=
  match new_GGMLPersonaAgent example_env traits empty_world with
  | (inr a, w) => (w, a)
  | (inl _, w) => (w, bare_agent traits)
  end.

(** The embedding the generator yields first in [example_env]. *)
Definition first_embedding : Float32Vector :=
  match generateEmbedding example_env "" empty_world tt with
  | (inr e, _) => e
  | (inl _, _) => []
  end.

(** An agent whose memory holds [first_embedding] under each of [keys]. *)
Definition remembering (keys : list string) : Agent :=
  with_ragMemory
    (fun m => foldl (fun m key => set_embedding key first_embedding m) m keys)
    (bare_agent example_traits).

(** A heap holding one float32 array and the shape array [[32, 32]], and a
    tensor over them. *)
Definition float32_world (xs : list number) : World :=
  mkWorld {[1%positive := mkTypedArray Float32Array xs]} {[1%positive := [32; 32]]} 0 0.

Definition float32_tensor : N9ml.Tensor :=
  N9ml.mkTensor "tensor_0" 1%positive 1%positive N9ml.float32
    (N9ml.mkArch N9ml.transformer 2 1 N9ml.accuracy)
    (N9ml.mkQuant N9ml.bits32 N9ml.adaptive true).

End Examples.

(** * Properties *)

(** ** Reasoning about methods *)

Module Hoare.
Import JS Runtime.

(** [m] leaves the state related by [R] to the one it started from, whether it
    returns or throws. *)
Definition stable {S A} (R : S -> S -> Prop) (m : M S A) : Prop :=
  forall w s, R s (snd (snd (m w s))).

(** [m] returns (it does not throw). *)
Definition total {S A} (m : M S A) : Prop :=
  forall w s, exists a w' s', m w s = (inr a, (w', s')).

Section Stable.
Context {S : Type} (R : S -> S -> Prop) `{!PreOrder R}.

Lemma stable_ret {A} (a : A) : stable R (mret a : M S A).
Proof. intros w s. simpl. reflexivity. Qed.

Lemma stable_throw {A} e : stable R (throw e : M S A).
Proof. intros w s. simpl. reflexivity. Qed.

Lemma stable_this : stable R (this : M S S).
Proof. intros w s. simpl. reflexivity. Qed.

Lemma stable_bind {A B} (m : M S A) (k : A -> M S B) :
  stable R m -> (forall a, stable R (k a)) -> stable R (m ≫= k).
Proof.
  intros Hm Hk w s. unfold mbind, M_bind, bind.
  specialize (Hm w s). destruct (m w s) as [[e|a] [w' s']]; simpl in *.
  - exact Hm.
  - etransitivity; [exact Hm | apply Hk].
Qed.

Lemma stable_assign (f : S -> S) : (forall s, R s (f s)) -> stable R (assign f).
Proof. intros Hf w s. simpl. apply Hf. Qed.

Lemma stable_now env : stable R (now env : M S N).
Proof. intros w s. simpl. reflexivity. Qed.

Lemma stable_random env : stable R (random env : M S number).
Proof. intros w s. simpl. reflexivity. Qed.

Lemma stable_randoms env n : stable R (randoms env n : M S (list number)).
Proof.
  induction n as [|n IH].
  - apply (stable_ret []).
  - change (randoms env (Datatypes.S n) : M S (list number))
      with (random env ≫= (fun r => randoms env n ≫= (fun rs => mret (r :: rs)))
            : M S (list number)).
    apply stable_bind; [apply stable_random|]. intros r.
    apply stable_bind; [exact IH|]. intros rs. apply stable_ret.
Qed.

Lemma stable_lift_result {A} (r : error + A) : stable R (N9ml.lift_result r : M S A).
Proof. destruct r; [apply stable_throw | apply stable_ret]. Qed.
End Stable.

Ltac stable_step :=
  cbv beta;
  lazymatch goal with
  | |- PreOrder _ => typeclasses eauto
  | |- forall _, _ => intro
  | |- stable _ (@mret _ _ _ _) => apply stable_ret
  | |- stable _ (throw _) => apply stable_throw
  | |- stable _ this => apply stable_this
  | |- stable _ (now _) => apply stable_now
  | |- stable _ (random _) => apply stable_random
  | |- stable _ (randoms _ _) => apply stable_randoms
  | |- stable _ (N9ml.lift_result _) => apply stable_lift_result
  | |- stable _ (@mbind _ _ _ _ _ _) => apply stable_bind
  | |- stable _ (if ?c then _ else _) => destruct c
  | |- stable _ (match ?x with _ => _ end) => destruct x
  end.

Lemma randoms_returns env {S} n w (s : S) :
  randoms env n w s =
    (inr (List.map (Math_random env) (seq (draws w) n)),
     (mkWorld (buffers w) (arrays w) (ticks w) (draws w + n), s)).
Proof.
  revert w. induction n as [|n IH]; intros w.
  - change (randoms env 0 w s) with (inr (@nil number) : error + list number, (w, s)).
    destruct w; simpl. do 3 f_equal. lia.
  - change (randoms env (Datatypes.S n) w s)
      with (bind (random env) (fun r => bind (randoms env n) (fun rs => ret (r :: rs))) w s).
    unfold bind, random at 1. rewrite IH. simpl. unfold ret. do 4 f_equal. lia.
Qed.

End Hoare.

(** ** Facts about the arithmetic of doubles *)

Module FloatFacts.
Import JS.

Lemma digits2_pos_bounds (m : positive) :
  2 ^ (Z.pos (digits2_pos m) - 1) <= Z.pos m < 2 ^ Z.pos (digits2_pos m).
Proof.
  induction m as [m IH|m IH|]; simpl digits2_pos.
  - rewrite Pos2Z.inj_succ. replace (Z.succ (Z.pos (digits2_pos m)) - 1) with (Z.succ (Z.pos (digits2_pos m) - 1)) by lia.
    rewrite !Z.pow_succ_r by lia. lia.
  - rewrite Pos2Z.inj_succ. replace (Z.succ (Z.pos (digits2_pos m)) - 1) with (Z.succ (Z.pos (digits2_pos m) - 1)) by lia.
    rewrite !Z.pow_succ_r by lia. lia.
  - simpl. lia.
Qed.

Lemma digits2_pos_unique (m : positive) (k : Z) :
  2 ^ (k - 1) <= Z.pos m < 2 ^ k -> Z.pos (digits2_pos m) = k.
Proof.
  intros [Hlo Hhi]. pose proof (digits2_pos_bounds m) as [Blo Bhi].
  assert (0 < k).
  { destruct (Z.ltb_spec 0 k) as [|Hk]; [assumption|]. exfalso.
    destruct (Z.eq_dec k 0) as [->|Hne]; [simpl in Hhi; lia|].
    rewrite Z.pow_neg_r in Hhi by lia. lia. }
  destruct (Z.lt_trichotomy (Z.pos (digits2_pos m)) k) as [H1|[H1|H1]]; [|exact H1|].
  - assert (2 ^ Z.pos (digits2_pos m) <= 2 ^ (k - 1)) by (apply Z.pow_le_mono_r; lia). lia.
  - assert (2 ^ k <= 2 ^ (Z.pos (digits2_pos m) - 1)) by (apply Z.pow_le_mono_r; lia). lia.
Qed.

Lemma iter_pos_nat {A} (f : A -> A) (n : positive) (x : A) :
  SpecFloat.iter_pos f n x = Nat.iter (Pos.to_nat n) f x.
Proof.
  revert x. induction n as [n IH|n IH|]; intros x; cbn [SpecFloat.iter_pos].
  - rewrite !IH, Pos2Nat.inj_xI.
    replace (S (2 * Pos.to_nat n)) with (Pos.to_nat n + S (Pos.to_nat n))%nat by lia.
    rewrite Nat.iter_add, Nat.iter_succ_r. reflexivity.
  - rewrite !IH, Pos2Nat.inj_xO.
    replace (2 * Pos.to_nat n)%nat with (Pos.to_nat n + Pos.to_nat n)%nat by lia.
    rewrite Nat.iter_add. reflexivity.
  - reflexivity.
Qed.

Lemma shr_1_m (mrs : shr_record) : 0 <= shr_m mrs -> shr_m (shr_1 mrs) = shr_m mrs / 2.
Proof.
  destruct mrs as [m r s]. simpl. intros Hm.
  destruct m as [|p|p]; [reflexivity| |lia].
  destruct p as [p|p|]; simpl.
  - rewrite Pos2Z.inj_xI. apply Z.div_unique with 1; lia.
  - rewrite Pos2Z.inj_xO. apply Z.div_unique with 0; lia.
  - reflexivity.
Qed.

Lemma shr_iter_m (k : nat) (mrs : shr_record) :
  0 <= shr_m mrs -> shr_m (Nat.iter k shr_1 mrs) = shr_m mrs / 2 ^ Z.of_nat k.
Proof.
  intros Hm. induction k as [|k IH].
  - simpl. rewrite Z.div_1_r. reflexivity.
  - rewrite Nat2Z.inj_succ, Z.pow_succ_r by lia. simpl Nat.iter.
    rewrite shr_1_m.
    + rewrite IH. rewrite Z.div_div by lia. f_equal. lia.
    + rewrite IH. apply Z.div_pos; lia.
Qed.

Lemma round_nearest_even_bounds (mrs : shr_record) :
  shr_m mrs <= round_nearest_even (shr_m mrs) (loc_of_shr_record mrs) <= shr_m mrs + 1.
Proof.
  destruct mrs as [m [|] [|]]; simpl; try lia. destruct (Z.even m); lia.
Qed.

(** Rounding a significand of more than [prec] bits whose result is in the
    normal range: the significand is cut to its [prec] leading bits and then
    kept or incremented. *)
Lemma binary_round_aux_normal (s : bool) (P : positive) (e : Z) (lx : location) :
  let d := Z.pos (digits2_pos P) in
  prec < d -> emin prec emax <= d + e - prec ->
  exists m1 : positive,
    Z.pos P / 2 ^ (d - prec) <= Z.pos m1 <= Z.pos P / 2 ^ (d - prec) + 1
    /\ 2 ^ (prec - 1) <= Z.pos P / 2 ^ (d - prec) < 2 ^ prec
    /\ binary_round_aux prec emax s (Z.pos P) e lx =
       if Z.pos m1 <? 2 ^ prec
       then (if e + (d - prec) <=? emax - prec
             then S754_finite s m1 (e + (d - prec)) else S754_infinity s)
       else (if e + (d - prec) + 1 <=? emax - prec
             then S754_finite s (Z.to_pos (2 ^ (prec - 1))) (e + (d - prec) + 1)
             else S754_infinity s).
Proof.
  intros d Hd He. unfold prec, emax, emin in *.
  pose proof (digits2_pos_bounds P) as [Plo Phi]. fold d in Plo, Phi.
  assert (Hq : 2 ^ 52 <= Z.pos P / 2 ^ (d - 53) < 2 ^ 53).
  { replace (2 ^ (d - 1)) with (2 ^ 52 * 2 ^ (d - 53)) in Plo
      by (rewrite <- Z.pow_add_r by lia; f_equal; lia).
    replace (2 ^ d) with (2 ^ 53 * 2 ^ (d - 53)) in Phi
      by (rewrite <- Z.pow_add_r by lia; f_equal; lia).
    assert (0 < 2 ^ (d - 53)) by (apply Z.pow_pos_nonneg; lia).
    split.
    - apply Z.div_le_lower_bound; lia.
    - apply Z.div_lt_upper_bound; lia. }
  unfold binary_round_aux, shr_fexp, fexp, emin.
  change (Zdigits2 (Z.pos P)) with d.
  rewrite (Z.max_l (d + e - 53) (3 - 1024 - 53)) by lia.
  replace (d + e - 53 - e) with (d - 53) by lia.
  destruct (d - 53) as [|n|n] eqn:En; [lia| |lia].
  unfold shr at 1. rewrite iter_pos_nat.
  set (mrs := Nat.iter (Pos.to_nat n) shr_1 (shr_record_of_loc (Z.pos P) lx)).
  assert (Hm : shr_m mrs = Z.pos P / 2 ^ Z.pos n).
  { unfold mrs. rewrite shr_iter_m.
    - rewrite positive_nat_Z. destruct lx as [|[| |]]; reflexivity.
    - destruct lx as [|[| |]]; simpl; lia. }
  pose proof (round_nearest_even_bounds mrs) as Hr.
  cbv zeta. cbn [fst snd].
  set (m1 := round_nearest_even (shr_m mrs) (loc_of_shr_record mrs)) in *.
  rewrite Hm in Hr.
  assert (Hm1 : 0 < m1) by lia.
  destruct m1 as [|q|q] eqn:Eq; [lia| |lia].
  exists q. split; [lia|]. split; [lia|].
  destruct (Z.ltb_spec (Z.pos q) (2 ^ 53)) as [Hlt|Hge].
  - assert (Hdq : Z.pos (digits2_pos q) = 53) by (apply digits2_pos_unique; lia).
    cbn [Zdigits2]. rewrite Hdq.
    rewrite (Z.max_l (53 + (e + Z.pos n) - 53) (3 - 1024 - 53)) by lia.
    replace (53 + (e + Z.pos n) - 53 - (e + Z.pos n)) with 0 by lia.
    reflexivity.
  - assert (Hq2 : Z.pos q = 2 ^ 53) by lia.
    assert (Hdq : Z.pos (digits2_pos q) = 54) by (apply digits2_pos_unique; lia).
    cbn [Zdigits2]. rewrite Hdq.
    rewrite (Z.max_l (54 + (e + Z.pos n) - 53) (3 - 1024 - 53)) by lia.
    replace (54 + (e + Z.pos n) - 53 - (e + Z.pos n)) with 1 by lia.
    injection Hq2 as ->. reflexivity.
Qed.

Lemma positive_normal_inv x :
  is_positive_normal x = true ->
  exists m e, x = S754_finite false m e
              /\ 2 ^ 52 <= Z.pos m < 2 ^ 53 /\ -1074 <= e <= 971.
Proof.
  destruct x as [| | |[|] m e]; try discriminate. cbn [is_positive_normal valid_binary].
  unfold bounded, canonical_mantissa, fexp, emin, prec, emax.
  rewrite !andb_true_iff, Z.eqb_eq, Z.leb_le, Z.eqb_eq. intros [[Hc Hb] Hd].
  exists m, e. split; [reflexivity|]. rewrite Hd in Hc.
  pose proof (digits2_pos_bounds m) as B. rewrite Hd in B. simpl in B. lia.
Qed.

Lemma mul_1_1_increases x :
  is_positive_normal x = true -> js_gt (js_mul x (js_decimal 11 1)) x = true.
Proof.
  intros Hx. destruct (positive_normal_inv x Hx) as (m & e & -> & Hm & He).
  replace (js_decimal 11 1) with (S754_finite false 4953959590107546 (-52))
    by (vm_compute; reflexivity).
  unfold js_gt, js_mul. cbn [SFmul xorb].
  set (P := (m * 4953959590107546)%positive).
  assert (HP : 2 ^ 104 < Z.pos P < 2 ^ 106) by (unfold P; rewrite Pos2Z.inj_mul; lia).
  pose proof (digits2_pos_bounds P) as BP.
  assert (Hd : Z.pos (digits2_pos P) = 105 \/ Z.pos (digits2_pos P) = 106).
  { destruct (Z.lt_ge_cases (Z.pos P) (2 ^ 105)).
    - left. apply digits2_pos_unique. lia.
    - right. apply digits2_pos_unique. lia. }
  destruct (binary_round_aux_normal false P (e + -52) loc_Exact)
    as (m1 & Hm1 & Hq & ->); unfold prec, emax, emin in *; try lia.
  assert (Hmono : Z.pos (digits2_pos P) = 105 -> Z.pos m < Z.pos m1).
  { intros E. rewrite E in Hm1. change (2 ^ (105 - 53)) with (2 ^ 52) in Hm1.
    assert (Z.pos m + 1 <= Z.pos P / 2 ^ 52); [|lia].
    apply Z.div_le_lower_bound; [lia|]. unfold P. rewrite Pos2Z.inj_mul. lia. }
  unfold SFltb, SFcompare.
  destruct (Z.ltb_spec (Z.pos m1) (2 ^ 53)).
  - destruct (Z.leb_spec (e + -52 + (Z.pos (digits2_pos P) - 53)) (1024 - 53)); [|reflexivity].
    destruct Hd as [Hd|Hd]; rewrite Hd in *.
    + replace (e + -52 + (105 - 53)) with e by lia. rewrite Z.compare_refl.
      rewrite Pos.compare_cont_spec. simpl. 
      specialize (Hmono eq_refl). rewrite (proj2 (Pos.compare_lt_iff m m1)) by lia. reflexivity.
    + replace (e + -52 + (106 - 53)) with (e + 1) by lia.
      rewrite (proj2 (Z.compare_lt_iff e (e + 1))) by lia. reflexivity.
  - destruct (Z.leb_spec (e + -52 + (Z.pos (digits2_pos P) - 53) + 1) (1024 - 53)); [|reflexivity].
    rewrite (proj2 (Z.compare_lt_iff e _)) by lia. reflexivity.
Qed.

Local Abbreviation fexp := (SpecFloat.fexp prec emax).


Lemma fexp_ge_emin x : -1074 <= fexp x.
Proof. unfold fexp, SpecFloat.fexp, emin, prec, emax. lia. Qed.

Lemma fexp_eq x : fexp x = Z.max (x - 53) (-1074).
Proof. reflexivity. Qed.

Lemma Zdigits2_nonneg m : 0 <= Zdigits2 m.
Proof. destruct m; simpl; lia. Qed.

Lemma Zdigits2_bounds m : 0 < m -> 2 ^ (Zdigits2 m - 1) <= m < 2 ^ Zdigits2 m.
Proof. destruct m as [|p|p]; try lia. intros _. apply digits2_pos_bounds. Qed.

Lemma Zdigits2_unique m k : 0 < m -> 2 ^ (k - 1) <= m < 2 ^ k -> Zdigits2 m = k.
Proof. destruct m as [|p|p]; try lia. intros _. apply digits2_pos_unique. Qed.

(** digits of a quotient by a power of two *)
Lemma Zdigits2_div_pow2 m n :
  0 < m -> 0 <= n -> n < Zdigits2 m -> Zdigits2 (m / 2 ^ n) = Zdigits2 m - n.
Proof.
  intros Hm Hn Hd. pose proof (Zdigits2_bounds m Hm) as [Lo Hi].
  assert (0 < 2 ^ n) by (apply Z.pow_pos_nonneg; lia).
  assert (Hlo : 2 ^ (Zdigits2 m - n - 1) <= m / 2 ^ n).
  { apply Z.div_le_lower_bound; [lia|]. rewrite <- Z.pow_add_r by lia.
    replace (n + (Zdigits2 m - n - 1)) with (Zdigits2 m - 1) by lia. exact Lo. }
  assert (Hhi : m / 2 ^ n < 2 ^ (Zdigits2 m - n)).
  { apply Z.div_lt_upper_bound; [lia|]. rewrite <- Z.pow_add_r by lia.
    replace (n + (Zdigits2 m - n)) with (Zdigits2 m) by lia. exact Hi. }
  apply Zdigits2_unique; [|split; assumption].
  assert (0 < 2 ^ (Zdigits2 m - n - 1)) by (apply Z.pow_pos_nonneg; lia). lia.
Qed.

Lemma div_pow2_small m n : 0 <= m -> 0 <= n -> Zdigits2 m <= n -> m / 2 ^ n = 0.
Proof.
  intros Hm Hn Hd. destruct (Z.eq_dec m 0) as [->|Hne]; [apply Z.div_0_l; lia|].
  pose proof (Zdigits2_bounds m ltac:(lia)) as [Lo Hi].
  apply Z.div_small. split; [lia|].
  assert (2 ^ Zdigits2 m <= 2 ^ n) by (apply Z.pow_le_mono_r; lia). lia.
Qed.

(** the two outcomes of the second normalisation *)
Lemma shr_fexp_exact_small m f :
  0 <= m -> Zdigits2 m <= 53 -> -1074 <= f ->
  shr_fexp prec emax m f loc_Exact = ({| shr_m := m; shr_r := false; shr_s := false |}, f).
Proof.
  intros Hm Hd Hf. unfold shr_fexp. rewrite fexp_eq.
  assert (Hn : Z.max (Zdigits2 m + f - 53) (-1074) - f <= 0) by lia.
  unfold shr. destruct (Z.max _ _ - f); try reflexivity. lia.
Qed.

Lemma shr_fexp_exact_carry f :
  -1074 <= f ->
  shr_fexp prec emax (2 ^ 53) f loc_Exact
  = ({| shr_m := 2 ^ 52; shr_r := false; shr_s := false |}, f + 1).
Proof.
  intros Hf. unfold shr_fexp. rewrite fexp_eq.
  change (Zdigits2 (2 ^ 53)) with 54.
  replace (Z.max (54 + f - 53) (-1074) - f) with 1 by lia. reflexivity.
Qed.

Lemma shr_general (mrs : shr_record) e n :
  0 <= shr_m mrs -> 0 <= n ->
  let '(mrs', e') := shr mrs e n in
  shr_m mrs' = shr_m mrs / 2 ^ n /\ e' = e + n.
Proof.
  intros Hm Hn. unfold shr. destruct n as [|p|p]; [| |lia].
  - rewrite Z.div_1_r. split; [reflexivity | lia].
  - rewrite iter_pos_nat, shr_iter_m, positive_nat_Z by assumption. split; reflexivity.
Qed.

Lemma shr_m_record_of_loc m l : shr_m (shr_record_of_loc m l) = m.
Proof. destruct l as [|[| |]]; reflexivity. Qed.

(** Structure of a rounding whose input has enough digits. *)
Lemma binary_round_aux_cases (s : bool) (m e : Z) (l : location) :
  0 <= m -> e <= fexp (Zdigits2 m + e) ->
  let f := fexp (Zdigits2 m + e) in
  let m' := m / 2 ^ (f - e) in
  exists m1,
    (m1 = m' \/ m1 = m' + 1)
    /\ Zdigits2 m' <= 53
    /\ (0 < m' -> fexp (Zdigits2 m' + f) = f)
    /\ (m' = 0 -> f = -1074)
    /\ binary_round_aux prec emax s m e l =
       match m1 with
       | Z0 => S754_zero s
       | Z.pos p =>
           if Z.pos p <? 2 ^ 53
           then (if f <=? emax - prec then S754_finite s p f else S754_infinity s)
           else (if f + 1 <=? emax - prec
                 then S754_finite s (Z.to_pos (2 ^ 52)) (f + 1) else S754_infinity s)
       | Z.neg _ => S754_nan
       end.
Proof.
  intros Hm Hf f m'.
  assert (Hfe : -1074 <= f) by apply fexp_ge_emin.
  pose proof (Zdigits2_nonneg m) as Hd0.
  assert (Hm'0 : 0 <= m') by (apply Z.div_pos; [lia | apply Z.pow_pos_nonneg; lia]).
  (* digits of m' *)
  assert (Hdm' : Zdigits2 m' <= 53
                 /\ (0 < m' -> fexp (Zdigits2 m' + f) = f)
                 /\ (m' = 0 -> f = -1074)).
  { destruct (Z.lt_ge_cases (f - e) (Zdigits2 m)) as [Hlt|Hge].
    - assert (0 < m) by (destruct m; simpl in *; lia).
      assert (Hd : Zdigits2 m' = Zdigits2 m - (f - e))
        by (apply Zdigits2_div_pow2; lia).
      assert (0 < m').
      { destruct (Z.eq_dec m' 0) as [E|]; [|lia]. rewrite E in Hd. simpl in Hd. lia. }
      rewrite Hd. replace (Zdigits2 m - (f - e) + f) with (Zdigits2 m + e) by lia.
      fold f. unfold f at 1 2. rewrite fexp_eq. repeat split; try lia.
    - assert (E : m' = 0) by (apply div_pow2_small; lia).
      rewrite E. simpl. repeat split; try lia.
      intros _. unfold f in *. rewrite fexp_eq in *. lia. }
  destruct Hdm' as (Hd53 & Hcan & Hzero).
  unfold binary_round_aux.
  unfold shr_fexp at 1. fold f.
  pose proof (shr_general (shr_record_of_loc m l) e (f - e)) as Hshr.
  rewrite shr_m_record_of_loc in Hshr. specialize (Hshr Hm ltac:(lia)).
  destruct (shr (shr_record_of_loc m l) e (f - e)) as [mrs' e'].
  destruct Hshr as [Hm1 He']. fold m' in Hm1.
  replace e' with f by lia.
  pose proof (round_nearest_even_bounds mrs') as Hr.
  set (m1 := round_nearest_even (shr_m mrs') (loc_of_shr_record mrs')) in *.
  rewrite Hm1 in Hr.
  exists m1. split; [|split; [exact Hd53|split; [exact Hcan|split; [exact Hzero|]]]].
  { unfold m1. rewrite <- Hm1. destruct mrs' as [mm [|] [|]]; simpl; try tauto.
    destruct (Z.even mm); tauto. }
  assert (Hm1b : m1 <= 2 ^ 53).
  { clearbody m1. destruct (Z.eq_dec m' 0) as [E|]; [lia|].
    pose proof (Zdigits2_bounds m' ltac:(lia)) as [_ Hi].
    assert (2 ^ Zdigits2 m' <= 2 ^ 53) by (apply Z.pow_le_mono_r; lia). lia. }
  destruct m1 as [|p|p] eqn:Em1; [| |lia].
  - rewrite shr_fexp_exact_small by (simpl; lia). reflexivity.
  - destruct (Z.ltb_spec (Z.pos p) (2 ^ 53)) as [Hlt|Hge].
    + rewrite shr_fexp_exact_small; [reflexivity|lia| |lia].
      destruct (Z.le_gt_cases (Zdigits2 (Z.pos p)) 53) as [|Hgt]; [assumption|].
      pose proof (Zdigits2_bounds (Z.pos p) ltac:(lia)) as [Lo _].
      assert (2 ^ 53 <= 2 ^ (Zdigits2 (Z.pos p) - 1)) by (apply Z.pow_le_mono_r; lia). lia.
    + assert (E : Z.pos p = 2 ^ 53) by lia. rewrite E.
      rewrite shr_fexp_exact_carry by lia. reflexivity.
Qed.

Lemma Zdigits2_mono a b : 0 <= a <= b -> Zdigits2 a <= Zdigits2 b.
Proof.
  intros [Ha Hab]. destruct (Z.eq_dec a 0) as [->|Hne]; [apply Zdigits2_nonneg|].
  pose proof (Zdigits2_bounds a ltac:(lia)) as [La _].
  pose proof (Zdigits2_bounds b ltac:(lia)) as [_ Hb].
  destruct (Z.le_gt_cases (Zdigits2 a) (Zdigits2 b)) as [|Hgt]; [assumption|].
  assert (2 ^ Zdigits2 b <= 2 ^ (Zdigits2 a - 1))
    by (apply Z.pow_le_mono_r; [lia | pose proof (Zdigits2_nonneg b); lia]).
  lia.
Qed.

Lemma fexp_mono a b : a <= b -> fexp a <= fexp b.
Proof. rewrite !fexp_eq. lia. Qed.

(** A rounding whose input has enough digits yields a canonical double. *)
Lemma binary_round_aux_valid (s : bool) (m e : Z) (l : location) :
  0 <= m -> e <= fexp (Zdigits2 m + e) ->
  valid_binary prec emax (binary_round_aux prec emax s m e l) = true.
Proof.
  intros Hm Hf.
  destruct (binary_round_aux_cases s m e l Hm Hf) as (m1 & Hm1 & Hd & Hcan & Hzero & ->).
  set (f := fexp (Zdigits2 m + e)) in *. set (m' := m / 2 ^ (f - e)) in *.
  assert (Hm'0 : 0 <= m')
    by (apply Z.div_pos; [lia | apply Z.pow_pos_nonneg; pose proof (fexp_ge_emin (Zdigits2 m + e)); lia]).
  clearbody m' f.
  destruct m1 as [|p|p]; [reflexivity| |reflexivity].
  destruct (Z.ltb_spec (Z.pos p) (2 ^ 53)) as [Hlt|Hge].
  - destruct (Z.leb_spec f (emax - prec)) as [Hle|]; [|reflexivity].
    cbn [valid_binary]. unfold bounded, canonical_mantissa.
    rewrite (proj2 (Z.leb_le f (emax - prec)) Hle), andb_true_r. apply Z.eqb_eq.
    change (Z.pos (digits2_pos p)) with (Zdigits2 (Z.pos p)).
    assert (HD : Zdigits2 (Z.pos p) <= 53).
    { destruct (Z.le_gt_cases (Zdigits2 (Z.pos p)) 53) as [|Hgt]; [assumption|].
      pose proof (Zdigits2_bounds (Z.pos p) ltac:(lia)) as [Lo _].
      assert (2 ^ 53 <= 2 ^ (Zdigits2 (Z.pos p) - 1)) by (apply Z.pow_le_mono_r; lia). lia. }
    destruct (Z.eq_dec m' 0) as [E0|Hne].
    + assert (p = 1%positive) by lia. subst p. rewrite (Hzero E0). reflexivity.
    + specialize (Hcan ltac:(lia)).
      assert (Zdigits2 m' <= Zdigits2 (Z.pos p)) by (apply Zdigits2_mono; lia).
      rewrite fexp_eq in *. lia.
  - destruct (Z.leb_spec (f + 1) (emax - prec)) as [Hle|]; [|reflexivity].
    cbn [valid_binary]. unfold bounded, canonical_mantissa.
    rewrite (proj2 (Z.leb_le (f + 1) (emax - prec)) Hle), andb_true_r. apply Z.eqb_eq.
    change (Z.pos (digits2_pos (Z.to_pos (2 ^ 52)))) with 53.
    pose proof (fexp_ge_emin (Zdigits2 m + e)). rewrite fexp_eq.
    assert (-1074 <= f). { destruct (Z.eq_dec m' 0); [lia|]. specialize (Hcan ltac:(lia)). rewrite fexp_eq in Hcan. lia. }
    lia.
Qed.

(** A rounding that keeps at least one digit keeps the sign. *)
Lemma binary_round_aux_signed (s : bool) (m e : Z) (l : location) :
  0 <= m -> e <= fexp (Zdigits2 m + e) ->
  fexp (Zdigits2 m + e) - e < Zdigits2 m ->
  (exists p f, binary_round_aux prec emax s m e l = S754_finite s p f)
  \/ binary_round_aux prec emax s m e l = S754_infinity s.
Proof.
  intros Hm Hf Hk.
  destruct (binary_round_aux_cases s m e l Hm Hf) as (m1 & Hm1 & Hd & Hcan & Hzero & ->).
  set (f := fexp (Zdigits2 m + e)) in *. set (m' := m / 2 ^ (f - e)) in *.
  assert (0 < m).
  { destruct m; simpl in *; lia. }
  assert (Hdm : Zdigits2 m' = Zdigits2 m - (f - e)) by (apply Zdigits2_div_pow2; lia).
  assert (0 < m').
  { destruct (Z.eq_dec m' 0) as [E|]; [rewrite E in Hdm; simpl in Hdm; lia|].
    assert (0 <= m') by (apply Z.div_pos; [lia | apply Z.pow_pos_nonneg; lia]). lia. }
  destruct m1 as [|p|p]; [lia| |lia].
  destruct (Z.pos p <? 2 ^ 53).
  - destruct (f <=? emax - prec); eauto.
  - destruct (f + 1 <=? emax - prec); eauto.
Qed.

Lemma SFdiv_core_binary_enough (m1 m2 : positive) (e1 e2 : Z) :
  let '(q, e', _) := SFdiv_core_binary prec emax (Z.pos m1) e1 (Z.pos m2) e2 in
  0 <= q /\ e' <= fexp (Zdigits2 q + e').
Proof.
  unfold SFdiv_core_binary.
  set (d1 := Zdigits2 (Z.pos m1)). set (d2 := Zdigits2 (Z.pos m2)).
  set (e' := Z.min (fexp (d1 + e1 - (d2 + e2))) (e1 - e2)).
  set (s := e1 - e2 - e').
  assert (Hs : 0 <= s) by (unfold s, e'; lia).
  set (m' := match s with Z.pos _ => Z.shiftl (Z.pos m1) s | 0 => Z.pos m1 | Z.neg _ => 0 end).
  assert (Hm' : m' = Z.pos m1 * 2 ^ s).
  { unfold m'. destruct s as [|p|p]; [simpl; lia| |lia]. apply Z.shiftl_mul_pow2. lia. }
  pose proof (Z_div_mod m' (Z.pos m2) ltac:(lia)) as Hdiv.
  destruct (Z.div_eucl m' (Z.pos m2)) as [q r]. destruct Hdiv as [Hq Hr].
  assert (0 < 2 ^ s) by (apply Z.pow_pos_nonneg; lia).
  assert (Hq0 : 0 <= q) by nia.
  split; [exact Hq0|].
  pose proof (Zdigits2_bounds (Z.pos m1) ltac:(lia)) as [L1 _]. fold d1 in L1.
  pose proof (Zdigits2_bounds (Z.pos m2) ltac:(lia)) as [_ H2]. fold d2 in H2.
  assert (Hd1 : 0 < d1) by (unfold d1; simpl; lia).
  assert (Hd2 : 0 < d2) by (unfold d2; simpl; lia).
  assert (Hdq : d1 + s - d2 <= Zdigits2 q).
  { destruct (Z.le_gt_cases (d1 + s - d2) 0) as [|Hk]; [pose proof (Zdigits2_nonneg q); lia|].
    assert (Hlow : 2 ^ (d1 + s - d2 - 1) <= q).
    { assert (2 ^ (d1 - 1 + s) <= m').
      { rewrite Hm', Z.pow_add_r by lia. nia. }
      assert (E : 2 ^ (d1 - 1 + s) = 2 ^ (d1 + s - d2 - 1) * 2 ^ d2).
      { rewrite <- Z.pow_add_r by lia. f_equal. lia. }
      assert (0 < 2 ^ (d1 + s - d2 - 1)) by (apply Z.pow_pos_nonneg; lia).
      nia. }
    destruct (Z.le_gt_cases (d1 + s - d2) (Zdigits2 q)) as [|Hgt]; [assumption|].
    assert (0 < q) by (assert (0 < 2 ^ (d1 + s - d2 - 1)) by (apply Z.pow_pos_nonneg; lia); lia).
    pose proof (Zdigits2_bounds q ltac:(lia)) as [_ Hqh].
    assert (2 ^ Zdigits2 q <= 2 ^ (d1 + s - d2 - 1))
      by (apply Z.pow_le_mono_r; [lia | pose proof (Zdigits2_nonneg q); lia]).
    lia. }
  transitivity (fexp (d1 + e1 - (d2 + e2))); [unfold e'; lia|].
  apply fexp_mono. unfold s in Hdq. lia.
Qed.

(** Every quotient is a canonical double, whatever the operands. *)
Lemma SFdiv_valid (x y : spec_float) :
  valid_binary prec emax (SFdiv prec emax x y) = true.
Proof.
  destruct x as [sx|sx| |sx mx ex]; destruct y as [sy|sy| |sy my ey]; try reflexivity.
  cbn [SFdiv].
  pose proof (SFdiv_core_binary_enough mx my ex ey) as H.
  destruct (SFdiv_core_binary prec emax (Z.pos mx) ex (Z.pos my) ey) as [[q e'] l].
  destruct H as [Hq He]. apply binary_round_aux_valid; assumption.
Qed.

Lemma Zdigits2_mul_pow2 m k : 0 < m -> 0 <= k -> Zdigits2 (m * 2 ^ k) = Zdigits2 m + k.
Proof.
  intros Hm Hk. pose proof (Zdigits2_bounds m Hm) as [Lo Hi].
  assert (0 < 2 ^ k) by (apply Z.pow_pos_nonneg; lia).
  assert (0 < Zdigits2 m) by (destruct m; simpl in *; lia).
  apply Zdigits2_unique; [nia|].
  replace (Zdigits2 m + k - 1) with (Zdigits2 m - 1 + k) by lia.
  rewrite !Z.pow_add_r by lia. nia.
Qed.

Lemma iter_xO_spec (m d : positive) : Z.pos (Pos.iter xO m d) = Z.pos m * 2 ^ Z.pos d.
Proof.
  induction d as [|d IH] using Pos.peano_ind.
  - simpl. lia.
  - rewrite Pos.iter_succ, Pos2Z.inj_xO, IH, Pos2Z.inj_succ, Z.pow_succ_r by lia. lia.
Qed.

Lemma shl_align_spec (m : positive) (e ez : Z) :
  ez <= e ->
  Z.pos (fst (shl_align m e ez)) = Z.pos m * 2 ^ (e - ez) /\ snd (shl_align m e ez) = ez.
Proof.
  intros H. unfold shl_align. destruct (ez - e) as [|d|d] eqn:E; [|lia|].
  - replace (e - ez) with 0 by lia. simpl. split; lia.
  - simpl. rewrite iter_xO_spec. replace (e - ez) with (Z.pos d) by lia. split; reflexivity.
Qed.

Lemma shl_align_id (m : positive) (e ez : Z) : e <= ez -> shl_align m e ez = (m, e).
Proof. intros H. unfold shl_align. destruct (ez - e) eqn:E; try reflexivity. lia. Qed.

(** Rounding a non-zero integer at an exponent above [emin] keeps its sign. *)
Lemma binary_round_signed (s : bool) (m : positive) (e : Z) :
  -1074 <= e ->
  (exists p f, binary_round prec emax s m e = S754_finite s p f)
  \/ binary_round prec emax s m e = S754_infinity s.
Proof.
  intros He. unfold binary_round.
  set (F := fexp (Z.pos (digits2_pos m) + e)).
  change (Z.pos (digits2_pos m)) with (Zdigits2 (Z.pos m)) in F.
  assert (Hd : 0 < Zdigits2 (Z.pos m)) by (simpl; lia).
  destruct (Z.le_gt_cases e F) as [Hle|Hgt].
  - rewrite shl_align_id by exact Hle.
    apply binary_round_aux_signed; [lia | exact Hle |].
    fold F. unfold F in *. rewrite fexp_eq in *. lia.
  - destruct (shl_align_spec m e F ltac:(lia)) as [Hm Hz].
    destruct (shl_align m e F) as [mz ez]. cbn [fst snd] in Hm, Hz. subst ez.
    assert (HD : Zdigits2 (Z.pos mz) = Zdigits2 (Z.pos m) + (e - F))
      by (rewrite Hm; apply Zdigits2_mul_pow2; lia).
    assert (HF : fexp (Zdigits2 (Z.pos mz) + F) = F).
    { rewrite HD. replace (Zdigits2 (Z.pos m) + (e - F) + F) with (Zdigits2 (Z.pos m) + e) by lia.
      reflexivity. }
    apply binary_round_aux_signed; [lia | lia | lia].
Qed.

(** The position of a canonical double on the number line, in units of the
    smallest positive double; the infinities lie beyond every finite double. *)
Definition ord (x : spec_float) : Z :=
  match x with
  | S754_zero _ => 0
  | S754_finite s m e => cond_Zopp s (Z.pos m * 2 ^ (e + 1074))
  | S754_infinity false => 2 ^ 2100
  | S754_infinity true => - 2 ^ 2100
  | S754_nan => 0
  end.

Lemma valid_finite_inv s m e :
  valid_binary prec emax (S754_finite s m e) = true ->
  -1074 <= e <= 971 /\ Z.pos m < 2 ^ 53 /\ (-1074 < e -> 2 ^ 52 <= Z.pos m).
Proof.
  cbn [valid_binary]. unfold bounded, canonical_mantissa.
  rewrite andb_true_iff, Z.eqb_eq, Z.leb_le. rewrite fexp_eq. unfold emax, prec.
  intros [Hc Hb]. pose proof (digits2_pos_bounds m) as [Lo Hi].
  assert (Hd : Z.pos (digits2_pos m) <= 53) by lia.
  assert (2 ^ Z.pos (digits2_pos m) <= 2 ^ 53) by (apply Z.pow_le_mono_r; lia).
  repeat split; try lia. intros He.
  assert (Z.pos (digits2_pos m) = 53) by lia.
  replace (Z.pos (digits2_pos m) - 1) with 52 in Lo by lia. exact Lo.
Qed.

Lemma ord_finite_bounds s m e :
  valid_binary prec emax (S754_finite s m e) = true ->
  0 < Z.pos m * 2 ^ (e + 1074) < 2 ^ 2100.
Proof.
  intros H. apply valid_finite_inv in H as (He & Hm & _).
  assert (0 < 2 ^ (e + 1074)) by (apply Z.pow_pos_nonneg; lia).
  assert (2 ^ (e + 1074) <= 2 ^ 2045) by (apply Z.pow_le_mono_r; lia).
  split; [lia|].
  replace (2 ^ 2100) with (2 ^ 55 * 2 ^ 2045) by (rewrite <- Z.pow_add_r by lia; reflexivity).
  assert (2 ^ 53 < 2 ^ 55) by (apply Z.pow_lt_mono_r; lia). nia.
Qed.

(** On two canonical doubles of the same sign the comparison of the
    representations is the comparison of the values. *)
Lemma compare_magnitudes m1 e1 m2 e2 :
  valid_binary prec emax (S754_finite false m1 e1) = true ->
  valid_binary prec emax (S754_finite false m2 e2) = true ->
  match Z.compare e1 e2 with
  | Lt => Lt
  | Gt => Gt
  | Eq => Pos.compare_cont Eq m1 m2
  end = (Z.pos m1 * 2 ^ (e1 + 1074) ?= Z.pos m2 * 2 ^ (e2 + 1074)).
Proof.
  intros H1 H2. apply valid_finite_inv in H1 as (He1 & Hm1 & Hn1).
  apply valid_finite_inv in H2 as (He2 & Hm2 & Hn2).
  assert (Hstep : forall ma ea mb eb,
            -1074 <= ea -> ea < eb -> Z.pos ma < 2 ^ 53 -> 2 ^ 52 <= Z.pos mb ->
            Z.pos ma * 2 ^ (ea + 1074) < Z.pos mb * 2 ^ (eb + 1074)).
  { intros ma ea mb eb Ha Hab Hma Hmb.
    assert (0 < 2 ^ (ea + 1074)) by (apply Z.pow_pos_nonneg; lia).
    assert (2 ^ (ea + 1075) <= 2 ^ (eb + 1074)) by (apply Z.pow_le_mono_r; lia).
    replace (2 ^ (ea + 1075)) with (2 * 2 ^ (ea + 1074)) in *
      by (replace (ea + 1075) with (Z.succ (ea + 1074)) by lia; rewrite Z.pow_succ_r by lia; reflexivity).
    change (2 ^ 53) with (2 * 2 ^ 52) in Hma. nia. }
  destruct (Z.compare_spec e1 e2) as [->|Hlt|Hgt].
  - assert (0 < 2 ^ (e2 + 1074)) by (apply Z.pow_pos_nonneg; lia).
    change (Pos.compare_cont Eq m1 m2) with (Z.pos m1 ?= Z.pos m2).
    apply Zmult_compare_compat_r; lia.
  - symmetry. apply Z.compare_lt_iff. apply Hstep; lia.
  - symmetry. apply Z.compare_gt_iff. apply Hstep; lia.
Qed.

Lemma SFcompare_ord x y :
  valid_binary prec emax x = true -> valid_binary prec emax y = true ->
  x <> S754_nan -> y <> S754_nan ->
  SFcompare x y = Some (ord x ?= ord y).
Proof.
  intros Hx Hy Nx Ny.
  assert (P : 0 < 2 ^ 2100) by (apply Z.pow_pos_nonneg; lia).
  assert (cmp : forall a b c, match c with Lt => a < b | Eq => a = b | Gt => b < a end ->
                              Some c = Some (a ?= b)).
  { intros a b c H. f_equal. symmetry. destruct c;
      [apply Z.compare_eq_iff | apply Z.compare_lt_iff | apply Z.compare_gt_iff]; exact H. }
  destruct x as [sx|sx| |sx mx ex]; [| |contradiction|];
    destruct y as [sy|sy| |sy my ey]; try contradiction;
    try pose proof (ord_finite_bounds _ _ _ Hx) as Bx;
    try pose proof (ord_finite_bounds _ _ _ Hy) as By.
  - apply cmp. reflexivity.
  - destruct sy; apply cmp; cbn [ord]; lia.
  - destruct sy; apply cmp; cbn [ord cond_Zopp]; lia.
  - destruct sx; apply cmp; cbn [ord]; lia.
  - destruct sx, sy; apply cmp; cbn [ord]; lia.
  - destruct sx, sy; apply cmp; cbn [ord cond_Zopp]; lia.
  - destruct sx; apply cmp; cbn [ord cond_Zopp]; lia.
  - destruct sx, sy; apply cmp; cbn [ord cond_Zopp]; lia.
  - destruct sx, sy; cbn [SFcompare ord cond_Zopp].
    + f_equal. rewrite Z.compare_opp.
      rewrite <- (compare_magnitudes my ey mx ex) by assumption.
      rewrite (Z.compare_antisym ex ey).
      change (Pos.compare_cont Eq mx my) with (Pos.compare mx my).
      change (Pos.compare_cont Eq my mx) with (Pos.compare my mx).
      rewrite (Pos.compare_antisym mx my).
      destruct (ex ?= ey); cbn [CompOpp]; reflexivity.
    + apply cmp. lia.
    + apply cmp. lia.
    + f_equal. apply compare_magnitudes; assumption.
Qed.

Lemma cond_Zopp_mul s a b : cond_Zopp s (a * b) = cond_Zopp s a * b.
Proof. destruct s; simpl; lia. Qed.

(** The sign test of a comparator that subtracts: for canonical doubles
    other than NaN, [y - x] is greater than zero exactly when [x] lies below
    [y] on the number line. *)
Lemma sub_positive x y :
  valid_binary prec emax x = true -> valid_binary prec emax y = true ->
  x <> S754_nan -> y <> S754_nan ->
  SFltb (S754_zero false) (SFsub prec emax y x) = (ord x <? ord y).
Proof.
  intros Hx Hy Nx Ny.
  assert (P : 0 < 2 ^ 2100) by (apply Z.pow_pos_nonneg; lia).
  assert (T : forall a b, a < b -> true = (a <? b)) by (intros; symmetry; apply Z.ltb_lt; assumption).
  assert (F : forall a b, b <= a -> false = (a <? b)) by (intros; symmetry; apply Z.ltb_ge; assumption).
  destruct x as [sx|sx| |sx mx ex]; [| |contradiction|];
    destruct y as [sy|sy| |sy my ey]; try contradiction;
    try pose proof (ord_finite_bounds _ _ _ Hx) as Bx;
    try pose proof (ord_finite_bounds _ _ _ Hy) as By.
  - destruct sx, sy; apply F; cbn [ord]; lia.
  - destruct sy; [apply F | apply T]; cbn [ord]; lia.
  - destruct sy; [apply F | apply T]; cbn [ord cond_Zopp]; lia.
  - destruct sx; [apply T | apply F]; cbn [ord]; lia.
  - destruct sx, sy; first [apply T; cbn [ord]; lia | apply F; cbn [ord]; lia].
  - destruct sx; [apply T | apply F]; cbn [ord cond_Zopp]; destruct sy; cbn [cond_Zopp]; lia.
  - destruct sx; [apply T | apply F]; cbn [ord cond_Zopp]; lia.
  - destruct sy; [apply F | apply T]; cbn [ord cond_Zopp]; destruct sx; cbn [cond_Zopp]; lia.
  - cbn [SFsub].
    pose proof (valid_finite_inv _ _ _ Hx) as (Hex & _ & _).
    pose proof (valid_finite_inv _ _ _ Hy) as (Hey & _ & _).
    set (ez := Z.min ey ex).
    assert (Hez : -1074 <= ez) by (unfold ez; lia).
    destruct (shl_align_spec my ey ez ltac:(unfold ez; lia)) as [Ey _].
    destruct (shl_align_spec mx ex ez ltac:(unfold ez; lia)) as [Ex _].
    rewrite Ey, Ex.
    set (D := cond_Zopp sy (Z.pos my * 2 ^ (ey - ez)) - cond_Zopp sx (Z.pos mx * 2 ^ (ex - ez))).
    assert (HD : ord (S754_finite sy my ey) - ord (S754_finite sx mx ex) = D * 2 ^ (ez + 1074)).
    { unfold D. cbn [ord].
      replace (ey + 1074) with ((ey - ez) + (ez + 1074)) by lia.
      replace (ex + 1074) with ((ex - ez) + (ez + 1074)) by lia.
      rewrite (Z.pow_add_r 2 (ey - ez) (ez + 1074)) by (unfold ez; lia).
      rewrite (Z.pow_add_r 2 (ex - ez) (ez + 1074)) by (unfold ez; lia).
      rewrite !Z.mul_assoc, !cond_Zopp_mul. ring. }
    assert (Hp : 0 < 2 ^ (ez + 1074)) by (apply Z.pow_pos_nonneg; lia).
    unfold binary_normalize. destruct D as [|d|d] eqn:ED.
    + apply F. lia.
    + destruct (binary_round_signed false d ez Hez) as [(p & f & ->)| ->]; apply T; nia.
    + destruct (binary_round_signed true d ez Hez) as [(p & f & ->)| ->]; apply F; nia.
Qed.

End FloatFacts.

(** ** The quantization selector *)

Module QuantizationFacts.
Import JS Runtime N9ml.

(** C1, as the code has it. An intent of precision ['high'] gets
    [{ bits: 32, method: 'adaptive', preserveAccuracy: true }], except when its
    domain is ['vision'] and it is realtime: the domain adjustment that closes
    [optimizeQuantization] then sets [bits] to 8 and [method] to ['linear'], and
    [preserveAccuracy] stays [true]. *)
Theorem optimizeQuantization_high (intent : CognitiveIntent) :
  precision intent = high ->
  optimizeQuantization intent =
    if String.eqb (domain intent) "vision" && realtime intent
    then {| bits := bits8; method := linear; preserveAccuracy := true |}
    else {| bits := bits32; method := adaptive; preserveAccuracy := true |}.
Proof.
  intros Hp. unfold optimizeQuantization. rewrite Hp. simpl.
  destruct (String.eqb (domain intent) "vision" && realtime intent); reflexivity.
Qed.

Lemma optimizeQuantization_high_witness :
  optimizeQuantization (mkIntent "nlp" "precise" high false 9) =
    {| bits := bits32; method := adaptive; preserveAccuracy := true |}.
Proof.
  exact (optimizeQuantization_high (mkIntent "nlp" "precise" high false 9) eq_refl).
Defined.

(** C1 does not hold as stated: the path [/models/vision/realtime/high] parses
    to a realtime vision intent of precision ['high'], which is quantized to 8
    bits, linear. *)
Lemma optimizeQuantization_high_vision_realtime :
  parsePath "/models/vision/realtime/high" =
    inr (mkIntent "vision" "realtime" high true 8)
  /\ optimizeQuantization (mkIntent "vision" "realtime" high true 8) =
       {| bits := bits8; method := linear; preserveAccuracy := true |}.
Proof. split; reflexivity. Qed.

End QuantizationFacts.

(** ** The Decide phase and the recursion limit *)

Module DecisionFacts.
Import JS Runtime PersonaAgent.

(** C8. [decideResponseStrategy] returns a decision and records it; the decision
    spawns exactly when Bolt integration is on, the task is ['creation'] or the
    domain is ['development'], and the complexity exceeds 6; a spawning decision
    holds exactly one request, of recursion level 0, and any other holds none. *)
Theorem decideResponseStrategy_spawn (env : Env)
    (cognitiveIntent : N9ml.CognitiveIntent) (w : World) (a : Agent) :
  exists decision w' a',
    decideResponseStrategy env cognitiveIntent w a = (inr decision, (w', a'))
    /\ decide (oodaLoop a') = Some decision
    /\ (shouldSpawnRepo decision = true <->
        boltIntegration (traits a) = true
        /\ (N9ml.task cognitiveIntent = "creation"%string
            \/ N9ml.domain cognitiveIntent = "development"%string)
        /\ 6 < N9ml.complexity cognitiveIntent)
    /\ (shouldSpawnRepo decision = true ->
        exists request,
          spawnRequests decision = [request] /\ recursionLevel request = 0)
    /\ (shouldSpawnRepo decision = false -> spawnRequests decision = []).
Proof.
  unfold decideResponseStrategy, mbind, M_bind, bind, now, this, assign, mret, M_ret, ret.
  simpl.
  destruct (boltIntegration (traits a)) eqn:Hb; simpl.
  2:{ eexists _, _, _. split; [reflexivity|]. simpl.
      repeat split; try discriminate; try tauto; intros (? & _); discriminate. }
  destruct (String.eqb_spec (N9ml.task cognitiveIntent) "creation") as [Ht|Ht];
    destruct (String.eqb_spec (N9ml.domain cognitiveIntent) "development") as [Hd|Hd];
    destruct (Z.ltb_spec 6 (N9ml.complexity cognitiveIntent)) as [Hc|Hc]; simpl;
    eexists _, _, _; (split; [reflexivity|]); simpl;
    repeat split; try discriminate; try tauto; try lia; eauto;
    try (intros (_ & ? & ?); (lia || tauto)).
Qed.

(** C2. A request whose recursion level has reached [traits.recursionDepth] is
    rejected with the recursion-limit error, and the call ends in the very
    state it started from: heap, clock and random stream, mount table, RAG
    memory (embeddings, context window, semantic graph), OODA record, traits
    and the registry of spawned repositories are all as before. *)
Theorem spawnRepository_recursion_limit (env : Env) (request : RepoSpawnRequest)
    (w : World) (a : Agent) :
  recursionDepth (traits a) <= recursionLevel request ->
  spawnRepository env request w a =
    (inl (RecursionLimitError (recursionDepth (traits a))), (w, a)).
Proof.
  intros Hlimit. unfold spawnRepository, mbind, M_bind, bind, this. cbv beta iota.
  destruct (Z.leb_spec (recursionDepth (traits a)) (recursionLevel request)); [reflexivity | lia].
Qed.

Lemma spawnRepository_recursion_limit_witness :
  let a := Examples.bare_agent Examples.example_traits in
  let request :=
    {| intent := "Create a complex system"; technologies := ["react"%string];
       architecture := fullstack; parentRepo := None; recursionLevel := 3 |} in
  spawnRepository Examples.example_env request empty_world a =
    (inl (RecursionLimitError 3), (empty_world, a)).
Proof.
  intros a request.
  apply (spawnRepository_recursion_limit Examples.example_env request empty_world a).
  apply Z.leb_le. vm_compute. reflexivity.
Defined.

End DecisionFacts.

(** ** The bounded memory store *)

Module MemoryFacts.
Import JS Runtime PersonaAgent Hoare.

Section JSMapFacts.
Context {V : Type}.
Implicit Types (m : JSMap.t V) (k : string) (v : V).

Lemma get_set_eq m k v : JSMap.get (JSMap.set m k v) k = Some v.
Proof.
  induction m as [|[k' v'] m IH]; simpl.
  - rewrite String.eqb_refl. reflexivity.
  - destruct (String.eqb_spec k k') as [->|Hne]; simpl.
    + rewrite String.eqb_refl. reflexivity.
    + destruct (String.eqb_spec k k'); [contradiction | exact IH].
Qed.

Lemma get_set_ne m k k' v : k <> k' -> JSMap.get (JSMap.set m k' v) k = JSMap.get m k.
Proof.
  intros Hne. induction m as [|[k0 v0] m IH]; simpl.
  - destruct (String.eqb_spec k k'); [contradiction | reflexivity].
  - destruct (String.eqb_spec k' k0) as [->|Hne0]; simpl.
    + destruct (String.eqb_spec k k0); [contradiction | reflexivity].
    + destruct (String.eqb_spec k k0); [reflexivity | exact IH].
Qed.

Lemma get_delete_eq m k : JSMap.get (JSMap.delete m k) k = None.
Proof.
  induction m as [|[k' v'] m IH]; simpl; [reflexivity|].
  destruct (String.eqb_spec k k') as [->|Hne]; simpl; [exact IH|].
  destruct (String.eqb_spec k k'); [contradiction | exact IH].
Qed.

Lemma get_delete_ne m k k' : k <> k' -> JSMap.get (JSMap.delete m k') k = JSMap.get m k.
Proof.
  intros Hne. induction m as [|[k0 v0] m IH]; simpl; [reflexivity|].
  destruct (String.eqb_spec k' k0) as [->|Hne0]; simpl.
  - destruct (String.eqb_spec k k0); [contradiction | exact IH].
  - destruct (String.eqb_spec k k0); [reflexivity | exact IH].
Qed.

Lemma get_set_is_Some m k k' v :
  is_Some (JSMap.get m k) -> is_Some (JSMap.get (JSMap.set m k' v) k).
Proof.
  intros H. destruct (String.eqb_spec k k') as [->|Hne].
  - rewrite get_set_eq. eauto.
  - rewrite get_set_ne by exact Hne. exact H.
Qed.
End JSMapFacts.

(** The embedding [generateEmbedding] builds from the draws numbered [d],
    [d + 1], ..., [d + 383]. *)
Definition embedding_from (env : Env) (d : nat) : Float32Vector :=
  List.map (fun r => store Float32Array (js_sub (js_mul r (js_of_Z 2)) (js_of_Z 1)))
           (List.map (Math_random env) (seq d 384)).

#[global] Arguments embedding_from : simpl never.

Definition drawn (n : nat) (w : World) : World :=
  mkWorld (buffers w) (arrays w) (ticks w) (draws w + n).

Lemma generateEmbedding_returns env {S} text w (s : S) :
  generateEmbedding env text w s = (inr (embedding_from env (draws w)), (drawn 384 w, s)).
Proof.
  unfold generateEmbedding, mbind, M_bind, bind. rewrite randoms_returns. reflexivity.
Qed.

(** Loop rule: an invariant indexed by the elements already visited. *)
Lemma for_of_invariant {S A} (I : list A -> World -> S -> Prop)
    (body : A -> M S unit) (l : list A) w s :
  I [] w s ->
  (forall visited x w s, I visited w s ->
     exists w' s', body x w s = (inr tt, (w', s')) /\ I (visited ++ [x]) w' s') ->
  exists w' s', for_of l body w s = (inr tt, (w', s')) /\ I l w' s'.
Proof.
  intros H0 Hbody.
  enough (G : forall visited w s, I visited w s ->
            exists w' s', for_of l body w s = (inr tt, (w', s')) /\ I (visited ++ l) w' s').
  { exact (G [] w s H0). }
  clear w s H0. induction l as [|x l IH]; intros visited w s HI; simpl.
  - exists w, s. rewrite app_nil_r. split; [reflexivity | exact HI].
  - destruct (Hbody visited x w s HI) as (w1 & s1 & E1 & HI1).
    destruct (IH (visited ++ [x]) w1 s1 HI1) as (w2 & s2 & E2 & HI2).
    exists w2, s2. unfold mbind, M_bind, bind. rewrite E1.
    rewrite <- app_assoc in HI2. split; [exact E2 | exact HI2].
Qed.

Lemma map_all_generateEmbedding env {S} (context : list string) w (s : S) :
  exists es, map_all (generateEmbedding env) context w s
             = (inr es, (drawn (384 * length context) w, s)).
Proof.
  revert w. induction context as [|c context IH]; intros w; simpl.
  - exists []. unfold mret, M_ret, ret, drawn. destruct w; simpl. do 3 f_equal. lia.
  - unfold mbind, M_bind, bind. rewrite generateEmbedding_returns.
    destruct (IH (drawn 384 w)) as (es & E). rewrite E.
    eexists. unfold mret, M_ret, ret, drawn. simpl. do 3 f_equal. lia.
Qed.

(** Two agents that differ at most in the embeddings, the context window and
    the OODA record. *)
Definition same_but_memory (a a' : Agent) : Prop :=
  quantumField a' = quantumField a
  /\ personaTensors a' = personaTensors a
  /\ traits a' = traits a
  /\ spawnedRepos a' = spawnedRepos a
  /\ selfModel a' = selfModel a
  /\ semanticGraph (ragMemory a') = semanticGraph (ragMemory a)
  /\ retrievalThreshold (ragMemory a') = retrievalThreshold (ragMemory a).

Lemma same_but_memory_refl a : same_but_memory a a.
Proof. repeat split. Qed.

Lemma same_but_memory_trans a b c :
  same_but_memory a b -> same_but_memory b c -> same_but_memory a c.
Proof.
  unfold same_but_memory. intros (?&?&?&?&?&?&?) (?&?&?&?&?&?&?).
  repeat split; congruence.
Qed.

Abbreviation window a := (contextWindow (ragMemory a)).
Abbreviation embedding a k := (JSMap.get (embeddings (ragMemory a)) k).

(** The insertion loop of the Orient phase. *)
Lemma orient_insert env (context : list string) w a :
  exists w' a',
    for_of context (fun contextItem =>
        e ← generateEmbedding env contextItem;
        _ ← assign (with_ragMemory (set_embedding contextItem e));
        assign (with_ragMemory (push_context contextItem))) w a
      = (inr tt, (w', a'))
    /\ window a' = window a ++ context
    /\ (forall k, k ∉ context -> embedding a' k = embedding a k)
    /\ (forall k, k ∈ context -> is_Some (embedding a' k))
    /\ same_but_memory a a'.
Proof.
  apply (for_of_invariant
    (fun visited (_ : World) a' =>
       window a' = window a ++ visited
       /\ (forall k, k ∉ visited -> embedding a' k = embedding a k)
       /\ (forall k, k ∈ visited -> is_Some (embedding a' k))
       /\ same_but_memory a a')).
  - rewrite app_nil_r. repeat split. intros k Hk. inversion Hk.
  - intros visited x w1 a1 (Hw & Hout & Hin & Hsame).
    unfold mbind, M_bind, bind. rewrite generateEmbedding_returns.
    eexists _, _. split; [reflexivity|]. simpl. repeat split.
    + rewrite Hw, app_assoc. reflexivity.
    + intros k Hk. rewrite elem_of_app, list_elem_of_singleton in Hk.
      rewrite get_set_ne by (intros ->; tauto). apply Hout. tauto.
    + intros k Hk. rewrite elem_of_app, list_elem_of_singleton in Hk.
      destruct (String.eqb_spec k x) as [->|Hne].
      * rewrite get_set_eq. eauto.
      * rewrite get_set_ne by exact Hne. apply Hin. tauto.
    + apply Hsame.
    + apply Hsame.
    + apply Hsame.
    + apply Hsame.
    + apply Hsame.
    + apply Hsame.
    + apply Hsame.
Qed.

(** The eviction loop of the Orient phase. *)
Lemma orient_evict (removedItems : list string) w a :
  exists a',
    for_of removedItems (fun item =>
        assign (with_ragMemory (delete_embedding item))) w a
      = (inr tt, (w, a'))
    /\ window a' = window a
    /\ (forall k, k ∈ removedItems -> embedding a' k = None)
    /\ (forall k, k ∉ removedItems -> embedding a' k = embedding a k)
    /\ same_but_memory a a'.
Proof.
  destruct (for_of_invariant
    (fun visited w' a' =>
       w' = w /\ window a' = window a
       /\ (forall k, k ∈ visited -> embedding a' k = None)
       /\ (forall k, k ∉ visited -> embedding a' k = embedding a k)
       /\ same_but_memory a a')
    (fun item => assign (with_ragMemory (delete_embedding item))) removedItems w a)
    as (w' & a' & E & -> & H).
  - repeat split. intros k Hk. inversion Hk.
  - intros visited x w1 a1 (-> & Hw & Hin & Hout & Hsame).
    eexists _, _. split; [reflexivity|]. simpl. repeat split.
    + exact Hw.
    + intros k Hk. rewrite elem_of_app, list_elem_of_singleton in Hk.
      destruct (String.eqb_spec k x) as [->|Hne].
      * apply get_delete_eq.
      * rewrite get_delete_ne by exact Hne. apply Hin. tauto.
    + intros k Hk. rewrite elem_of_app, list_elem_of_singleton in Hk.
      rewrite get_delete_ne by (intros ->; tauto). apply Hout. tauto.
    + apply Hsame.
    + apply Hsame.
    + apply Hsame.
    + apply Hsame.
    + apply Hsame.
    + apply Hsame.
    + apply Hsame.
  - exists a'. split; [exact E | exact H].
Qed.

(** What one run of the Orient phase does to the memory store. *)
Lemma orientCognitiveModel_spec env cognitiveIntent (context : list string) w a :
  exists w' a',
    orientCognitiveModel env cognitiveIntent context w a = (inr tt, (w', a'))
    /\ (let pushed := window a ++ context in
        let n := (length pushed - 50)%nat in
        if (100 <? length pushed)%nat
        then window a' = drop n pushed
             /\ (forall k, k ∈ take n pushed -> embedding a' k = None)
             /\ (forall k, k ∉ take n pushed -> k ∉ context ->
                           embedding a' k = embedding a k)
             /\ (forall k, k ∉ take n pushed -> k ∈ context ->
                           is_Some (embedding a' k))
        else window a' = pushed
             /\ (forall k, k ∉ context -> embedding a' k = embedding a k)
             /\ (forall k, k ∈ context -> is_Some (embedding a' k)))
    /\ traits a' = traits a
    /\ spawnedRepos a' = spawnedRepos a
    /\ quantumField a' = quantumField a
    /\ semanticGraph (ragMemory a') = semanticGraph (ragMemory a)
    /\ retrievalThreshold (ragMemory a') = retrievalThreshold (ragMemory a).
Proof.
  unfold orientCognitiveModel. unfold mbind at 1, M_bind at 1, bind at 1.
  destruct (map_all_generateEmbedding env context w a) as (es & ->).
  unfold mbind at 1, M_bind at 1, bind at 1, now at 1. cbv beta iota.
  unfold mbind at 1, M_bind at 1, bind at 1, assign at 1. cbv beta iota.
  unfold mbind at 1, M_bind at 1, bind at 1.
  match goal with |- context [for_of context ?body ?w0 ?a0] =>
    destruct (orient_insert env context w0 a0) as (w1 & a1 & -> & Hw & Hout & Hin & Hsame)
  end.
  simpl in Hw, Hout, Hin.
  unfold mbind at 1, M_bind at 1, bind at 1, this at 1. cbv beta iota.
  assert (Hsame' : same_but_memory a a1).
  { destruct Hsame as (?&?&?&?&?&?&?). repeat split; assumption. }
  clear Hsame. rewrite Hw.
  destruct (Nat.ltb_spec 100 (length (window a ++ context))) as [Hlt|Hle]; cbv zeta.
  - unfold splice_front.
    replace (Z.to_nat (Z.of_nat (length (window a ++ context)) - 50))
      with (length (window a ++ context) - 50)%nat by lia.
    unfold mbind at 1, M_bind at 1, bind at 1, assign at 1. cbv beta iota.
    match goal with |- context [for_of ?l ?body ?w0 ?a0] =>
      destruct (orient_evict l w0 a0) as (a2 & -> & Hw2 & Hin2 & Hout2 & Hsame2)
    end.
    simpl in Hw2, Hin2, Hout2.
    exists w1, a2. split; [reflexivity|].
    assert (Hsame3 : same_but_memory a a2).
    { eapply same_but_memory_trans; [exact Hsame'|].
      destruct Hsame2 as (?&?&?&?&?&?&?). repeat split; assumption. }
    split; [|destruct Hsame3 as (?&?&?&?&?&?&?); repeat split; assumption].
    repeat split.
    + exact Hw2.
    + exact Hin2.
    + intros k Hk Hc. rewrite Hout2 by exact Hk. apply Hout, Hc.
    + intros k Hk Hc. rewrite Hout2 by exact Hk. apply Hin, Hc.
  - exists w1, a1. split; [reflexivity|].
    split; [|destruct Hsame' as (?&?&?&?&?&?&?); repeat split; assumption].
    repeat split; assumption.
Qed.

(** C3. From any state of the agent, and so after any sequence of earlier
    insertions, one run of the Orient phase returns with a context window of at
    most 100 keys.  When the window with the new keys appended is longer than
    100, its oldest (length - 50) keys are dropped, the 50 newest are kept, and
    no dropped key has an embedding left; otherwise the window is the old one
    with the new keys appended, each of them holding an embedding. *)
Theorem orientCognitiveModel_window_bounded (env : Env)
    (cognitiveIntent : N9ml.CognitiveIntent) (context : list string)
    (w : World) (a : Agent) :
  exists w' a',
    orientCognitiveModel env cognitiveIntent context w a = (inr tt, (w', a'))
    /\ (length (window a') <= 100)%nat
    /\ (let pushed := window a ++ context in
        let evicted := take (length pushed - 50) pushed in
        if (100 <? length pushed)%nat
        then window a' = drop (length pushed - 50) pushed
             /\ length (window a') = 50%nat
             /\ pushed = evicted ++ window a'
             /\ (forall k, k ∈ evicted -> embedding a' k = None)
        else window a' = pushed
             /\ (forall k, k ∈ context -> is_Some (embedding a' k))).
Proof.
  destruct (orientCognitiveModel_spec env cognitiveIntent context w a)
    as (w' & a' & E & H & _).
  exists w', a'. split; [exact E|]. cbv zeta in *.
  destruct (Nat.ltb_spec 100 (length (window a ++ context))) as [Hlt|Hle].
  - destruct H as (Hw & Hnone & _).
    assert (Hlen : length (window a') = 50%nat).
    { rewrite Hw, length_drop. lia. }
    split; [lia|]. repeat split.
    + exact Hw.
    + exact Hlen.
    + rewrite Hw, take_drop. reflexivity.
    + exact Hnone.
  - destruct H as (Hw & _ & Hin). split; [rewrite Hw; exact Hle|].
    split; [exact Hw | exact Hin].
Qed.

(** *** What the public methods leave alone *)

Section Frames.
Context (env : Env) (R : Agent -> Agent -> Prop) `{!PreOrder R}.
Context (R_embedding : forall k v a, R a (with_ragMemory (set_embedding k v) a)).
Context (R_graph : forall k v a, R a (with_ragMemory (set_semanticGraph k v) a)).
Context (R_spawned : forall f a, R a (with_spawnedRepos f a)).
Context (R_ooda : forall f a, R a (with_oodaLoop f a)).
Context (R_traits : forall f a,
           (forall t, adaptationRate (f t) = adaptationRate t) ->
           R a (with_traits f a)).

Lemma stable_generateEmbedding text : stable R (generateEmbedding env text).
Proof. unfold generateEmbedding. repeat stable_step. Qed.

Lemma stable_for_of {A} (l : list A) (body : A -> M Agent unit) :
  (forall x, stable R (body x)) -> stable R (for_of l body).
Proof.
  intros Hbody. induction l as [|x l IH]; simpl.
  - repeat stable_step.
  - apply stable_bind; first [typeclasses eauto | apply Hbody | intros _; exact IH].
Qed.

Ltac frame_step :=
  lazymatch goal with
  | |- stable _ (generateEmbedding _ _) => apply stable_generateEmbedding
  | |- stable _ (assign _) => apply stable_assign
  | _ => stable_step
  end.

Lemma stable_spawnRepository request : stable R (spawnRepository env request).
Proof.
  unfold spawnRepository, createBoltArtifact, generatePackageJson, createRAGExtension,
    updateSelfModelFromSpawning.
  repeat frame_step; auto.
Qed.

Lemma stable_retrieveFromRAG query maxResults :
  stable R (retrieveFromRAG env query maxResults).
Proof. unfold retrieveFromRAG. repeat frame_step. Qed.

Lemma stable_performSelfModification : stable R performSelfModification.
Proof.
  unfold performSelfModification, evolveTraits, updateSelfModel.
  repeat frame_step; apply R_traits; reflexivity.
Qed.

Lemma stable_getPersonaState : stable R getPersonaState.
Proof. unfold getPersonaState. repeat frame_step. Qed.

Lemma stable_decideResponseStrategy cognitiveIntent :
  stable R (decideResponseStrategy env cognitiveIntent).
Proof. unfold decideResponseStrategy. repeat frame_step; auto. Qed.

Lemma stable_spawn_each requests response spawnedRepos :
  stable R (spawn_each env requests response spawnedRepos).
Proof.
  revert response spawnedRepos.
  induction requests as [|r requests IH]; intros text done.
  - apply stable_ret; typeclasses eauto.
  - change (stable R (spawnResult ← spawnRepository env r;
                      spawn_each env requests
                        (text +:+ String "010"%char "Spawned repository: "
                              +:+ repoId spawnResult)
                        (done ++ [r]))).
    apply stable_bind;
      first [typeclasses eauto | apply stable_spawnRepository | intro; apply IH].
Qed.

Lemma stable_updateRAGMemory response : stable R (updateRAGMemory env response).
Proof. unfold updateRAGMemory. repeat frame_step; auto. Qed.

Lemma stable_executeDecision decision : stable R (executeDecision env decision).
Proof.
  unfold executeDecision, generateDirectResponse.
  repeat lazymatch goal with
         | |- stable _ (spawn_each _ _ _ _) => apply stable_spawn_each
         | |- stable _ (updateRAGMemory _ _) => apply stable_updateRAGMemory
         | _ => frame_step
         end; auto.
Qed.

(** The phases of [processIntent] up to and including Act, given what the
    Orient phase does with the context at hand. *)
Definition observe_to_act (intent : string) (context : list string)
    : M Agent ExecutionResult :=
  let cognitiveIntent := parseIntentToCognitive intent in
  t ← now env;
  _ ← assign (with_oodaLoop (fun o =>
         mkOODA (Some (mkObservation intent context cognitiveIntent t))
                (orient o) (decide o) (act o)));
  _ ← orientCognitiveModel env cognitiveIntent context;
  decision ← decideResponseStrategy env cognitiveIntent;
  executeDecision env decision.

Lemma stable_observe_to_act intent context :
  (forall cognitiveIntent, stable R (orientCognitiveModel env cognitiveIntent context)) ->
  stable R (observe_to_act intent context).
Proof.
  intros Horient. unfold observe_to_act. cbv zeta.
  repeat lazymatch goal with
         | |- stable _ (orientCognitiveModel _ _ _) => apply Horient
         | |- stable _ (decideResponseStrategy _ _) => apply stable_decideResponseStrategy
         | |- stable _ (executeDecision _ _) => apply stable_executeDecision
         | _ => frame_step
         end; auto.
Qed.
End Frames.

Lemma processIntent_phases env intent context w a :
  processIntent env intent context w a =
    (result ← observe_to_act env intent context;
     adaptations ← adaptSelfModel env result;
     mret {| result_response := response result;
             spawned := result_spawnedRepos result;
             result_memoryUpdates := memoryUpdates result;
             adaptations := adaptations |}) w a.
Proof.
  unfold processIntent, observe_to_act, mbind, M_bind, bind. cbv zeta.
  destruct (now env w a) as [[e|t] [w1 a1]]; [reflexivity|].
  destruct (assign _ w1 a1) as [[e|u] [w2 a2]]; [reflexivity|].
  destruct (orientCognitiveModel env _ context w2 a2) as [[e|u'] [w3 a3]]; [reflexivity|].
  destruct (decideResponseStrategy env _ w3 a3) as [[e|d] [w4 a4]]; reflexivity.
Qed.

(** A key outside the window stays outside it and keeps its embedding. *)
Definition keeps (k : string) (a a' : Agent) : Prop :=
  k ∉ window a -> (k ∉ window a') /\ (is_Some (embedding a k) -> is_Some (embedding a' k)).

#[local] Instance keeps_preorder k : PreOrder (keeps k).
Proof.
  split.
  - intros a Hk. split; [exact Hk | tauto].
  - intros a b c Hab Hbc Hk. destruct (Hab Hk) as [Hk' Hab'].
    destruct (Hbc Hk') as [Hk'' Hbc']. split; [exact Hk'' | tauto].
Qed.

Lemma keeps_same_memory k a a' :
  window a' = window a ->
  (is_Some (embedding a k) -> is_Some (embedding a' k)) ->
  keeps k a a'.
Proof. intros Hw He Hk. rewrite Hw. split; assumption. Qed.

Lemma keeps_orient env k cognitiveIntent context :
  k ∉ context -> stable (keeps k) (orientCognitiveModel env cognitiveIntent context).
Proof.
  intros Hc w a Hk.
  destruct (orientCognitiveModel_spec env cognitiveIntent context w a)
    as (w' & a' & -> & H & _). simpl. cbv zeta in H.
  assert (Hp : k ∉ window a ++ context) by (rewrite elem_of_app; tauto).
  destruct (100 <? length (window a ++ context))%nat.
  - destruct H as (Hw & _ & Hout & _). split.
    + rewrite Hw. intros Hin. apply Hp.
      rewrite <- (take_drop (length (window a ++ context) - 50) (window a ++ context)).
      rewrite elem_of_app. right. exact Hin.
    + rewrite Hout; [tauto | | exact Hc].
      intros Hin. apply Hp.
      rewrite <- (take_drop (length (window a ++ context) - 50) (window a ++ context)).
      rewrite elem_of_app. left. exact Hin.
  - destruct H as (Hw & Hout & _). split.
    + rewrite Hw. exact Hp.
    + rewrite Hout by exact Hc. tauto.
Qed.

Ltac frame_step :=
  lazymatch goal with
  | |- stable _ (generateEmbedding _ _) => apply stable_generateEmbedding
  | |- stable _ (assign _) => apply stable_assign
  | _ => stable_step
  end.

Lemma keeps_adaptSelfModel env k result : stable (keeps k) (adaptSelfModel env result).
Proof.
  unfold adaptSelfModel, evolveTraitsFromFailure.
  repeat frame_step; apply keeps_same_memory; auto.
Qed.

Lemma keeps_perform env k c w a :
  k ∉ context_of c -> keeps k a (snd (perform env c w a)).
Proof.
  assert (He : forall k' v a, keeps k a (with_ragMemory (set_embedding k' v) a)).
  { intros. apply keeps_same_memory; [reflexivity|]. simpl. apply get_set_is_Some. }
  assert (Hg : forall k' v a, keeps k a (with_ragMemory (set_semanticGraph k' v) a)).
  { intros. apply keeps_same_memory; auto. }
  assert (Hs : forall f a, keeps k a (with_spawnedRepos f a)).
  { intros. apply keeps_same_memory; auto. }
  assert (Ho : forall f a, keeps k a (with_oodaLoop f a)).
  { intros. apply keeps_same_memory; auto. }
  assert (Ht : forall f a, (forall t, adaptationRate (f t) = adaptationRate t) ->
                           keeps k a (with_traits f a)).
  { intros. apply keeps_same_memory; auto. }
  intros Hc. destruct c as [intent context|request|query maxResults| |];
    unfold perform, context_of in *.
  - rewrite processIntent_phases.
    revert w a. change (stable (keeps k)
      (result ← observe_to_act env intent context;
       adaptations ← adaptSelfModel env result;
       mret {| result_response := response result;
               spawned := result_spawnedRepos result;
               result_memoryUpdates := memoryUpdates result;
               adaptations := adaptations |})).
    repeat lazymatch goal with
           | |- stable _ (adaptSelfModel _ _) => apply keeps_adaptSelfModel
           | |- stable _ (observe_to_act _ _ _) => apply stable_observe_to_act
           | |- stable _ (orientCognitiveModel _ _ _) => apply keeps_orient, Hc
           | |- keeps _ _ _ => auto
           | _ => frame_step
           end.
  - apply (stable_spawnRepository env (keeps k)); auto.
  - apply (stable_retrieveFromRAG env (keeps k)); auto.
  - apply (stable_performSelfModification (keeps k)); auto.
  - apply (stable_getPersonaState (keeps k)); auto.
Qed.

Lemma keeps_perform_all env k cs w a :
  (forall c, c ∈ cs -> k ∉ context_of c) ->
  keeps k a (snd (perform_all env cs w a)).
Proof.
  revert w a. induction cs as [|c cs IH]; intros w a Hcs; simpl.
  - reflexivity.
  - pose proof (keeps_perform env k c w a) as H1.
    destruct (perform env c w a) as [w' a']. simpl in H1.
    etransitivity; [apply H1; apply Hcs; left|apply IH].
    intros c' Hc'. apply Hcs. right. exact Hc'.
Qed.

(** A request below the recursion limit is spawned: the call returns, the
    request is registered under the new id, and two embeddings are stored,
    under ["repo:<id>"] and ["self-model:spawn:<id>"], while the context window
    is left as it was. *)
Lemma spawnRepository_returns env request w a :
  recursionLevel request < recursionDepth (traits a) ->
  exists result w' a',
    spawnRepository env request w a = (inr result, (w', a'))
    /\ repoId result =
         ("repo_" +:+ string_of_N (Date_now env (ticks w)) +:+ "_"
          +:+ random_suffix env (Math_random env (draws w)))%string
    /\ artifact_id (boltArtifact result) = repoId result
    /\ extension_repoId (ragExtension result) = repoId result
    /\ JSMap.get (spawnedRepos a') (repoId result) = Some request
    /\ is_Some (embedding a' ("repo:" +:+ repoId result))
    /\ is_Some (embedding a' ("self-model:spawn:" +:+ repoId result))
    /\ JSMap.get (semanticGraph (ragMemory a')) (repoId result) = Some [intent request]
    /\ window a' = window a
    /\ traits a' = traits a
    /\ quantumField a' = quantumField a.
Proof.
  intros Hlevel.
  unfold spawnRepository, mbind, M_bind, bind, this. cbv beta iota.
  destruct (Z.leb_spec (recursionDepth (traits a)) (recursionLevel request)); [lia|].
  unfold now at 1, random at 1. cbv beta iota.
  unfold createBoltArtifact, generatePackageJson, mbind, M_bind, bind, now at 1.
  cbv beta iota. unfold mret at 1 2, M_ret at 1 2, ret at 1 2. cbv beta iota.
  unfold createRAGExtension, updateSelfModelFromSpawning, mbind, M_bind, bind.
  rewrite !generateEmbedding_returns. cbv beta iota.
  unfold assign, mret, M_ret, ret. cbv beta iota.
  rewrite !generateEmbedding_returns. cbv beta iota.
  eexists _, _, _. split; [reflexivity|].
  cbn [repoId boltArtifact ragExtension artifact_id extension_repoId spawnedRepos
       with_spawnedRepos with_ragMemory ragMemory embeddings set_embedding
       set_semanticGraph semanticGraph contextWindow traits quantumField ticks draws].
  repeat split.
  - apply get_set_eq.
  - apply get_set_is_Some. rewrite get_set_eq. eauto.
  - rewrite get_set_eq. eauto.
  - apply get_set_eq.
Qed.

(** A non-empty response is remembered under ["execution:<now>"]; the context
    window is left as it was. *)
Lemma updateRAGMemory_returns env response w a :
  response <> ""%string ->
  exists w' a',
    updateRAGMemory env response w a = (inr (mkMemoryUpdates 1 0 0), (w', a'))
    /\ is_Some (embedding a' ("execution:" +:+ string_of_N (Date_now env (ticks w))))
    /\ window a' = window a.
Proof.
  intros Hne. unfold updateRAGMemory.
  destruct (String.eqb_spec response ""); [contradiction|].
  unfold mbind, M_bind, bind. rewrite generateEmbedding_returns.
  unfold now, assign, mret, M_ret, ret. cbv beta iota.
  eexists _, _. split; [reflexivity|].
  cbn [with_ragMemory ragMemory embeddings set_embedding contextWindow drawn ticks].
  split; [rewrite get_set_eq; eauto | reflexivity].
Qed.

(** C10. Eviction in the Orient phase removes an embedding only under a key it
    has just dropped from the context window.  A key that is not in the window
    and is not handed in as a context string is never put into the window by
    any call, and once it holds an embedding it holds one after any sequence of
    calls of the public interface, whether they return or throw.  The keys
    ["execution:..."], ["repo:..."] and ["self-model:spawn:..."] are written by
    [updateRAGMemory] and [spawnRepository], which leave the window alone. *)
Theorem embeddings_outside_window_persist (env : Env) (w : World) (a : Agent) :
  (forall cognitiveIntent context k,
     let a' := snd (snd (orientCognitiveModel env cognitiveIntent context w a)) in
     let pushed := window a ++ context in
     (is_Some (embedding a k) \/ k ∈ context) ->
     embedding a' k = None ->
     (100 < length pushed)%nat /\ k ∈ take (length pushed - 50) pushed)
  /\ (forall calls k,
        k ∉ window a ->
        (forall c, c ∈ calls -> k ∉ context_of c) ->
        let a' := snd (perform_all env calls w a) in
        (k ∉ window a') /\ (is_Some (embedding a k) -> is_Some (embedding a' k)))
  /\ (forall response,
        response <> ""%string ->
        exists w' a',
          updateRAGMemory env response w a = (inr (mkMemoryUpdates 1 0 0), (w', a'))
          /\ is_Some (embedding a' ("execution:" +:+ string_of_N (Date_now env (ticks w))))
          /\ window a' = window a)
  /\ (forall request,
        recursionLevel request < recursionDepth (traits a) ->
        exists result w' a',
          spawnRepository env request w a = (inr result, (w', a'))
          /\ is_Some (embedding a' ("repo:" +:+ repoId result))
          /\ is_Some (embedding a' ("self-model:spawn:" +:+ repoId result))
          /\ window a' = window a).
Proof.
  split; [|split; [|split]].
  - intros cognitiveIntent context k a' pushed Hk Hnone. subst a' pushed.
    destruct (orientCognitiveModel_spec env cognitiveIntent context w a)
      as (w' & a' & E & H & _). rewrite E in *. simpl in *. cbv zeta in H.
    destruct (Nat.ltb_spec 100 (length (window a ++ context))) as [Hlt|Hle].
    + destruct H as (Hw & Hin & Hout & Hnew).
      destruct (base.decide (k ∈ take (length (window a ++ context) - 50)
                                      (window a ++ context))) as [Ht|Ht].
      * split; assumption.
      * exfalso. destruct (base.decide (k ∈ context)) as [Hc|Hc].
        -- destruct (Hnew k Ht Hc) as [v Hv]. congruence.
        -- destruct Hk as [[v Hv]|Hk]; [|contradiction].
           rewrite (Hout k Ht Hc) in Hnone. congruence.
    + exfalso. destruct H as (Hw & Hout & Hnew).
      destruct (base.decide (k ∈ context)) as [Hc|Hc].
      * destruct (Hnew k Hc) as [v Hv]. congruence.
      * destruct Hk as [[v Hv]|Hk]; [|contradiction].
        rewrite (Hout k Hc) in Hnone. congruence.
  - intros calls k Hk Hcalls. apply (keeps_perform_all env k calls w a); assumption.
  - intros response Hne. apply updateRAGMemory_returns, Hne.
  - intros request Hlevel.
    destruct (spawnRepository_returns env request w a Hlevel)
      as (result & w' & a' & E & _ & _ & _ & _ & H1 & H2 & _ & Hw & _).
    exists result, w', a'. repeat split; assumption.
Qed.

End MemoryFacts.

(** ** The Adapt phase and the traits *)

Module AdaptationFacts.
Import JS Runtime PersonaAgent Hoare MemoryFacts.

(** The traits are as they were. *)
Definition same_traits (a a' : Agent) : Prop := traits a' = traits a.

#[local] Instance same_traits_preorder : PreOrder same_traits.
Proof.
  split.
  - intros a. reflexivity.
  - intros a b c Hab Hbc. unfold same_traits in *. congruence.
Qed.

(** The adaptation rate is as it was. *)
Definition same_rate (a a' : Agent) : Prop :=
  adaptationRate (traits a') = adaptationRate (traits a).

#[local] Instance same_rate_preorder : PreOrder same_rate.
Proof.
  split.
  - intros a. reflexivity.
  - intros a b c Hab Hbc. unfold same_rate in *. congruence.
Qed.

Lemma traits_observe_to_act env intent context :
  stable same_traits (observe_to_act env intent context).
Proof.
  apply stable_observe_to_act; try typeclasses eauto; try (intros; reflexivity).
  intros cognitiveIntent w a.
  destruct (orientCognitiveModel_spec env cognitiveIntent context w a)
    as (w' & a' & -> & _ & Ht & _). exact Ht.
Qed.

Lemma success_exceeds_threshold result :
  js_gt (overallSuccess (analyzeResultSuccess result)) (js_decimal 8 1) = true.
Proof. vm_compute. reflexivity. Qed.

Lemma adaptSelfModel_returns env result w a :
  exists adaptations w',
    adaptSelfModel env result w a =
      (inr adaptations,
       (w', with_traits (fun t =>
              set_adaptationRate (js_mul (adaptationRate t) (js_decimal 11 1)) t) a)).
Proof.
  unfold adaptSelfModel, mbind, M_bind, bind, now. cbv beta iota.
  rewrite success_exceeds_threshold. unfold assign, mret, M_ret, ret.
  eexists _, _. reflexivity.
Qed.

Lemma rate_perform env c w a :
  (forall intent context, c <> CallProcessIntent intent context) ->
  same_rate a (snd (perform env c w a)).
Proof.
  intros Hc. destruct c as [intent context|request|query maxResults| |]; unfold perform.
  - exfalso. exact (Hc intent context eq_refl).
  - apply (stable_spawnRepository env same_rate); intros; reflexivity.
  - apply (stable_retrieveFromRAG env same_rate); intros; reflexivity.
  - apply (stable_performSelfModification same_rate). intros f a0 Hf. apply Hf.
  - apply (stable_getPersonaState same_rate).
Qed.

(** C9, as the code has it. A call of [processIntent] that returns has
    multiplied [traits.adaptationRate] by 1.1, once, and left the other traits
    alone (the success measure of the Adapt phase is the constant 0.85, so the
    1.2 branch is never taken); a call that throws leaves the traits as they
    were, and no other call of the public interface changes the rate.  The new
    rate is strictly larger than the old one whenever the old one is a positive
    normal double (the product may be [Infinity]). *)
Theorem processIntent_adaptationRate (env : Env) (intent : string)
    (context : list string) (w : World) (a : Agent) :
  (forall result w' a',
     processIntent env intent context w a = (inr result, (w', a')) ->
     traits a' =
       set_adaptationRate (js_mul (adaptationRate (traits a)) (js_decimal 11 1))
                          (traits a)
     /\ (is_positive_normal (adaptationRate (traits a)) = true ->
         js_gt (adaptationRate (traits a')) (adaptationRate (traits a)) = true))
  /\ (forall e w' a',
        processIntent env intent context w a = (inl e, (w', a')) ->
        traits a' = traits a)
  /\ (forall c,
        (forall intent context, c <> CallProcessIntent intent context) ->
        adaptationRate (traits (snd (perform env c w a))) = adaptationRate (traits a)).
Proof.
  assert (Hphase : forall out,
            processIntent env intent context w a = out ->
            match out with
            | (inr _, (_, a')) =>
                traits a' =
                  set_adaptationRate
                    (js_mul (adaptationRate (traits a)) (js_decimal 11 1)) (traits a)
            | (inl _, (_, a')) => traits a' = traits a
            end).
  { intros out <-. rewrite processIntent_phases. unfold mbind, M_bind, bind.
    pose proof (traits_observe_to_act env intent context w a) as Ht.
    destruct (observe_to_act env intent context w a) as [[e|result] [w1 a1]];
      unfold same_traits in Ht; simpl in Ht; [exact Ht|].
    destruct (adaptSelfModel_returns env result w1 a1) as (adaptations & w2 & ->).
    unfold mret, M_ret, ret. cbn [traits with_traits]. rewrite Ht. reflexivity. }
  split; [|split].
  - intros result w' a' E. specialize (Hphase _ E). cbv beta iota in Hphase.
    split; [exact Hphase|]. intros Hn. rewrite Hphase. cbn [adaptationRate set_adaptationRate].
    apply FloatFacts.mul_1_1_increases, Hn.
  - intros e w' a' E. exact (Hphase _ E).
  - intros c Hc. apply rate_perform, Hc.
Qed.

(** C9 at the configured rate 0.1: one call of [processIntent] on an agent of
    the repository's traits returns with a larger rate. *)
Lemma processIntent_adaptationRate_witness :
  match processIntent Examples.example_env "hello" [] empty_world
                      (Examples.bare_agent Examples.example_traits) with
  | (inr _, (_, a')) =>
      js_gt (adaptationRate (traits a')) (adaptationRate Examples.example_traits) = true
  | (inl _, _) => False
  end.
Proof.
  destruct (processIntent Examples.example_env "hello" [] empty_world
              (Examples.bare_agent Examples.example_traits))
    as [[e|result] [w' a']] eqn:E.
  - vm_compute in E. discriminate.
  - apply (proj1 (processIntent_adaptationRate Examples.example_env "hello" []
                    empty_world (Examples.bare_agent Examples.example_traits))
             result w' a' E).
    reflexivity.
Defined.

(** C9 as stated fails: an agent whose rate is 0 completes a call of
    [processIntent] with its rate still 0. *)
Lemma processIntent_keeps_zero_rate :
  match processIntent Examples.example_env "hello" [] empty_world
          (Examples.bare_agent (set_adaptationRate (js_of_Z 0) Examples.example_traits)) with
  | (inr _, (_, a')) =>
      adaptationRate (traits a') = js_of_Z 0 /\
      js_gt (adaptationRate (traits a')) (js_of_Z 0) = false
  | (inl _, _) => False
  end.
Proof. vm_compute. split; reflexivity. Qed.

End AdaptationFacts.

(** ** Similarity search *)

Module RetrievalFacts.
Import JS Runtime PersonaAgent Hoare MemoryFacts FloatFacts Examples.

Definition zero_or_NaN (x : number) : bool := is_zero x || is_NaN x.

Lemma mul_zero_l x y : is_zero x = true -> zero_or_NaN (js_mul x y) = true.
Proof. destruct x; try discriminate. destruct y as [| | |[|]]; intros _; reflexivity. Qed.

Lemma mul_zero_or_NaN_r x y : zero_or_NaN y = true -> zero_or_NaN (js_mul x y) = true.
Proof.
  destruct y; try discriminate; intros _; destruct x as [| | |[|]]; reflexivity.
Qed.

Lemma mul_zero_or_NaN_l x y : zero_or_NaN x = true -> zero_or_NaN (js_mul x y) = true.
Proof.
  destruct x; try discriminate; intros _; destruct y as [| | |[|]]; reflexivity.
Qed.

Lemma add_zero_or_NaN x y :
  zero_or_NaN x = true -> zero_or_NaN y = true -> zero_or_NaN (js_add x y) = true.
Proof.
  destruct x as [[|]| | |]; try discriminate; destruct y as [[|]| | |];
    try discriminate; intros _ _; reflexivity.
Qed.

Lemma sqrt_zero_or_NaN x : zero_or_NaN x = true -> zero_or_NaN (Math_sqrt x) = true.
Proof. destruct x; try discriminate; intros _; reflexivity. Qed.

Lemma div_zero_or_NaN x y :
  zero_or_NaN x = true -> zero_or_NaN y = true -> js_div x y = NaN.
Proof. destruct x; try discriminate; destruct y; try discriminate; reflexivity. Qed.

Lemma forallb_is_zero_tail (b : Float32Vector) :
  forallb is_zero b = true -> forallb is_zero (tail b) = true.
Proof. destruct b as [|y b]; simpl; [tauto|]. rewrite andb_true_iff. tauto. Qed.

(** The loop over a zero vector [a]: the dot product stays zero or [NaN]. *)
Lemma cosine_loop_zero_l (a b : Float32Vector) dot normA normB :
  forallb is_zero a = true ->
  zero_or_NaN dot = true -> zero_or_NaN normA = true ->
  let '(dot', normA', _) := cosine_loop a b (dot, normA, normB) in
  zero_or_NaN dot' = true /\ zero_or_NaN normA' = true.
Proof.
  revert b dot normA normB. induction a as [|x a IH]; intros b dot normA normB Ha Hd Hn.
  - simpl. split; assumption.
  - simpl in Ha. apply andb_true_iff in Ha as [Hx Ha]. cbn [cosine_loop].
    apply IH; [exact Ha | |].
    + apply add_zero_or_NaN; [exact Hd | apply mul_zero_l, Hx].
    + apply add_zero_or_NaN; [exact Hn | apply mul_zero_l, Hx].
Qed.

(** The loop against a zero vector [b]: past the end of [b] the loop reads
    [undefined], so each factor taken from [b] is zero or [NaN]. *)
Lemma cosine_loop_zero_r (a b : Float32Vector) dot normA normB :
  forallb is_zero b = true ->
  zero_or_NaN dot = true -> zero_or_NaN normB = true ->
  let '(dot', _, normB') := cosine_loop a b (dot, normA, normB) in
  zero_or_NaN dot' = true /\ zero_or_NaN normB' = true.
Proof.
  revert b dot normA normB. induction a as [|x a IH]; intros b dot normA normB Hb Hd Hn.
  - simpl. split; assumption.
  - cbn [cosine_loop].
    assert (Hy : zero_or_NaN (match b with [] => NaN | y :: _ => y end) = true).
    { destruct b as [|y b]; [reflexivity|]. simpl in Hb.
      apply andb_true_iff in Hb as [Hy _]. unfold zero_or_NaN. rewrite Hy. reflexivity. }
    apply IH; [apply forallb_is_zero_tail, Hb | |].
    + apply add_zero_or_NaN; [exact Hd | apply mul_zero_or_NaN_r, Hy].
    + apply add_zero_or_NaN; [exact Hn | apply mul_zero_or_NaN_r, Hy].
Qed.

Lemma cosineSimilarity_zero (a b : Float32Vector) :
  forallb is_zero a = true \/ forallb is_zero b = true ->
  cosineSimilarity a b = NaN.
Proof.
  intros H. unfold cosineSimilarity.
  destruct H as [Ha|Hb].
  - pose proof (cosine_loop_zero_l a b (js_of_Z 0) (js_of_Z 0) (js_of_Z 0) Ha
                  eq_refl eq_refl) as H.
    destruct (cosine_loop a b _) as [[dot normA] normB]. destruct H as [Hd Hn].
    apply div_zero_or_NaN; [exact Hd|].
    apply mul_zero_or_NaN_l, sqrt_zero_or_NaN, Hn.
  - pose proof (cosine_loop_zero_r a b (js_of_Z 0) (js_of_Z 0) (js_of_Z 0) Hb
                  eq_refl eq_refl) as H.
    destruct (cosine_loop a b _) as [[dot normA] normB]. destruct H as [Hd Hn].
    apply div_zero_or_NaN; [exact Hd|].
    apply mul_zero_or_NaN_r, sqrt_zero_or_NaN, Hn.
Qed.

Lemma NaN_exceeds_nothing threshold : js_gt NaN threshold = false.
Proof. destruct threshold; reflexivity. Qed.

Lemma js_of_Z_0 : js_of_Z 0 = S754_zero false.
Proof. reflexivity. Qed.

(** A canonical double other than [NaN]. *)
Definition ordered (x : number) : Prop :=
  valid_binary prec emax x = true /\ x <> NaN.

Lemma js_gt_ordered x t : valid_binary prec emax x = true -> js_gt x t = true -> ordered x.
Proof.
  intros Hv H. split; [exact Hv|]. intros ->. unfold js_gt, SFltb in H.
  destruct t; discriminate.
Qed.

Lemma js_ge_ord x y : ordered x -> ordered y -> js_ge x y = (ord y <=? ord x).
Proof.
  intros [Vx Nx] [Vy Ny]. unfold js_ge, SFleb. rewrite (SFcompare_ord y x) by assumption.
  destruct (Z.compare_spec (ord y) (ord x)); symmetry;
    first [apply Z.leb_le; lia | apply Z.leb_gt; lia].
Qed.

Lemma subtract_comparator x y :
  ordered x -> ordered y -> js_gt (js_sub y x) (js_of_Z 0) = (ord x <? ord y).
Proof. intros [Vx Nx] [Vy Ny]. apply sub_positive; assumption. Qed.

Section Sorting.
Context {A : Type} (comparefn : A -> A -> number) (key : A -> Z) (good : A -> Prop).
Hypothesis comparefn_key :
  forall x y, good x -> good y -> js_gt (comparefn x y) (js_of_Z 0) = (key x <? key y).

Lemma sort_insert_perm (x : A) (l : list A) : sort_insert comparefn x l ≡ₚ x :: l.
Proof.
  induction l as [|y l IH]; [reflexivity|]. cbn [sort_insert].
  destruct (js_gt _ _); [|reflexivity].
  rewrite IH. apply Permutation_swap.
Qed.

Lemma Array_sort_perm (l : list A) : Array_sort comparefn l ≡ₚ l.
Proof.
  induction l as [|x l IH]; [reflexivity|].
  unfold Array_sort in *. cbn [foldr]. rewrite sort_insert_perm, IH. reflexivity.
Qed.

Local Abbreviation above := (fun x y : A => key y <= key x).

Lemma sort_insert_sorted (x : A) (l : list A) :
  good x -> Forall good l -> StronglySorted above l ->
  StronglySorted above (sort_insert comparefn x l).
Proof.
  intros Hx Hl Hs. induction Hs as [|y l Hs IH Hy]; cbn [sort_insert].
  - repeat constructor.
  - apply Forall_cons in Hl as [Gy Gl]. rewrite comparefn_key by assumption.
    destruct (Z.ltb_spec (key x) (key y)) as [Hlt|Hge].
    + constructor; [apply IH, Gl|].
      rewrite sort_insert_perm. constructor; [lia | exact Hy].
    + constructor; [constructor; assumption|].
      constructor; [exact Hge|]. eapply Forall_impl; [exact Hy|]. cbn. intros; lia.
Qed.

Lemma Array_sort_sorted (l : list A) :
  Forall good l -> StronglySorted above (Array_sort comparefn l).
Proof.
  induction l as [|x l IH]; intros Hl; [constructor|].
  apply Forall_cons in Hl as [Gx Gl]. unfold Array_sort in *. cbn [foldr].
  apply sort_insert_sorted; [exact Gx | | apply IH, Gl].
  change (foldr (sort_insert comparefn) [] l) with (Array_sort comparefn l).
  rewrite Array_sort_perm. exact Gl.
Qed.

Lemma sorted_lookup (l : list A) (i j : nat) (x y : A) :
  StronglySorted above l -> (i < j)%nat -> l !! i = Some x -> l !! j = Some y ->
  key y <= key x.
Proof.
  intros Hs. revert i j. induction Hs as [|z l Hs IH Hz]; intros i j Hij Hi Hj.
  - discriminate.
  - destruct j as [|j]; [lia|]. destruct i as [|i].
    + injection Hi as ->. cbn in Hj. rewrite Forall_forall in Hz.
      apply Hz. eapply list_elem_of_lookup_2, Hj.
    + cbn in Hi, Hj. eapply IH; [|exact Hi|exact Hj]. lia.
Qed.

End Sorting.

Lemma slice_to_prefix {A} (l : list A) (end_ : Z) : slice_to l end_ `prefix_of` l.
Proof. unfold slice_to. destruct (end_ <? 0); apply prefix_take. Qed.

Lemma slice_to_length {A} (l : list A) (end_ : Z) :
  0 <= end_ -> Z.of_nat (length (slice_to l end_)) <= end_.
Proof.
  intros H. unfold slice_to. destruct (Z.ltb_spec end_ 0); [lia|].
  rewrite length_take. lia.
Qed.

(** What the loop of [retrieveFromRAG] collects from one entry. *)
Definition candidate (a : Agent) (queryEmbedding : Float32Vector)
    (entry : string * Float32Vector) : list RetrievalResult :=
  let '(key, embedding) := entry in
  let similarity := cosineSimilarity queryEmbedding embedding in
  if js_gt similarity (retrievalThreshold (ragMemory a))
  then [{| retrieved_content := key; relevance := similarity;
           source := getEmbeddingSource key |}]
  else [].

Definition candidates (a : Agent) (queryEmbedding : Float32Vector) : list RetrievalResult :=
  List.flat_map (candidate a queryEmbedding) (JSMap.entries (embeddings (ragMemory a))).

Lemma retrieveFromRAG_returns env query maxResults w a :
  retrieveFromRAG env query maxResults w a =
  (inr (slice_to (Array_sort (fun a b => js_sub (relevance b) (relevance a))
                    (candidates a (embedding_from env (draws w)))) maxResults,
        embedding_from env (draws w)),
   (drawn 384 w, a)).
Proof.
  unfold retrieveFromRAG. unfold mbind at 1, M_bind, bind.
  rewrite generateEmbedding_returns. reflexivity.
Qed.

Lemma cosineSimilarity_valid u v : valid_binary prec emax (cosineSimilarity u v) = true.
Proof.
  unfold cosineSimilarity. destruct (cosine_loop u v _) as [[d na] nb]. apply SFdiv_valid.
Qed.

Lemma candidates_spec a q r :
  r ∈ candidates a q ->
  exists key embedding,
    (key, embedding) ∈ JSMap.entries (embeddings (ragMemory a)) /\
    r = {| retrieved_content := key; relevance := cosineSimilarity q embedding;
           source := getEmbeddingSource key |} /\
    js_gt (cosineSimilarity q embedding) (retrievalThreshold (ragMemory a)) = true.
Proof.
  unfold candidates. rewrite list_elem_of_In, in_flat_map.
  intros ([key embedding] & Hin & Hr). exists key, embedding.
  apply list_elem_of_In in Hin. cbn [candidate] in Hr.
  destruct (js_gt _ _) eqn:E; [|destruct Hr].
  destruct Hr as [<-|[]]. auto.
Qed.

Lemma retrieved_spec a q maxResults r :
  r ∈ slice_to (Array_sort (fun a b => js_sub (relevance b) (relevance a))
                  (candidates a q)) maxResults ->
  r ∈ candidates a q.
Proof.
  intros H. eapply elem_of_prefix in H; [|apply slice_to_prefix].
  rewrite Array_sort_perm in H. exact H.
Qed.

Lemma retrieved_relevance_ordered a q r :
  r ∈ candidates a q -> ordered (relevance r).
Proof.
  intros H. apply candidates_spec in H as (key & embedding & _ & -> & Hgt).
  cbn [relevance]. eapply js_gt_ordered; [apply cosineSimilarity_valid | exact Hgt].
Qed.

(** C6.  [retrieveFromRAG] always returns; every entry it returns has a
    similarity strictly greater than the configured threshold, the entries
    come in descending order of similarity, and there are at most
    [maxResults] of them, [maxResults] being a count, 0 or more. *)
Theorem retrieveFromRAG_bounded_sorted env query maxResults w a :
  exists results queryEmbedding w',
    retrieveFromRAG env query maxResults w a = (inr (results, queryEmbedding), (w', a)) /\
    (0 <= maxResults -> Z.of_nat (length results) <= maxResults) /\
    Forall (fun r => js_gt (relevance r) (retrievalThreshold (ragMemory a)) = true) results /\
    (forall i j x y, (i < j)%nat -> results !! i = Some x -> results !! j = Some y ->
       js_ge (relevance x) (relevance y) = true).
Proof.
  rewrite retrieveFromRAG_returns. eexists _, _, _. split; [reflexivity|].
  set (q := embedding_from env (draws w)).
  set (comparefn := fun a b : RetrievalResult => js_sub (relevance b) (relevance a)).
  split; [|split].
  - apply slice_to_length.
  - apply Forall_forall. intros r Hr. apply retrieved_spec in Hr.
    apply candidates_spec in Hr as (key & embedding & _ & -> & Hgt). exact Hgt.
  - intros i j x y Hij Hx Hy.
    assert (Hgood : Forall (fun r => ordered (relevance r)) (candidates a q)).
    { apply Forall_forall. intros r. apply retrieved_relevance_ordered. }
    assert (Hsorted := Array_sort_sorted comparefn (fun r => ord (relevance r))
                         (fun r => ordered (relevance r))
                         (fun x y Gx Gy => subtract_comparator _ _ Gx Gy) _ Hgood).
    destruct (slice_to_prefix (Array_sort comparefn (candidates a q)) maxResults) as [rest Hrest].
    assert (Hx' : Array_sort comparefn (candidates a q) !! i = Some x)
      by (rewrite Hrest; apply lookup_app_l_Some, Hx).
    assert (Hy' : Array_sort comparefn (candidates a q) !! j = Some y)
      by (rewrite Hrest; apply lookup_app_l_Some, Hy).
    pose proof (sorted_lookup _ _ _ _ _ _ Hsorted Hij Hx' Hy') as Hle.
    assert (Gx : ordered (relevance x)).
    { eapply (proj1 (Forall_forall _ _) Hgood). rewrite <- (Array_sort_perm comparefn).
      eapply list_elem_of_lookup_2, Hx'. }
    assert (Gy : ordered (relevance y)).
    { eapply (proj1 (Forall_forall _ _) Hgood). rewrite <- (Array_sort_perm comparefn).
      eapply list_elem_of_lookup_2, Hy'. }
    rewrite js_ge_ord by assumption. apply Z.leb_le. exact Hle.
Qed.

(** The bound of C6 at [maxResults = 1], on a memory of two entries. *)
Lemma retrieveFromRAG_bounded_sorted_witness :
  exists results queryEmbedding w',
    retrieveFromRAG example_env "query" 1 empty_world (remembering ["first"; "second"])
      = (inr (results, queryEmbedding), (w', remembering ["first"; "second"])) /\
    Z.of_nat (length results) <= 1.
Proof.
  destruct (retrieveFromRAG_bounded_sorted example_env "query" 1 empty_world
              (remembering ["first"; "second"])) as (results & q & w' & E & Hlen & _).
  exists results, q, w'. split; [exact E | apply Hlen; lia].
Defined.


Lemma forallb_is_zero_similarity u v t :
  js_gt (cosineSimilarity u v) t = true ->
  forallb is_zero u = false /\ forallb is_zero v = false.
Proof.
  intros H. split.
  - destruct (forallb is_zero u) eqn:E; [|reflexivity].
    rewrite cosineSimilarity_zero, NaN_exceeds_nothing in H by (left; exact E). discriminate.
  - destruct (forallb is_zero v) eqn:E; [|reflexivity].
    rewrite cosineSimilarity_zero, NaN_exceeds_nothing in H by (right; exact E). discriminate.
Qed.

(** C4, as amended.  The similarity of a pair of vectors of which one is all
    zeros is [NaN] (the division [0 / 0] is not guarded), and [NaN] exceeds no
    threshold; so every entry [retrieveFromRAG] returns has a stored embedding
    that is not all zeros, and was compared with a query embedding that is
    not all zeros. *)
Theorem cosineSimilarity_zero_vector env query maxResults w a :
  (forall u v threshold,
     forallb is_zero u = true \/ forallb is_zero v = true ->
     cosineSimilarity u v = NaN /\ js_gt (cosineSimilarity u v) threshold = false) /\
  exists results queryEmbedding w',
    retrieveFromRAG env query maxResults w a = (inr (results, queryEmbedding), (w', a)) /\
    Forall (fun r =>
              exists embedding,
                (retrieved_content r, embedding) ∈ JSMap.entries (embeddings (ragMemory a)) /\
                relevance r = cosineSimilarity queryEmbedding embedding /\
                forallb is_zero embedding = false /\
                forallb is_zero queryEmbedding = false) results.
Proof.
  split.
  - intros u v threshold H. rewrite (cosineSimilarity_zero u v H).
    split; [reflexivity | apply NaN_exceeds_nothing].
  - rewrite retrieveFromRAG_returns. eexists _, _, _. split; [reflexivity|].
    apply Forall_forall. intros r Hr. apply retrieved_spec in Hr.
    apply candidates_spec in Hr as (key & embedding & Hin & -> & Hgt).
    exists embedding. cbn [retrieved_content relevance].
    apply forallb_is_zero_similarity in Hgt as [Hq He]. auto.
Qed.

(** C4 at the zero vector of length two, against (3, 4) and the default
    threshold 0.7. *)
Lemma cosineSimilarity_zero_vector_witness :
  cosineSimilarity [js_of_Z 0; js_of_Z 0] [js_of_Z 3; js_of_Z 4] = NaN /\
  js_gt (cosineSimilarity [js_of_Z 0; js_of_Z 0] [js_of_Z 3; js_of_Z 4]) (js_decimal 7 1) = false.
Proof.
  apply (proj1 (cosineSimilarity_zero_vector example_env "" 5 empty_world
                  (bare_agent example_traits))).
  left. reflexivity.
Defined.

(** C4 as stated fails: the similarity of (0, 0) and (3, 4) is [NaN], not 0. *)
Lemma cosineSimilarity_zero_vector_is_NaN :
  cosineSimilarity [js_of_Z 0; js_of_Z 0] [js_of_Z 3; js_of_Z 4] = NaN /\
  is_zero (cosineSimilarity [js_of_Z 0; js_of_Z 0] [js_of_Z 3; js_of_Z 4]) = false.
Proof. split; vm_compute; reflexivity. Qed.

End RetrievalFacts.

(** ** Remounting: the frame of [remount] and the round trip through 8 bits *)

Module RemountFacts.
Import JS Runtime N9ml Examples FloatFacts.
Local Abbreviation fexp := (SpecFloat.fexp prec emax).

Lemma length_append (s1 s2 : string) :
  String.length (s1 +:+ s2) = (String.length s1 + String.length s2)%nat.
Proof. induction s1 as [|c s1 IH]; simpl; [reflexivity | rewrite IH; reflexivity]. Qed.

Lemma reinterpreted_id_differs (id : string) (t : N) :
  "reinterpreted_" +:+ id +:+ "_" +:+ string_of_N t <> id.
Proof.
  intros H. apply (f_equal String.length) in H.
  rewrite !length_append in H. simpl in H. lia.
Qed.

(** The heap after a step keeps every typed array and plain array it held. *)
Definition extends (w w' : World) : Prop :=
  (forall l a, buffers w !! l = Some a -> buffers w' !! l = Some a) /\
  arrays w' = arrays w.

Lemma reinterpretTensor_returns env src newArch newQuant newPath w f original :
  buffers w !! data src = Some original ->
  exists t w',
    reinterpretTensor env src newArch newQuant newPath w f = (inr t, (w', f)) /\
    shape t = shape src /\
    tensor_id t = "reinterpreted_" +:+ tensor_id src +:+ "_" +:+ string_of_N (Date_now env (ticks w)) /\
    architecture t = newArch /\ quantization t = newQuant /\
    data t = fresh (dom (buffers w)) /\
    (exists a, buffers w' !! data t = Some a /\ length (elems a) = length (elems original)) /\
    extends w w'.
Proof.
  intros Hlive. unfold reinterpretTensor.
  unfold mbind at 1, M_bind, bind. unfold buffer_of at 1. rewrite Hlive.
  assert (Hfresh : buffers w !! fresh (dom (buffers w)) = None).
  { apply not_elem_of_dom. apply is_fresh. }
  assert (Hext : forall a, extends w (mkWorld (<[fresh (dom (buffers w)) := a]> (buffers w))
                                       (arrays w) (S (ticks w)) (draws w))).
  { intros a. split; [|reflexivity]. intros l b Hl. cbn [buffers].
    rewrite lookup_insert_ne; [exact Hl|]. intros <-. rewrite Hfresh in Hl. discriminate. }
  destruct (Bits_eqb (bits newQuant) bits32 && negb (DType_eqb (dtype src) float32));
    [|destruct (Bits_eqb (bits newQuant) bits16 && negb (DType_eqb (dtype src) uint16));
      [destruct (DType_eqb (dtype src) float32)
      |destruct (Bits_eqb (bits newQuant) bits8 && negb (DType_eqb (dtype src) uint8));
        [destruct (DType_eqb (dtype src) float32)|]]];
    (eexists _, _; split; [reflexivity|]; cbn [shape tensor_id architecture quantization data];
     repeat split; try reflexivity; try apply Hext;
     eexists; split; [cbn [buffers]; apply lookup_insert_eq|];
     cbn [elems]; rewrite ?length_map; reflexivity).
Qed.

(** C7. With the source tensor's typed array in the heap, [remount] fails with
    [InvalidPathError] before touching anything when the path does not parse;
    otherwise it returns a tensor registered under the new path that carries
    the source's shape, has an id other than the source's, and refers to a
    typed array the call has allocated: its place held nothing before the
    call, differs from the source's, and holds after the call an array of as
    many elements as the source's; every typed array and plain array that
    existed before the call, the source tensor's among them, is as it was.
    (No statement of [remount] or [reinterpretTensor] assigns to a field of
    the source tensor, a record value here.) *)
Theorem remount_fresh_tensor env src newPath w f original :
  buffers w !! data src = Some original ->
  match parsePath newPath with
  | inl e =>
      e = InvalidPathError /\ remount env src newPath w f = (inl e, (w, f))
  | inr _ =>
      exists t w',
        remount env src newPath w f = (inr t, (w', set_mounted newPath t f)) /\
        shape t = shape src /\
        tensor_id t <> tensor_id src /\
        (data t ∉ dom (buffers w)) /\
        data t <> data src /\
        (exists a, buffers w' !! data t = Some a
                   /\ length (elems a) = length (elems original)) /\
        buffers w' !! data src = Some original /\
        (forall l a, buffers w !! l = Some a -> buffers w' !! l = Some a) /\
        arrays w' = arrays w
  end.
Proof.
  intros Hlive. unfold remount. unfold mbind at 1, M_bind, bind.
  destruct (parsePath newPath) as [e|intent] eqn:E.
  - split; [|reflexivity].
    unfold parsePath in E. destruct (_ <? _)%nat; [congruence|].
    destruct (match _ with [] => _ | _ => _ end) as [[? ?] ?]. discriminate.
  - cbv [lift_result mbind M_bind bind mret M_ret ret].
    destruct (reinterpretTensor_returns env src
                (collapseQuantumField intent (optimizeQuantization intent))
                (optimizeQuantization intent) newPath w f original Hlive)
      as (t & w' & Hr & Hshape & Hid & _ & _ & Hdata & Hnew & Hbuf & Harr).
    rewrite Hr. exists t, w'. split; [reflexivity|].
    split; [exact Hshape|]. split; [rewrite Hid; apply reinterpreted_id_differs|].
    assert (Hfresh : data t ∉ dom (buffers w)) by (rewrite Hdata; apply is_fresh).
    split; [exact Hfresh|]. split.
    { intros Hsame. apply Hfresh. rewrite Hsame. apply elem_of_dom. eauto. }
    split; [exact Hnew|].
    split; [apply Hbuf, Hlive|]. split; [exact Hbuf | exact Harr].
Qed.

(** C7 on a tensor of two elements, remounted to a path of 32 bits. *)
Lemma remount_fresh_tensor_witness :
  buffers (float32_world [js_decimal 5 1; js_of_Z 1]) !! data float32_tensor
    = Some (mkTypedArray Float32Array [js_decimal 5 1; js_of_Z 1]) /\
  exists t w',
    remount example_env float32_tensor "/models/nlp/generation/high"
            (float32_world [js_decimal 5 1; js_of_Z 1]) new_CognitiveQuantumField
      = (inr t, (w', set_mounted "/models/nlp/generation/high" t new_CognitiveQuantumField)) /\
    shape t = shape float32_tensor /\
    tensor_id t <> tensor_id float32_tensor /\
    (data t ∉ dom (buffers (float32_world [js_decimal 5 1; js_of_Z 1]))) /\
    data t <> data float32_tensor /\
    (exists a, buffers w' !! data t = Some a
               /\ length (elems a)
                  = length (elems (mkTypedArray Float32Array [js_decimal 5 1; js_of_Z 1]))) /\
    buffers w' !! data float32_tensor
      = Some (mkTypedArray Float32Array [js_decimal 5 1; js_of_Z 1]) /\
    (forall l a, buffers (float32_world [js_decimal 5 1; js_of_Z 1]) !! l = Some a ->
                 buffers w' !! l = Some a) /\
    arrays w' = arrays (float32_world [js_decimal 5 1; js_of_Z 1]).
Proof.
  split; [reflexivity|].
  exact (remount_fresh_tensor example_env float32_tensor "/models/nlp/generation/high"
           (float32_world [js_decimal 5 1; js_of_Z 1]) new_CognitiveQuantumField
           (mkTypedArray Float32Array [js_decimal 5 1; js_of_Z 1]) eq_refl).
Defined.

(** The value of a rounding whose result stays finite, in units of the
    smallest positive double. *)
Lemma binary_round_aux_ord (m e : Z) (l : location) :
  0 <= m -> e <= fexp (Zdigits2 m + e) -> fexp (Zdigits2 m + e) < 971 ->
  let f := fexp (Zdigits2 m + e) in
  let p := binary_round_aux prec emax false m e l in
  exists m1,
    (m1 = m / 2 ^ (f - e) \/ m1 = m / 2 ^ (f - e) + 1) /\
    ord p = m1 * 2 ^ (f + 1074) /\
    match p with
    | S754_zero _ => True
    | S754_finite s _ _ => s = false
    | _ => False
    end.
Proof.
  intros Hm He Hf f p.
  destruct (binary_round_aux_cases false m e l Hm He) as (m1 & Hm1 & Hd & _ & _ & Hp).
  fold f in Hm1, Hd, Hp. fold p in Hp.
  assert (Hfe : -1074 <= f) by apply fexp_ge_emin.
  set (m' := m / 2 ^ (f - e)) in *.
  assert (Hm'0 : 0 <= m') by (apply Z.div_pos; [lia | apply Z.pow_pos_nonneg; lia]).
  assert (Hm'53 : m' < 2 ^ 53).
  { destruct (Z.eq_dec m' 0) as [->|Hne]; [reflexivity|].
    pose proof (Zdigits2_bounds m' ltac:(lia)) as [_ Hhi].
    assert (2 ^ Zdigits2 m' <= 2 ^ 53) by (apply Z.pow_le_mono_r; lia). lia. }
  exists m1. split; [exact Hm1|]. clearbody m' p. rewrite Hp.
  unfold prec, emax in *.
  destruct m1 as [|q|q]; [split; [reflexivity | exact I] | | lia].
  destruct (Z.ltb_spec (Z.pos q) (2 ^ 53)) as [Hlt|Hge].
  - destruct (Z.leb_spec f (1024 - 53)) as [_|]; [|lia]. split; reflexivity.
  - destruct (Z.leb_spec (f + 1) (1024 - 53)) as [_|]; [|lia]. split; [|reflexivity].
    assert (Hq : Z.pos q = 2 ^ 53) by lia. rewrite Hq. cbn [ord cond_Zopp].
    rewrite Z2Pos.id by (apply Z.pow_pos_nonneg; lia).
    replace (f + 1 + 1074) with (Z.succ (f + 1074)) by lia.
    rewrite Z.pow_succ_r by lia. change (2 ^ 53) with (2 * 2 ^ 52). ring.
Qed.

(** [x * 255] for a double [x] between 0 and 1: off the exact product by at
    most [2^-45]. *)
Lemma mul_255_ord (m : positive) (e : Z) :
  valid_binary prec emax (S754_finite false m e) = true ->
  ord (S754_finite false m e) <= 2 ^ 1074 ->
  let p := js_mul (S754_finite false m e) (js_of_Z 255) in
  Z.abs (ord p - 255 * ord (S754_finite false m e)) <= 2 ^ 1029 /\
  match p with
  | S754_zero _ => True
  | S754_finite s _ _ => s = false
  | _ => False
  end /\
  valid_binary prec emax p = true.
Proof.
  intros Hv Hle p.
  pose proof (valid_finite_inv _ _ _ Hv) as (He & Hm53 & _).
  cbn [ord cond_Zopp] in Hle |- *.
  assert (Hp0 : 0 < 2 ^ (e + 1074)) by (apply Z.pow_pos_nonneg; lia).
  assert (He0 : e <= 0).
  { destruct (Z.le_gt_cases e 0) as [|Hgt]; [assumption|].
    assert (2 ^ 1074 < 2 ^ (e + 1074)) by (apply Z.pow_lt_mono_r; lia). nia. }
  assert (Hme : Z.pos m <= 2 ^ (- e)).
  { replace (2 ^ 1074) with (2 ^ (- e) * 2 ^ (e + 1074)) in Hle
      by (rewrite <- Z.pow_add_r by lia; f_equal; lia). nia. }
  change (js_of_Z 255) with (S754_finite false 8972014882652160 (-45)) in p.
  unfold js_mul, SFmul in p. cbn [xorb] in p.
  set (M := Z.pos (m * 8972014882652160)) in *.
  set (E := e + -45) in *.
  assert (HM : M = Z.pos m * (255 * 2 ^ 45)) by (unfold M; rewrite Pos2Z.inj_mul; reflexivity).
  assert (HM0 : 0 < M) by (unfold M; lia).
  assert (HMd : 53 <= Zdigits2 M).
  { destruct (Z.le_gt_cases 53 (Zdigits2 M)) as [|Hlt]; [assumption|].
    pose proof (Zdigits2_bounds M HM0) as [_ Hhi].
    assert (2 ^ Zdigits2 M <= 2 ^ 52) by (apply Z.pow_le_mono_r; lia).
    assert (2 ^ 52 <= 255 * 2 ^ 45) by (vm_compute; discriminate). nia. }
  assert (HMe : Zdigits2 M + E <= 8).
  { destruct (Z.le_gt_cases (Zdigits2 M + E) 8) as [|Hgt]; [assumption|].
    pose proof (Zdigits2_bounds M HM0) as [Hlo _].
    assert (2 ^ (8 - E) <= 2 ^ (Zdigits2 M - 1)) by (apply Z.pow_le_mono_r; lia).
    replace (8 - E) with (53 + - e) in * by (unfold E; lia).
    rewrite Z.pow_add_r in * by lia.
    assert (255 * 2 ^ 45 < 2 ^ 53) by (vm_compute; reflexivity). nia. }
  assert (HfE : E <= fexp (Zdigits2 M + E)) by (rewrite fexp_eq; lia).
  assert (Hf971 : fexp (Zdigits2 M + E) < 971) by (rewrite fexp_eq; lia).
  destruct (binary_round_aux_ord M E loc_Exact ltac:(lia) HfE Hf971)
    as (m1 & Hm1 & Hord & Hsign).
  fold p in Hord, Hsign.
  split; [|split; [exact Hsign | apply binary_round_aux_valid; [lia | exact HfE]]].
  set (f := fexp (Zdigits2 M + E)) in *.
  assert (Hf : -1074 <= f <= -45) by (unfold f; rewrite fexp_eq; lia).
  rewrite Hord.
  assert (Hdiv : forall a b, 0 < b -> b * (a / b) <= a < b * (a / b + 1)).
  { intros a b Hb. pose proof (Z.mul_div_le a b Hb).
    pose proof (Z.mul_succ_div_gt a b Hb). lia. }
  pose proof (Hdiv M (2 ^ (f - E)) ltac:(apply Z.pow_pos_nonneg; lia)) as HB.
  set (m' := M / 2 ^ (f - E)) in *. clearbody m' p.
  (* scale by [2^(E + 1119)] *)
  assert (HS : 2 ^ (f - E) * 2 ^ (E + 1119) = 2 ^ 45 * 2 ^ (f + 1074)).
  { rewrite <- !Z.pow_add_r by (unfold E; lia). f_equal. lia. }
  assert (HX : M * 2 ^ (E + 1119) = 2 ^ 45 * (255 * (Z.pos m * 2 ^ (e + 1074)))).
  { rewrite HM. replace (E + 1119) with (e + 1074) by (unfold E; lia). ring. }
  assert (HP : 0 < 2 ^ (E + 1119)) by (apply Z.pow_pos_nonneg; unfold E; lia).
  assert (HU : 0 < 2 ^ (f + 1074) <= 2 ^ 1029).
  { split; [apply Z.pow_pos_nonneg; lia | apply Z.pow_le_mono_r; lia]. }
  assert (H45 : 0 < 2 ^ 45) by reflexivity.
  set (X := 255 * (Z.pos m * 2 ^ (e + 1074))) in *.
  set (U := 2 ^ (f + 1074)) in *.
  assert (m' * U <= X < (m' + 1) * U) by nia.
  destruct Hm1 as [->| ->]; lia.
Qed.

(** [Math.round(p)] of a double [0 <= p < 2^52]: the integer [n] with
    [n - 1/2 <= p < n + 1/2]. *)
Lemma Math_round_ord (m : positive) (e : Z) :
  valid_binary prec emax (S754_finite false m e) = true -> e < 0 ->
  let n := (2 * Z.pos m + 2 ^ (- e)) / 2 ^ (1 - e) in
  Math_round (S754_finite false m e) = (if n =? 0 then S754_zero false else js_of_Z n) /\
  0 <= n /\
  2 ^ 1075 * n <= 2 * ord (S754_finite false m e) + 2 ^ 1074 < 2 ^ 1075 * (n + 1).
Proof.
  intros Hv He n.
  pose proof (valid_finite_inv _ _ _ Hv) as (Hr & _ & _).
  split; [|split].
  - unfold Math_round. destruct (Z.leb_spec 0 e); [lia|]. reflexivity.
  - apply Z.div_pos; [|apply Z.pow_pos_nonneg; lia].
    assert (0 < 2 ^ (- e)) by (apply Z.pow_pos_nonneg; lia). lia.
  - cbn [ord cond_Zopp].
    assert (Hb : 0 < 2 ^ (1 - e)) by (apply Z.pow_pos_nonneg; lia).
    pose proof (Z.mul_div_le (2 * Z.pos m + 2 ^ (- e)) _ Hb) as Hlo.
    pose proof (Z.mul_succ_div_gt (2 * Z.pos m + 2 ^ (- e)) _ Hb) as Hhi.
    fold n in Hlo, Hhi.
    assert (HS : 2 ^ (1 - e) * 2 ^ (e + 1074) = 2 ^ 1075)
      by (rewrite <- Z.pow_add_r by lia; f_equal; lia).
    assert (HT : 2 ^ (- e) * 2 ^ (e + 1074) = 2 ^ 1074)
      by (rewrite <- Z.pow_add_r by lia; f_equal; lia).
    assert (HP : 0 < 2 ^ (e + 1074)) by (apply Z.pow_pos_nonneg; lia).
    set (A := 2 ^ (1 - e)) in *. set (B := 2 ^ (- e)) in *.
    set (C := 2 ^ (e + 1074)) in *. set (U := 2 ^ 1075) in *. set (V := 2 ^ 1074) in *.
    clearbody A B C U V n. nia.
Qed.

Definition bytes : list Z := List.map Z.of_nat (seq 0 256).

Lemma elem_of_bytes (k : Z) : 0 <= k <= 255 -> In k bytes.
Proof.
  intros H. unfold bytes. apply in_map_iff. exists (Z.to_nat k).
  split; [lia|]. apply in_seq. lia.
Qed.

Lemma truncate_byte (k : Z) : 0 <= k <= 255 -> truncate (js_of_Z k) = k.
Proof.
  intros H. apply elem_of_bytes in H.
  assert (T : forallb (fun n => truncate (js_of_Z n) =? n) bytes = true)
    by (vm_compute; reflexivity).
  rewrite forallb_forall in T. apply Z.eqb_eq, T, H.
Qed.

(** The byte [k] read back as a binary32 number: off [k / 255] by less than
    [2^-16 / 255]. *)
Lemma byte_to_float32 (k : Z) :
  0 <= k <= 255 ->
  let y := store Float32Array (js_div (js_of_Z k) (js_of_Z 255)) in
  valid_binary prec emax y = true /\ is_NaN y = false /\
  Z.abs (255 * ord y - k * 2 ^ 1074) <= 2 ^ 1058.
Proof.
  intros H. apply elem_of_bytes in H.
  assert (T : forallb (fun k =>
                let y := store Float32Array (js_div (js_of_Z k) (js_of_Z 255)) in
                valid_binary prec emax y && negb (is_NaN y)
                && (Z.abs (255 * ord y - k * 2 ^ 1074) <=? 2 ^ 1058)) bytes = true)
    by (vm_compute; reflexivity).
  rewrite forallb_forall in T. specialize (T k H). cbv zeta in T.
  apply andb_true_iff in T as [T T3]. apply andb_true_iff in T as [T1 T2].
  apply negb_true_iff in T2. apply Z.leb_le in T3. auto.
Qed.

(** A canonical double between 0 and 1. *)
Definition in_unit_interval (x : number) : bool :=
  valid_binary prec emax x && js_ge x (js_of_Z 0) && js_ge (js_of_Z 1) x.

(** One element through [float32 -> uint8 -> float32]. *)
Definition there_and_back (x : number) : number :=
  store Float32Array
    (js_div (store Uint8Array (Math_round (js_mul x (js_of_Z 255)))) (js_of_Z 255)).

Lemma in_unit_interval_inv x :
  in_unit_interval x = true ->
  valid_binary prec emax x = true /\ 0 <= ord x <= 2 ^ 1074 /\
  match x with
  | S754_zero _ => True
  | S754_finite s _ _ => s = false
  | _ => False
  end.
Proof.
  unfold in_unit_interval. rewrite !andb_true_iff. intros [[Hv H0] H1].
  assert (Nx : x <> S754_nan) by (intros ->; discriminate).
  unfold js_ge, SFleb in H0, H1.
  change (js_of_Z 0) with (S754_zero false) in H0.
  change (js_of_Z 1) with (S754_finite false 4503599627370496 (-52)) in H1.
  rewrite SFcompare_ord in H0, H1 by (assumption || reflexivity || discriminate).
  change (ord (S754_zero false)) with 0 in H0.
  change (ord (S754_finite false 4503599627370496 (-52))) with (2 ^ 52 * 2 ^ 1022) in H1.
  replace (2 ^ 52 * 2 ^ 1022) with (2 ^ 1074) in H1
    by (rewrite <- Z.pow_add_r by lia; reflexivity).
  assert (B : 0 <= ord x <= 2 ^ 1074).
  { split.
    - destruct (Z.compare_spec 0 (ord x)); try lia; discriminate.
    - destruct (Z.compare_spec (ord x) (2 ^ 1074)); try lia; discriminate. }
  split; [exact Hv|]. split; [exact B|].
  destruct x as [s|s| |s m e]; try exact I; try (exfalso; apply Nx; reflexivity).
  - destruct s; cbn [ord] in B.
    + assert (0 < 2 ^ 2100) by (apply Z.pow_pos_nonneg; lia). lia.
    + assert (2 ^ 1074 < 2 ^ 2100) by (apply Z.pow_lt_mono_r; lia). lia.
  - pose proof (ord_finite_bounds _ _ _ Hv). destruct s; [|reflexivity].
    cbn [ord cond_Zopp] in B. lia.
Qed.

Lemma there_and_back_ord x :
  in_unit_interval x = true ->
  let y := there_and_back x in
  valid_binary prec emax y = true /\ is_NaN y = false /\
  255 * Z.abs (ord y - ord x) <= 2 ^ 1074.
Proof.
  intros Hx y. apply in_unit_interval_inv in Hx as (Hv & Hb & Hs).
  assert (H58 : 2 ^ 1058 + 2 ^ 1029 + 2 ^ 1073 <= 2 ^ 1074) by (vm_compute; discriminate).
  assert (H73 : 2 ^ 1074 = 2 * 2 ^ 1073) by reflexivity.
  assert (H75 : 2 ^ 1075 = 2 * 2 ^ 1074) by reflexivity.
  assert (H29 : 0 < 2 ^ 1029) by reflexivity.
  assert (Hfin : forall n, 0 <= n <= 255 ->
            Z.abs (n * 2 ^ 1074 - 255 * ord x) <= 2 ^ 1073 + 2 ^ 1029 ->
            let y := store Float32Array (js_div (js_of_Z n) (js_of_Z 255)) in
            valid_binary prec emax y = true /\ is_NaN y = false /\
            255 * Z.abs (ord y - ord x) <= 2 ^ 1074).
  { intros n Hn Hclose. pose proof (byte_to_float32 n Hn) as (V & N & B).
    cbv zeta. split; [exact V|]. split; [exact N|].
    set (U := 2 ^ 1074) in *. set (A := 2 ^ 1058) in *. set (B' := 2 ^ 1029) in *.
    set (C := 2 ^ 1073) in *. clearbody U A B' C. lia. }
  unfold y, there_and_back.
  destruct x as [s| | |s m e]; try contradiction.
  - (* a zero stays zero *)
    assert (E : store Uint8Array (Math_round (js_mul (S754_zero s) (js_of_Z 255))) = js_of_Z 0)
      by (destruct s; reflexivity).
    rewrite E. apply (Hfin 0); [lia|]. cbn [ord].
    assert (0 < 2 ^ 1073) by reflexivity. lia.
  - subst s.
    pose proof (mul_255_ord m e Hv ltac:(lia)) as (Hclose & Hsign & Hvp).
    cbv zeta in Hclose, Hsign, Hvp.
    destruct (js_mul (S754_finite false m e) (js_of_Z 255)) as [sp| | |sp mp ep] eqn:Ep;
      try contradiction.
    + assert (E : store Uint8Array (Math_round (S754_zero sp)) = js_of_Z 0)
        by (destruct sp; reflexivity).
      rewrite E. apply (Hfin 0); [lia|]. change (ord (S754_zero sp)) with 0 in Hclose.
      assert (0 < 2 ^ 1073) by reflexivity. lia.
    + subst sp.
      pose proof (valid_finite_inv _ _ _ Hvp) as (_ & _ & Hnorm).
      assert (Hep : ep < 0).
      { destruct (Z.le_gt_cases 0 ep) as [Hge|]; [|lia]. exfalso.
        specialize (Hnorm ltac:(lia)).
        change (ord (S754_finite false mp ep)) with (Z.pos mp * 2 ^ (ep + 1074)) in Hclose.
        assert (2 ^ 1074 <= 2 ^ (ep + 1074)) by (apply Z.pow_le_mono_r; lia).
        assert (2 ^ 52 * 2 ^ 1074 <= Z.pos mp * 2 ^ (ep + 1074)) by nia.
        assert (256 * 2 ^ 1074 < 2 ^ 52 * 2 ^ 1074) by (vm_compute; reflexivity).
        set (U := 2 ^ 1074) in *. set (B' := 2 ^ 1029) in *. set (C := 2 ^ 1073) in *.
        clearbody U B' C. lia. }
      pose proof (Math_round_ord mp ep Hvp Hep) as (HR & Hn0 & Hn). cbv zeta in HR, Hn0, Hn.
      set (n := (2 * Z.pos mp + 2 ^ (- ep)) / 2 ^ (1 - ep)) in *. clearbody n.
      set (P := ord (S754_finite false mp ep)) in *. clearbody P.
      assert (Hn255 : n <= 255).
      { set (U := 2 ^ 1074) in *. set (B' := 2 ^ 1029) in *. set (C := 2 ^ 1073) in *.
        set (W := 2 ^ 1075) in *. clearbody U B' C W. nia. }
      assert (E : store Uint8Array (Math_round (S754_finite false mp ep)) = js_of_Z n).
      { rewrite HR. cbn [store]. f_equal. unfold ToUint8.
        destruct (Z.eqb_spec n 0) as [Hz|Hne]; [rewrite Hz; reflexivity|].
        rewrite truncate_byte by lia. apply Z.mod_small. lia. }
      rewrite E. apply (Hfin n); [lia|].
      set (U := 2 ^ 1074) in *. set (B' := 2 ^ 1029) in *. set (C := 2 ^ 1073) in *.
      set (W := 2 ^ 1075) in *. clearbody U B' C W. lia.
Qed.

(** The unit of [ord]: the smallest positive double is [1 / 2^1074]. *)
Definition ulps : positive := Z.to_pos (2 ^ 1074).

Lemma ulps_eq : Z.pos ulps = 2 ^ 1074.
Proof. unfold ulps. apply Z2Pos.id. apply Z.pow_pos_nonneg; lia. Qed.

#[global] Opaque ulps.

Lemma to_Q_ord x :
  valid_binary prec emax x = true -> Z.abs (ord x) < 2 ^ 2100 ->
  (to_Q x == ord x # ulps)%Q.
Proof.
  intros Hv Hfin. destruct x as [s|s| |s m e]; try reflexivity.
  { exfalso. destruct s; cbn [ord] in Hfin; lia. }
  pose proof (valid_finite_inv _ _ _ Hv) as (He & _ & _).
  unfold to_Q, Qeq. cbn [ord Qnum Qden inject_Z]. rewrite ulps_eq.
  destruct (Z.leb_spec 0 e) as [H0|H0].
  - cbn [Qnum Qden inject_Z]. rewrite Z.pow_add_r by lia.
    destruct s; cbn [cond_Zopp]; ring.
  - cbn [Qnum Qden]. rewrite Z2Pos.id by (apply Z.pow_pos_nonneg; lia).
    replace (2 ^ 1074) with (2 ^ (e + 1074) * 2 ^ (- e))
      by (rewrite <- Z.pow_add_r by lia; f_equal; lia).
    destruct s; cbn [cond_Zopp]; ring.
Qed.

Lemma Qabs_diff_le (a b : Z) (D c : positive) :
  Z.pos c * Z.abs (a - b) <= Z.pos D ->
  (Qabs ((a # D) - (b # D)) <= 1 # c)%Q.
Proof.
  intros H. unfold Qle, Qabs, Qminus, Qplus, Qopp. cbn [Qnum Qden].
  rewrite Pos2Z.inj_mul.
  replace (a * Z.pos D + - b * Z.pos D) with ((a - b) * Z.pos D) by ring.
  rewrite Z.abs_mul, (Z.abs_eq (Z.pos D)) by lia. nia.
Qed.

(** One element through the round trip stays within [1/255]. *)
Lemma there_and_back_close x :
  in_unit_interval x = true ->
  (Qabs (to_Q (there_and_back x) - to_Q x) <= 1 # 255)%Q.
Proof.
  intros Hx. pose proof (there_and_back_ord x Hx) as (Vy & _ & H).
  pose proof (in_unit_interval_inv x Hx) as (Vx & Bx & _).
  assert (H2100 : 2 * 2 ^ 1074 < 2 ^ 2100).
  { change (2 * 2 ^ 1074) with (2 ^ 1075). apply Z.pow_lt_mono_r; lia. }
  assert (H1074 : 0 < 2 ^ 1074) by (apply Z.pow_pos_nonneg; lia).
  rewrite (to_Q_ord _ Vy), (to_Q_ord _ Vx) by lia.
  apply Qabs_diff_le. rewrite ulps_eq. exact H.
Qed.

(** [remount] to one configuration and then to another. *)
Definition round_trip (env : Env) (src : Tensor) (path1 path2 : string)
    : M CognitiveQuantumField (Tensor * Tensor) :=
  t1 ← remount env src path1;
  t2 ← remount env t1 path2;
  mret (t1, t2).

(** The elements of the typed array a tensor refers to. *)
Definition elements_of (w : World) (t : Tensor) : list number :=
  match buffers w !! data t with
  | Some a => elems a
  | None => []
  end.

Definition allocated (a : TypedArray) (w : World) : World :=
  mkWorld (<[fresh (dom (buffers w)) := a]> (buffers w)) (arrays w) (S (ticks w)) (draws w).

Lemma remount_float32_to_uint8 env src path intent w f original :
  buffers w !! data src = Some original ->
  dtype src = float32 ->
  parsePath path = inr intent ->
  bits (optimizeQuantization intent) = bits8 ->
  let a := mkTypedArray Uint8Array
             (List.map (fun x => store Uint8Array (Math_round (js_mul x (js_of_Z 255))))
                       (elems original)) in
  let t := {| tensor_id := "reinterpreted_" +:+ tensor_id src +:+ "_"
                           +:+ string_of_N (Date_now env (ticks w));
              data := fresh (dom (buffers w));
              shape := shape src;
              dtype := uint8;
              architecture := collapseQuantumField intent (optimizeQuantization intent);
              quantization := optimizeQuantization intent |} in
  remount env src path w f = (inr t, (allocated a w, set_mounted path t f)).
Proof.
  intros Hlive Hd Hp Hb a t. unfold remount.
  cbv [mbind M_bind bind]. rewrite Hp. cbv [lift_result mret M_ret ret].
  unfold reinterpretTensor. cbv [mbind M_bind bind buffer_of]. rewrite Hlive, Hb, Hd.
  reflexivity.
Qed.

Lemma remount_uint8_to_float32 env src path intent w f original :
  buffers w !! data src = Some original ->
  dtype src = uint8 ->
  parsePath path = inr intent ->
  bits (optimizeQuantization intent) = bits32 ->
  let a := mkTypedArray Float32Array
             (List.map (fun x => store Float32Array (js_div x (js_of_Z 255)))
                       (elems original)) in
  let t := {| tensor_id := "reinterpreted_" +:+ tensor_id src +:+ "_"
                           +:+ string_of_N (Date_now env (ticks w));
              data := fresh (dom (buffers w));
              shape := shape src;
              dtype := float32;
              architecture := collapseQuantumField intent (optimizeQuantization intent);
              quantization := optimizeQuantization intent |} in
  remount env src path w f = (inr t, (allocated a w, set_mounted path t f)).
Proof.
  intros Hlive Hd Hp Hb a t. unfold remount.
  cbv [mbind M_bind bind]. rewrite Hp. cbv [lift_result mret M_ret ret].
  unfold reinterpretTensor. cbv [mbind M_bind bind buffer_of]. rewrite Hlive, Hb, Hd.
  reflexivity.
Qed.

Lemma lookup_allocated a w : buffers (allocated a w) !! fresh (dom (buffers w)) = Some a.
Proof. apply lookup_insert_eq. Qed.

Lemma lookup_allocated_old a w l b :
  buffers w !! l = Some b -> buffers (allocated a w) !! l = Some b.
Proof.
  intros H. cbn [allocated buffers]. rewrite lookup_insert_ne; [exact H|].
  intros <-. pose proof (is_fresh (dom (buffers w))) as Hf.
  apply not_elem_of_dom in Hf. congruence.
Qed.

(** C5, as amended.  For a float32 tensor whose elements are doubles between
    0 and 1, [remount] to a path of 8 bits and then [remount] of the result to
    a path of 32 bits returns a float32 tensor each of whose elements is
    within 1/255 of the source's element at the same index; the source's
    typed array is as it was.  (Nothing clamps an element outside that range:
    the store into the [Uint8Array] keeps its rounded value modulo 256.) *)
Theorem round_trip_within env src path8 path32 intent8 intent32 w f original :
  buffers w !! data src = Some original ->
  dtype src = float32 ->
  parsePath path8 = inr intent8 -> bits (optimizeQuantization intent8) = bits8 ->
  parsePath path32 = inr intent32 -> bits (optimizeQuantization intent32) = bits32 ->
  Forall (fun x => in_unit_interval x = true) (elems original) ->
  exists t8 t32 w' f',
    round_trip env src path8 path32 w f = (inr (t8, t32), (w', f')) /\
    dtype t8 = uint8 /\ dtype t32 = float32 /\
    elements_of w' src = elems original /\
    elements_of w' t32 = List.map there_and_back (elems original) /\
    Forall2 (fun x y => (Qabs (to_Q y - to_Q x) <= 1 # 255)%Q)
            (elems original) (elements_of w' t32).
Proof.
  intros Hlive Hd H8 Hb8 H32 Hb32 Hunit. unfold round_trip.
  cbv [mbind M_bind bind].
  rewrite (remount_float32_to_uint8 env src path8 intent8 w f original Hlive Hd H8 Hb8).
  cbv zeta.
  set (a8 := mkTypedArray Uint8Array _). set (t8 := mkTensor _ _ _ uint8 _ _).
  rewrite (remount_uint8_to_float32 env t8 path32 intent32 (allocated a8 w) _ a8
             (lookup_allocated a8 w) eq_refl H32 Hb32).
  cbv zeta.
  set (a32 := mkTypedArray Float32Array _). set (t32 := mkTensor _ _ _ float32 _ _).
  eexists t8, t32, _, _. split; [reflexivity|].
  split; [reflexivity|]. split; [reflexivity|].
  assert (E32 : elements_of (allocated a32 (allocated a8 w)) t32
                = List.map there_and_back (elems original)).
  { unfold elements_of. change (data t32) with (fresh (dom (buffers (allocated a8 w)))).
    rewrite lookup_allocated. unfold a32, a8. cbn [elems].
    rewrite List.map_map. reflexivity. }
  split; [|split; [exact E32|]].
  - unfold elements_of.
    rewrite (lookup_allocated_old a32 _ _ original (lookup_allocated_old a8 _ _ _ Hlive)).
    reflexivity.
  - rewrite E32. clear -Hunit.
    induction Hunit as [|x l Hx Hl IH]; [constructor|].
    cbn [List.map]. constructor; [apply there_and_back_close, Hx | exact IH].
Qed.

(** C5 on the elements 0.5, 1 and 0. *)
Lemma round_trip_within_witness :
  exists t8 t32 w' f',
    round_trip example_env float32_tensor
               "/models/vision/realtime" "/models/nlp/generation/high"
               (float32_world [js_decimal 5 1; js_of_Z 1; js_of_Z 0])
               new_CognitiveQuantumField
      = (inr (t8, t32), (w', f')) /\
    dtype t8 = uint8 /\ dtype t32 = float32 /\
    elements_of w' float32_tensor = [js_decimal 5 1; js_of_Z 1; js_of_Z 0] /\
    elements_of w' t32 = List.map there_and_back [js_decimal 5 1; js_of_Z 1; js_of_Z 0] /\
    Forall2 (fun x y => (Qabs (to_Q y - to_Q x) <= 1 # 255)%Q)
            [js_decimal 5 1; js_of_Z 1; js_of_Z 0] (elements_of w' t32).
Proof.
  refine (round_trip_within example_env float32_tensor
            "/models/vision/realtime" "/models/nlp/generation/high"
            (mkIntent "vision" "realtime" medium true 6)
            (mkIntent "nlp" "generation" high false 10)
            (float32_world [js_decimal 5 1; js_of_Z 1; js_of_Z 0])
            new_CognitiveQuantumField
            (mkTypedArray Float32Array [js_decimal 5 1; js_of_Z 1; js_of_Z 0])
            eq_refl eq_refl _ eq_refl _ eq_refl _).
  - vm_compute. reflexivity.
  - vm_compute. reflexivity.
  - repeat constructor.
Defined.

(** C5 as stated fails just outside the range: the element 1.003 rounds to
    256 and is stored as the byte 0, and the element -0.003 rounds to -1 and
    is stored as the byte 255, so they come back as 0 and 1, each more than
    1/255 from where it started; the values a clamp would have kept, 1 and 0,
    are within 1/255 of them. *)
Lemma round_trip_wraps :
  match round_trip example_env float32_tensor
                   "/models/vision/realtime" "/models/nlp/generation/high"
                   (float32_world [store Float32Array (js_decimal 1003 3);
                                   store Float32Array (js_sub (js_of_Z 0) (js_decimal 3 3))])
                   new_CognitiveQuantumField with
  | (inr (t8, t32), (w', _)) =>
      dtype t8 = uint8 /\ dtype t32 = float32 /\
      elements_of w' t8 = [js_of_Z 0; js_of_Z 255] /\
      elements_of w' t32 = [js_of_Z 0; js_of_Z 1] /\
      List.map (fun '(x, y) => Qle_bool (Qabs (to_Q y - to_Q x)) (1 # 255))
               (zip (elements_of w' float32_tensor) (elements_of w' t32))
        = [false; false] /\
      List.map (fun '(x, y) => Qle_bool (Qabs (to_Q y - to_Q x)) (1 # 255))
               (zip (elements_of w' float32_tensor) [js_of_Z 1; js_of_Z 0])
        = [true; true]
  | _ => False
  end.
Proof. vm_compute. repeat split; reflexivity. Qed.

End RemountFacts.

(** ** Paths, strategies and architectures (utils.ts) *)

Module PathFacts.
Import JS Runtime N9ml.

(** The complexity [parsePath] computes before it clamps it. *)
Lemma parsePath_returns path intent :
  parsePath path = inr intent ->
  exists c, 4 <= c <= 12 /\ complexity intent = Z.max 1 (Z.min 10 c).
Proof.
  unfold parsePath. destruct (_ <? _)%nat; [discriminate|].
  destruct (match _ with [] => _ | _ => _ end) as [[d t] modifiers].
  cbv zeta. intros H. injection H as <-. cbn [complexity N9ml.domain].
  set (p := if _ : bool then high else _).
  set (r := (_ || _ || _)%bool).
  eexists. split; [|reflexivity].
  destruct (String.eqb_spec d "vision") as [E|_].
  - rewrite E. change (String.eqb "vision" "nlp") with false.
    destruct (includes t "generation"), (Precision_eqb p high), r; lia.
  - destruct (String.eqb d "nlp"), (includes t "generation"),
      (Precision_eqb p high), r; lia.
Qed.

(** X1. Whatever path parses, the complexity of its intent lies between 4 and
    10, so the lower clamp [Math.max(1, ...)] never takes effect; and the only
    error of [parsePath] is [InvalidPathError]. *)
Theorem parsePath_complexity_range (path : string) :
  match parsePath path with
  | inr intent => 4 <= complexity intent <= 10
  | inl e => e = InvalidPathError
  end.
Proof.
  destruct (parsePath path) as [e|intent] eqn:E.
  - unfold parsePath in E. destruct (_ <? _)%nat; [congruence|].
    destruct (match _ with [] => _ | _ => _ end) as [[? ?] ?]. discriminate.
  - destruct (parsePath_returns path intent E) as (c & Hc & ->). lia.
Qed.

Lemma Precision_eqb_eq p q : Precision_eqb p q = true <-> p = q.
Proof. destruct p, q; simpl; split; congruence. Qed.

Lemma Bits_eqb_eq p q : Bits_eqb p q = true <-> p = q.
Proof. destruct p, q; simpl; split; congruence. Qed.

(** X2. In the strategy [optimizeQuantization] returns, the method is a
    function of the bits (32: adaptive, 16: dynamic, 8: linear); 16 bits come
    only from medium precision without realtime, and accuracy is given up only
    at 8 bits. *)
Theorem optimizeQuantization_method_of_bits (intent : CognitiveIntent) :
  let q := optimizeQuantization intent in
  method q = match bits q with
             | bits32 => adaptive
             | bits16 => dynamic
             | bits8 => linear
             end
  /\ (bits q = bits16 <-> precision intent = medium /\ realtime intent = false)
  /\ (bits q = bits32 <->
      precision intent = high
      /\ (String.eqb (domain intent) "vision" && realtime intent = false))
  /\ (preserveAccuracy q = false -> bits q = bits8).
Proof.
  unfold optimizeQuantization. cbv zeta.
  destruct (precision intent), (realtime intent), (String.eqb (domain intent) "vision");
    cbn; repeat split; try congruence; try tauto; intros [? ?]; congruence.
Qed.

(** X3. For an intent that [parsePath] returned, the architecture chosen for
    its own quantization has between 6 and 15 layers ([Math.max(2, ...)] never
    takes effect) and between [2^14] and [2^20] parameters; it is optimized
    for accuracy exactly at 32 bits without realtime, and for memory exactly
    at 16 bits. *)
Theorem collapseQuantumField_of_path (path : string) (intent : CognitiveIntent) :
  parsePath path = inr intent ->
  let quant := optimizeQuantization intent in
  let arch := collapseQuantumField intent quant in
  layers arch = 3 * complexity intent / 2
  /\ 6 <= layers arch <= 15
  /\ 2 ^ 14 <= parameters arch <= 2 ^ 20
  /\ (optimization arch = accuracy <-> bits quant = bits32 /\ realtime intent = false)
  /\ (optimization arch = memory <-> bits quant = bits16).
Proof.
  intros Hp. destruct (parsePath_returns path intent Hp) as (c & Hc & Hcx).
  assert (Hrange : 4 <= complexity intent <= 10) by lia.
  cbv zeta. unfold collapseQuantumField. cbn [layers parameters optimization].
  assert (Hl : 6 <= 3 * complexity intent / 2 <= 15).
  { split; [apply Z.div_le_lower_bound; lia | apply Z.div_le_upper_bound; lia]. }
  split; [lia|]. split; [lia|]. split.
  { split; apply Z.pow_le_mono_r; lia. }
  unfold optimizeQuantization. cbv zeta.
  destruct (precision intent), (realtime intent), (String.eqb (domain intent) "vision");
    cbn; repeat split; try congruence; try tauto; intros [? ?]; congruence.
Qed.

(** X3 on the path [/models/nlp/generation/high]. *)
Lemma collapseQuantumField_of_path_witness :
  let intent := mkIntent "nlp" "generation" high false 10 in
  let quant := optimizeQuantization intent in
  let arch := collapseQuantumField intent quant in
  parsePath "/models/nlp/generation/high" = inr intent
  /\ layers arch = 3 * complexity intent / 2
  /\ 6 <= layers arch <= 15
  /\ 2 ^ 14 <= parameters arch <= 2 ^ 20
  /\ (optimization arch = accuracy <-> bits quant = bits32 /\ realtime intent = false)
  /\ (optimization arch = memory <-> bits quant = bits16).
Proof.
  split; [vm_compute; reflexivity|].
  apply (collapseQuantumField_of_path "/models/nlp/generation/high").
  vm_compute. reflexivity.
Defined.

End PathFacts.

(** ** The field: mounting, unmounting and remounting *)

Module FieldFacts.
Import JS Runtime N9ml Hoare RemountFacts.

(** The element type [createTensor] and [reinterpretTensor] pair with a
    number of bits. *)
Definition dtype_of_bits (b : Bits) : DType :=
  match b with bits32 => float32 | bits16 => uint16 | bits8 => uint8 end.

Lemma createTensor_returns env arch quant path w f :
  exists t w',
    createTensor env arch quant path w f = (inr t, (w', f)) /\
    quantization t = quant /\ architecture t = arch /\
    dtype t = dtype_of_bits (bits quant) /\
    tensor_id t = "tensor_" +:+ string_of_N (Date_now env (ticks w)) +:+ "_"
                  +:+ random_suffix env (Math_random env (draws w + 1024)) /\
    data t = fresh (dom (buffers w)) /\
    shape t = fresh (dom (arrays w)) /\
    (exists a, buffers w' = <[data t := a]> (buffers w) /\ length (elems a) = 1024%nat) /\
    arrays w' = <[shape t := [32; 32]]> (arrays w) /\
    ticks w' = S (ticks w) /\ draws w' = (draws w + 1025)%nat.
Proof.
  unfold createTensor.
  destruct (bits quant) eqn:Eb;
    cbv [mbind M_bind bind]; rewrite randoms_returns;
    cbv [new_buffer now random new_array mret M_ret ret]; cbn [buffers arrays ticks draws];
    (eexists _, _; split; [reflexivity|];
     cbn [quantization architecture dtype tensor_id data shape buffers arrays ticks draws];
     repeat split; try reflexivity; try lia;
     eexists; split; [reflexivity|]; cbn [elems];
     rewrite !length_map, length_seq; reflexivity).
Qed.

Lemma mount_returns env (path : string) (w : World) (f : CognitiveQuantumField) :
  match parsePath path with
  | inl e => mount env path w f = (inl e, (w, f))
  | inr intent =>
      let quant := optimizeQuantization intent in
      exists t w',
        mount env path w f = (inr t, (w', set_mounted path t f)) /\
        quantization t = quant /\
        architecture t = collapseQuantumField intent quant /\
        dtype t = dtype_of_bits (bits quant) /\
        buffers w !! data t = None /\
        (exists a, buffers w' !! data t = Some a /\ length (elems a) = 1024%nat) /\
        arrays w !! shape t = None /\
        arrays w' !! shape t = Some [32; 32] /\
        (forall l a, buffers w !! l = Some a -> buffers w' !! l = Some a) /\
        (forall l a, arrays w !! l = Some a -> arrays w' !! l = Some a) /\
        ticks w' = S (ticks w) /\ draws w' = (draws w + 1025)%nat
  end.
Proof.
  unfold mount. cbv [mbind M_bind bind].
  destruct (parsePath path) as [e|intent]; [reflexivity|].
  cbv [lift_result mret M_ret ret]. cbv zeta.
  destruct (createTensor_returns env
              (collapseQuantumField intent (optimizeQuantization intent))
              (optimizeQuantization intent) path w f)
    as (t & w' & Hr & Hq & Ha & Hd & _ & Hdata & Hshape & (a & Hb & Hlen) & Harr & Ht & Hn).
  rewrite Hr. exists t, w'. split; [reflexivity|].
  assert (Fb : buffers w !! data t = None)
    by (rewrite Hdata; apply not_elem_of_dom, is_fresh).
  assert (Fa : arrays w !! shape t = None)
    by (rewrite Hshape; apply not_elem_of_dom, is_fresh).
  repeat split; try assumption.
  - exists a. split; [rewrite Hb; apply lookup_insert_eq | exact Hlen].
  - rewrite Harr. apply lookup_insert_eq.
  - intros l b Hl. rewrite Hb, lookup_insert_ne; [exact Hl | congruence].
  - intros l b Hl. rewrite Harr, lookup_insert_ne; [exact Hl | congruence].
Qed.

(** X4. [mount] on a path that does not parse throws before touching
    anything.  On a path that parses it returns a tensor registered under the
    path, of the strategy and architecture the path selects and of the element
    type its bits call for, over a newly allocated array of 1024 elements and
    a newly allocated shape [[32, 32]]; what the heap held before is as it
    was; the call reads the clock once and draws 1025 random numbers. *)
Theorem mount_registers env (path : string) (w : World) (f : CognitiveQuantumField) :
  match parsePath path with
  | inl e => mount env path w f = (inl e, (w, f))
  | inr intent =>
      let quant := optimizeQuantization intent in
      exists t w',
        mount env path w f = (inr t, (w', set_mounted path t f)) /\
        quantization t = quant /\
        architecture t = collapseQuantumField intent quant /\
        dtype t = dtype_of_bits (bits quant) /\
        buffers w !! data t = None /\
        (exists a, buffers w' !! data t = Some a /\ length (elems a) = 1024%nat) /\
        arrays w !! shape t = None /\
        arrays w' !! shape t = Some [32; 32] /\
        (forall l a, buffers w !! l = Some a -> buffers w' !! l = Some a) /\
        (forall l a, arrays w !! l = Some a -> arrays w' !! l = Some a) /\
        ticks w' = S (ticks w) /\ draws w' = (draws w + 1025)%nat
  end.
Proof. apply mount_returns. Qed.

Lemma field_eta (f : CognitiveQuantumField) : {| mountedTensors := mountedTensors f |} = f.
Proof. destruct f; reflexivity. Qed.

(** A path that parses has two segments, and so a [/]: it is none of the keys
    an object inherits. *)
Lemma parsed_path_not_inherited (path : string) (intent : CognitiveIntent) :
  parsePath path = inr intent -> array_includes inherited_keys path = false.
Proof.
  intros Hp. unfold array_includes, inherited_keys. cbn [existsb].
  repeat match goal with
         | |- context [String.eqb path ?k] =>
             destruct (String.eqb_spec path k) as [->|_];
             [vm_compute in Hp; discriminate Hp|]
         end.
  reflexivity.
Qed.

(** X5. After a [mount] that returned, [unmount] of the same path returns
    [true] and leaves the registry the field had before the mount without that
    path (exactly the earlier registry when the path was not mounted then); a
    second [unmount] returns [false] and changes nothing. *)
Theorem unmount_after_mount env (path : string) (w w1 : World)
    (f f1 : CognitiveQuantumField) (t : Tensor) :
  mount env path w f = (inr t, (w1, f1)) ->
  let f2 := {| mountedTensors := delete path (mountedTensors f) |} in
  unmount path w1 f1 = (inr true, (w1, f2))
  /\ unmount path w1 f2 = (inr false, (w1, f2))
  /\ (forall p, p <> path -> mountedTensors f2 !! p = mountedTensors f !! p)
  /\ (mountedTensors f !! path = None -> f2 = f).
Proof.
  intros Hm. pose proof (mount_returns env path w f) as H.
  destruct (parsePath path) as [e|intent] eqn:Hparse; [congruence|].
  apply parsed_path_not_inherited in Hparse.
  destruct H as (t' & w' & Hr & _). rewrite Hr in Hm.
  injection Hm as <- <- <-. cbv zeta.
  unfold unmount. cbv [mbind M_bind bind this assign mret M_ret ret].
  cbn [set_mounted mountedTensors].
  rewrite lookup_insert_eq. cbn [set_mounted mountedTensors].
  rewrite lookup_delete_eq, delete_insert_eq, Hparse.
  repeat split.
  - intros p Hp. apply lookup_delete_ne. congruence.
  - intros Hnone. rewrite delete_id by exact Hnone. apply field_eta.
Qed.

(** X5 on the path [/persona/memory/rag], mounted on an empty field. *)
Lemma unmount_after_mount_witness :
  match mount Examples.example_env "/persona/memory/rag" empty_world
              new_CognitiveQuantumField with
  | (inr t, (w1, f1)) =>
      unmount "/persona/memory/rag" w1 f1 = (inr true, (w1, new_CognitiveQuantumField))
      /\ unmount "/persona/memory/rag" w1 new_CognitiveQuantumField
         = (inr false, (w1, new_CognitiveQuantumField))
  | (inl _, _) => False
  end.
Proof.
  destruct (mount Examples.example_env "/persona/memory/rag" empty_world
              new_CognitiveQuantumField) as [[e|t] [w1 f1]] eqn:E.
  - pose proof (mount_returns Examples.example_env "/persona/memory/rag" empty_world
                  new_CognitiveQuantumField) as H.
    assert (P : parsePath "/persona/memory/rag"
                = inr (mkIntent "persona" "memory" medium false 5))
      by (vm_compute; reflexivity).
    rewrite P in H. destruct H as (t' & w' & Hr & _). rewrite Hr in E. discriminate E.
  - destruct (unmount_after_mount _ _ _ _ _ _ _ E) as (H1 & H2 & _ & H4).
    rewrite (H4 (lookup_empty _)) in H1, H2. split; [exact H1 | exact H2].
Defined.

Lemma reinterpretTensor_dtype env src newArch newQuant newPath w f original :
  buffers w !! data src = Some original ->
  exists t a,
    reinterpretTensor env src newArch newQuant newPath w f
      = (inr t, (allocated a w, f)) /\
    data t = fresh (dom (buffers w)) /\
    shape t = shape src /\
    architecture t = newArch /\ quantization t = newQuant /\
    dtype t = dtype_of_bits (bits newQuant) /\
    length (elems a) = length (elems original) /\
    (dtype src = dtype_of_bits (bits newQuant) -> a = original).
Proof.
  intros Hlive. unfold reinterpretTensor.
  unfold mbind at 1, M_bind, bind. unfold buffer_of at 1. rewrite Hlive.
  destruct (bits newQuant), (dtype src); cbn [Bits_eqb DType_eqb andb negb];
    (eexists _, _; split; [reflexivity|];
     cbn [shape tensor_id architecture quantization data dtype dtype_of_bits elems];
     rewrite ?length_map; repeat split; try reflexivity; discriminate).
Qed.

(** X6. Whatever the element type of the source, the tensor [remount] returns
    has the element type its own bits call for and as many elements as the
    source; when the source already has that element type the new array is a
    copy: equal contents at another place in the heap. *)
Theorem remount_dtype_of_bits env (src : Tensor) (newPath : string) (w w' : World)
    (f f' : CognitiveQuantumField) (original : TypedArray) (t : Tensor) :
  buffers w !! data src = Some original ->
  remount env src newPath w f = (inr t, (w', f')) ->
  dtype t = dtype_of_bits (bits (quantization t))
  /\ data t <> data src
  /\ exists a,
       buffers w' !! data t = Some a
       /\ length (elems a) = length (elems original)
       /\ (dtype src = dtype t -> a = original).
Proof.
  intros Hlive. unfold remount. cbv [mbind M_bind bind].
  destruct (parsePath newPath) as [e|intent]; [discriminate|].
  cbv [lift_result mret M_ret ret]. cbv zeta.
  destruct (reinterpretTensor_dtype env src
              (collapseQuantumField intent (optimizeQuantization intent))
              (optimizeQuantization intent) newPath w f original Hlive)
    as (t0 & a & Hr & Hdata & _ & _ & Hq & Hd & Hlen & Hcopy).
  rewrite Hr. cbv [assign]. intros H. injection H as <- <- <-.
  rewrite Hq. split; [exact Hd|]. split.
  - rewrite Hdata. intros E. pose proof (is_fresh (dom (buffers w))) as Hf.
    apply not_elem_of_dom in Hf. rewrite E, Hlive in Hf. discriminate.
  - exists a. rewrite Hdata. split; [apply lookup_allocated|].
    split; [exact Hlen|]. rewrite Hd. exact Hcopy.
Qed.

(** X6 on a float32 tensor remounted to a path of 32 bits: a copy. *)
Lemma remount_dtype_of_bits_witness :
  match remount Examples.example_env Examples.float32_tensor
                "/models/nlp/generation/high"
                (Examples.float32_world [js_decimal 5 1; js_of_Z 1])
                new_CognitiveQuantumField with
  | (inr t, (w', _)) =>
      dtype t = float32
      /\ data t <> data Examples.float32_tensor
      /\ elements_of w' t = [js_decimal 5 1; js_of_Z 1]
  | (inl _, _) => False
  end.
Proof.
  destruct (remount Examples.example_env Examples.float32_tensor
              "/models/nlp/generation/high"
              (Examples.float32_world [js_decimal 5 1; js_of_Z 1])
              new_CognitiveQuantumField) as [[e|t] [w' f']] eqn:E.
  - vm_compute in E. discriminate E.
  - destruct (remount_dtype_of_bits Examples.example_env Examples.float32_tensor
                "/models/nlp/generation/high"
                (Examples.float32_world [js_decimal 5 1; js_of_Z 1]) w'
                new_CognitiveQuantumField f'
                (mkTypedArray Float32Array [js_decimal 5 1; js_of_Z 1]) t eq_refl E)
      as (Hd & Hne & a & Ha & _ & Hcopy).
    assert (Hq : bits (quantization t) = bits32).
    { vm_compute in E. injection E as <- _ _. reflexivity. }
    rewrite Hq in Hd. split; [exact Hd|]. split; [exact Hne|].
    unfold elements_of. rewrite Ha, (Hcopy (eq_sym Hd)). reflexivity.
Defined.

(** One byte through [uint8 -> uint16 -> uint8]. *)
Definition widen_and_narrow (x : number) : number :=
  store Uint8Array
    (Math_round (js_div (store Uint16Array (js_mul x (js_of_Z 257))) (js_of_Z 257))).

Lemma widen_and_narrow_byte (k : Z) :
  0 <= k <= 255 -> widen_and_narrow (js_of_Z k) = js_of_Z k.
Proof.
  intros H. apply elem_of_bytes in H.
  assert (T : forallb (fun k =>
                ToUint8 (Math_round
                           (js_div (store Uint16Array (js_mul (js_of_Z k) (js_of_Z 257)))
                                   (js_of_Z 257))) =? k) bytes = true)
    by (vm_compute; reflexivity).
  rewrite forallb_forall in T. specialize (T k H). apply Z.eqb_eq in T.
  unfold widen_and_narrow. cbn [store]. f_equal. exact T.
Qed.

Lemma remount_uint8_to_uint16 env src path intent w f original :
  buffers w !! data src = Some original ->
  dtype src = uint8 ->
  parsePath path = inr intent ->
  bits (optimizeQuantization intent) = bits16 ->
  let a := mkTypedArray Uint16Array
             (List.map (fun x => store Uint16Array (js_mul x (js_of_Z 257)))
                       (elems original)) in
  let t := {| tensor_id := "reinterpreted_" +:+ tensor_id src +:+ "_"
                           +:+ string_of_N (Date_now env (ticks w));
              data := fresh (dom (buffers w));
              shape := shape src;
              dtype := uint16;
              architecture := collapseQuantumField intent (optimizeQuantization intent);
              quantization := optimizeQuantization intent |} in
  remount env src path w f = (inr t, (allocated a w, set_mounted path t f)).
Proof.
  intros Hlive Hd Hp Hb a t. unfold remount.
  cbv [mbind M_bind bind]. rewrite Hp. cbv [lift_result mret M_ret ret].
  unfold reinterpretTensor. cbv [mbind M_bind bind buffer_of]. rewrite Hlive, Hb, Hd.
  reflexivity.
Qed.

Lemma remount_uint16_to_uint8 env src path intent w f original :
  buffers w !! data src = Some original ->
  dtype src = uint16 ->
  parsePath path = inr intent ->
  bits (optimizeQuantization intent) = bits8 ->
  let a := mkTypedArray Uint8Array
             (List.map (fun x => store Uint8Array (Math_round (js_div x (js_of_Z 257))))
                       (elems original)) in
  let t := {| tensor_id := "reinterpreted_" +:+ tensor_id src +:+ "_"
                           +:+ string_of_N (Date_now env (ticks w));
              data := fresh (dom (buffers w));
              shape := shape src;
              dtype := uint8;
              architecture := collapseQuantumField intent (optimizeQuantization intent);
              quantization := optimizeQuantization intent |} in
  remount env src path w f = (inr t, (allocated a w, set_mounted path t f)).
Proof.
  intros Hlive Hd Hp Hb a t. unfold remount.
  cbv [mbind M_bind bind]. rewrite Hp. cbv [lift_result mret M_ret ret].
  unfold reinterpretTensor. cbv [mbind M_bind bind buffer_of]. rewrite Hlive, Hb, Hd.
  reflexivity.
Qed.

(** An element of a [Uint8Array]. *)
Definition is_byte (x : number) : Prop := exists k, 0 <= k <= 255 /\ x = js_of_Z k.

(** X7. The conversions between 8 and 16 bits lose nothing on the way there
    and back: a uint8 tensor remounted to a path of 16 bits (each byte times
    257) and then to a path of 8 bits (each element divided by 257 and
    rounded) has the elements it started with; the source's array is as it
    was. *)
Theorem widen_and_narrow_lossless env (src : Tensor) (path16 path8 : string)
    (intent16 intent8 : CognitiveIntent) (w : World) (f : CognitiveQuantumField)
    (original : TypedArray) :
  buffers w !! data src = Some original ->
  dtype src = uint8 ->
  parsePath path16 = inr intent16 -> bits (optimizeQuantization intent16) = bits16 ->
  parsePath path8 = inr intent8 -> bits (optimizeQuantization intent8) = bits8 ->
  Forall is_byte (elems original) ->
  exists t16 t8 w' f',
    round_trip env src path16 path8 w f = (inr (t16, t8), (w', f')) /\
    dtype t16 = uint16 /\ dtype t8 = uint8 /\
    elements_of w' t16
      = List.map (fun x => store Uint16Array (js_mul x (js_of_Z 257))) (elems original) /\
    elements_of w' t8 = elems original /\
    elements_of w' src = elems original.
Proof.
  intros Hlive Hd H16 Hb16 H8 Hb8 Hbytes. unfold round_trip.
  cbv [mbind M_bind bind].
  rewrite (remount_uint8_to_uint16 env src path16 intent16 w f original Hlive Hd H16 Hb16).
  cbv zeta.
  set (a16 := mkTypedArray Uint16Array _). set (t16 := mkTensor _ _ _ uint16 _ _).
  rewrite (remount_uint16_to_uint8 env t16 path8 intent8 (allocated a16 w) _ a16
             (lookup_allocated a16 w) eq_refl H8 Hb8).
  cbv zeta.
  set (a8 := mkTypedArray Uint8Array _). set (t8 := mkTensor _ _ _ uint8 _ _).
  eexists t16, t8, _, _. split; [reflexivity|].
  split; [reflexivity|]. split; [reflexivity|]. split; [|split].
  - unfold elements_of. change (data t16) with (fresh (dom (buffers w))).
    rewrite (lookup_allocated_old a8 _ _ a16 (lookup_allocated a16 w)). reflexivity.
  - unfold elements_of. change (data t8) with (fresh (dom (buffers (allocated a16 w)))).
    rewrite lookup_allocated. unfold a8, a16. cbn [elems]. rewrite List.map_map.
    clear -Hbytes. induction Hbytes as [|x l (k & Hk & ->) Hl IH]; [reflexivity|].
    cbn [List.map]. f_equal; [|exact IH]. apply (widen_and_narrow_byte k Hk).
  - unfold elements_of.
    rewrite (lookup_allocated_old a8 _ _ original (lookup_allocated_old a16 _ _ _ Hlive)).
    reflexivity.
Qed.

(** X7 on the bytes 0, 7 and 255. *)
Lemma widen_and_narrow_lossless_witness :
  let src := mkTensor "tensor_8" 1%positive 1%positive uint8
               (mkArch cnn 9 65536 speed) (mkQuant bits8 linear false) in
  let original := mkTypedArray Uint8Array [js_of_Z 0; js_of_Z 7; js_of_Z 255] in
  let w := mkWorld {[1%positive := original]} {[1%positive := [32; 32]]} 0 0 in
  exists t16 t8 w' f',
    round_trip Examples.example_env src "/models/nlp/classify" "/models/vision/realtime"
               w new_CognitiveQuantumField
      = (inr (t16, t8), (w', f')) /\
    dtype t16 = uint16 /\ dtype t8 = uint8 /\
    elements_of w' t16
      = List.map (fun x => store Uint16Array (js_mul x (js_of_Z 257))) (elems original) /\
    elements_of w' t8 = elems original /\
    elements_of w' src = elems original.
Proof.
  intros src original w.
  refine (widen_and_narrow_lossless Examples.example_env src
            "/models/nlp/classify" "/models/vision/realtime"
            (mkIntent "nlp" "classify" medium false 8)
            (mkIntent "vision" "realtime" medium true 6)
            w new_CognitiveQuantumField original eq_refl eq_refl _ eq_refl _ eq_refl _).
  - vm_compute. reflexivity.
  - vm_compute. reflexivity.
  - repeat constructor; [exists 0 | exists 7 | exists 255]; (split; [lia | reflexivity]).
Defined.

End FieldFacts.

(** ** Cosine similarity *)

Module SimilarityFacts.
Import JS Runtime PersonaAgent Hoare MemoryFacts FloatFacts RetrievalFacts.

Lemma js_mul_comm x y : js_mul x y = js_mul y x.
Proof.
  unfold js_mul, SFmul.
  destruct x as [sx|sx| |sx mx ex], y as [sy|sy| |sy my ey];
    try reflexivity; try (rewrite xorb_comm; reflexivity).
  rewrite xorb_comm, Pos.mul_comm, Z.add_comm. reflexivity.
Qed.

Lemma js_add_NaN_l y : js_add NaN y = NaN.
Proof. reflexivity. Qed.

Lemma js_add_NaN_r x : js_add x NaN = NaN.
Proof. destruct x; reflexivity. Qed.

Lemma js_mul_NaN_r x : js_mul x NaN = NaN.
Proof. destruct x; reflexivity. Qed.

Lemma js_div_NaN_l y : js_div NaN y = NaN.
Proof. reflexivity. Qed.

(** Once the dot product is [NaN] it stays [NaN]. *)
Lemma cosine_loop_NaN (a b : Float32Vector) normA normB :
  fst (fst (cosine_loop a b (NaN, normA, normB))) = NaN.
Proof.
  revert b normA normB. induction a as [|x a IH]; intros b normA normB; [reflexivity|].
  cbn [cosine_loop]. rewrite js_add_NaN_l. apply IH.
Qed.

Lemma cosine_loop_short (a b : Float32Vector) dot normA normB :
  (length b < length a)%nat ->
  fst (fst (cosine_loop a b (dot, normA, normB))) = NaN.
Proof.
  revert b dot normA normB. induction a as [|x a IH]; intros b dot normA normB Hlen.
  - cbn in Hlen. lia.
  - cbn [cosine_loop]. destruct b as [|y b].
    + rewrite js_mul_NaN_r, js_add_NaN_r. apply cosine_loop_NaN.
    + cbn [tail]. apply IH. cbn in Hlen. lia.
Qed.

(** X8. A stored vector shorter than the query reads [undefined] past its end:
    the similarity is [NaN], which exceeds no threshold. *)
Theorem cosineSimilarity_short_vector (a b : Float32Vector) (threshold : number) :
  (length b < length a)%nat ->
  cosineSimilarity a b = NaN /\ js_gt (cosineSimilarity a b) threshold = false.
Proof.
  intros Hlen.
  assert (E : cosineSimilarity a b = NaN).
  { unfold cosineSimilarity.
    pose proof (cosine_loop_short a b (js_of_Z 0) (js_of_Z 0) (js_of_Z 0) Hlen) as H.
    destruct (cosine_loop a b _) as [[dot normA] normB]. cbn [fst] in H. rewrite H.
    apply js_div_NaN_l. }
  rewrite E. split; [reflexivity | apply NaN_exceeds_nothing].
Qed.

(** X8 on a query of two elements against a stored vector of one. *)
Lemma cosineSimilarity_short_vector_witness :
  cosineSimilarity [js_of_Z 1; js_of_Z 2] [js_of_Z 1] = NaN
  /\ js_gt (cosineSimilarity [js_of_Z 1; js_of_Z 2] [js_of_Z 1]) (js_decimal 7 1) = false.
Proof. apply cosineSimilarity_short_vector. cbn. lia. Defined.

Lemma cosine_loop_swap (a b : Float32Vector) dot normA normB :
  length a = length b ->
  let '(d1, n1, m1) := cosine_loop a b (dot, normA, normB) in
  cosine_loop b a (dot, normB, normA) = (d1, m1, n1).
Proof.
  revert b dot normA normB. induction a as [|x a IH]; intros b dot normA normB Hlen.
  - destruct b; [reflexivity | discriminate].
  - destruct b as [|y b]; [discriminate|]. injection Hlen as Hlen.
    cbn [cosine_loop tail]. rewrite (js_mul_comm y x). apply IH, Hlen.
Qed.

(** X9. On two vectors of the same length the similarity does not depend on
    the order of its arguments. *)
Theorem cosineSimilarity_sym (a b : Float32Vector) :
  length a = length b -> cosineSimilarity a b = cosineSimilarity b a.
Proof.
  intros Hlen. unfold cosineSimilarity.
  pose proof (cosine_loop_swap a b (js_of_Z 0) (js_of_Z 0) (js_of_Z 0) Hlen) as H.
  destruct (cosine_loop a b _) as [[d1 n1] m1]. rewrite H.
  rewrite (js_mul_comm (Math_sqrt n1)). reflexivity.
Qed.

(** X9 on (1, 2) and (3, 5). *)
Lemma cosineSimilarity_sym_witness :
  cosineSimilarity [js_of_Z 1; js_of_Z 2] [js_of_Z 3; js_of_Z 5]
  = cosineSimilarity [js_of_Z 3; js_of_Z 5] [js_of_Z 1; js_of_Z 2].
Proof. apply cosineSimilarity_sym. reflexivity. Defined.

End SimilarityFacts.

(** ** Retrieval, self-modification and intent parsing *)

Module AgentFacts.
Import JS Runtime PersonaAgent Hoare MemoryFacts FloatFacts RetrievalFacts.

Lemma length_flat_map_le {A B} (f : A -> list B) (l : list A) :
  (forall x, length (f x) <= 1)%nat -> (length (List.flat_map f l) <= length l)%nat.
Proof.
  intros Hf. induction l as [|x l IH]; [reflexivity|].
  cbn [List.flat_map]. rewrite length_app. specialize (Hf x). cbn [length]. lia.
Qed.

Lemma candidates_length a q :
  (length (candidates a q) <= JSMap.size (embeddings (ragMemory a)))%nat.
Proof.
  unfold candidates, JSMap.size, JSMap.entries. apply length_flat_map_le.
  intros [key embedding]. cbn [candidate]. destruct (js_gt _ _); cbn; lia.
Qed.

Lemma slice_to_all {A} (l : list A) (end_ : Z) :
  Z.of_nat (length l) <= end_ -> slice_to l end_ = l.
Proof.
  intros H. unfold slice_to. destruct (Z.ltb_spec end_ 0); [lia|].
  apply take_ge. lia.
Qed.

(** X10. A retrieval changes nothing but the count of random draws (384 for
    the query embedding): the agent and the heap are as they were.  Each
    result is labelled by [getEmbeddingSource] of its key.  When [maxResults]
    is at least the number of stored embeddings nothing is cut: every stored
    entry whose similarity exceeds the threshold is among the results. *)
Theorem retrieveFromRAG_complete env (query : string) (maxResults : Z)
    (w : World) (a : Agent) :
  exists results queryEmbedding,
    retrieveFromRAG env query maxResults w a
      = (inr (results, queryEmbedding), (drawn 384 w, a)) /\
    length queryEmbedding = 384%nat /\
    Forall (fun r => source r = getEmbeddingSource (retrieved_content r)) results /\
    (Z.of_nat (JSMap.size (embeddings (ragMemory a))) <= maxResults ->
     forall key embedding,
       (key, embedding) ∈ JSMap.entries (embeddings (ragMemory a)) ->
       js_gt (cosineSimilarity queryEmbedding embedding)
             (retrievalThreshold (ragMemory a)) = true ->
       {| retrieved_content := key;
          relevance := cosineSimilarity queryEmbedding embedding;
          source := getEmbeddingSource key |} ∈ results).
Proof.
  rewrite retrieveFromRAG_returns. eexists _, _. split; [reflexivity|].
  split; [|split].
  - unfold embedding_from. rewrite !length_map, length_seq. reflexivity.
  - apply Forall_forall. intros r Hr. apply retrieved_spec in Hr.
    apply candidates_spec in Hr as (key & embedding & _ & -> & _). reflexivity.
  - intros Hmax key embedding Hin Hgt.
    set (q := embedding_from env (draws w)) in *.
    rewrite slice_to_all.
    + rewrite Array_sort_perm. unfold candidates.
      apply list_elem_of_In, in_flat_map. exists (key, embedding).
      split; [apply list_elem_of_In, Hin|]. cbn [candidate]. rewrite Hgt. left. reflexivity.
    + rewrite (Permutation_length (Array_sort_perm _ _)).
      pose proof (candidates_length a q). lia.
Qed.

Lemma SFltb_asym x y : SFltb x y = true -> SFltb y x = false.
Proof.
  unfold SFltb, SFcompare.
  destruct x as [sx|sx| |sx mx ex], y as [sy|sy| |sy my ey];
    try discriminate; try reflexivity;
    try (destruct sx; try discriminate; reflexivity);
    try (destruct sy; try discriminate; reflexivity);
    try (destruct sx, sy; try discriminate; reflexivity).
  destruct sx, sy; try discriminate; try reflexivity;
    rewrite (Z.compare_antisym ex ey);
    change (Pos.compare_cont Eq my mx) with (Pos.compare my mx);
    change (Pos.compare_cont Eq mx my) with (Pos.compare mx my);
    rewrite (Pos.compare_antisym mx my);
    destruct (ex ?= ey); cbn [CompOpp]; try discriminate; try reflexivity;
    destruct (mx ?= my)%positive; cbn [CompOpp]; try discriminate; reflexivity.
Qed.

Lemma Math_min_1_capped y : js_gt (Math_min (js_of_Z 1) y) (js_of_Z 1) = false.
Proof.
  unfold Math_min. change (is_NaN (js_of_Z 1)) with false. cbn [orb].
  destruct (is_NaN y); [reflexivity|].
  change (js_of_Z 1) with (S754_finite false 4503599627370496 (-52)).
  cbv iota. destruct (js_lt y _) eqn:E; [|reflexivity].
  unfold js_gt. unfold js_lt in E. apply SFltb_asym, E.
Qed.

(** X11. With the performance [analyzePerformance] reports, a
    self-modification pass always returns the same report: no tensor update
    and the one trait adaptation [creativity: increased].  It replaces
    [creativity] by [Math.min(1, creativity * 1.05)], which never exceeds 1
    (the report says [increased] also when the cap holds it back), and leaves
    the other traits, the rest of the agent and the heap as they were. *)
Theorem performSelfModification_caps_creativity (w : World) (a : Agent) :
  let capped := Math_min (js_of_Z 1) (js_mul (creativity (traits a)) (js_decimal 105 2)) in
  performSelfModification w a
    = (inr (analyzePerformance, [], [("creativity", "increased")]%string),
       (w, with_traits (set_creativity capped) a))
  /\ js_gt capped (js_of_Z 1) = false.
Proof.
  split; [reflexivity | apply Math_min_1_capped].
Qed.

(** X12. The intent [parseIntentToCognitive] reads from a message has a
    complexity between 5 and 13, is never realtime, and has a complexity above
    6 whenever its task is ['creation'] or its domain is ['development']: in
    [processIntent] the complexity test of the Decide phase never refuses a
    spawn. *)
Theorem parseIntentToCognitive_range (intent : string) :
  let c := parseIntentToCognitive intent in
  5 <= N9ml.complexity c <= 13
  /\ N9ml.realtime c = false
  /\ (N9ml.task c = "creation"%string \/ N9ml.domain c = "development"%string ->
      6 < N9ml.complexity c)
  /\ (N9ml.precision c = N9ml.high <-> N9ml.task c = "analysis"%string).
Proof.
  unfold parseIntentToCognitive. cbv zeta.
  destruct (includes _ "create" || includes _ "build"),
    (includes _ "analyze" || includes _ "understand"),
    (includes _ "app" || includes _ "website"),
    (includes _ "ai" || includes _ "machine learning");
    cbn [N9ml.complexity N9ml.realtime N9ml.task N9ml.domain N9ml.precision];
    (split; [lia|]; split; [reflexivity|]; split;
     [intros [H|H]; first [lia | discriminate H] | split; intros H; first [reflexivity | discriminate H]]).
Qed.

(** X13. The dependencies of the technologies [inferTechnologies] picks: the
    two React packages exactly for the domain ['development'], the
    TensorFlow.js package exactly for the domain ['ai'], and never Express;
    TypeScript and Node.js always come first. *)
Theorem generateDependencies_of_inferTechnologies (intent : N9ml.CognitiveIntent) :
  generateDependencies (inferTechnologies intent) =
    (if String.eqb (N9ml.domain intent) "development"
     then [("react", "^18.0.0"); ("react-dom", "^18.0.0")]%string
     else if String.eqb (N9ml.domain intent) "ai"
     then [("@tensorflow/tfjs", "^4.0.0")]%string
     else [])
  /\ take 2 (inferTechnologies intent) = ["typescript"; "node.js"]%string.
Proof.
  unfold inferTechnologies. cbv zeta.
  destruct (String.eqb_spec (N9ml.domain intent) "development") as [E|_].
  - rewrite E. change (String.eqb "development" "ai") with false. split; reflexivity.
  - destruct (String.eqb (N9ml.domain intent) "ai"); split; reflexivity.
Qed.

End AgentFacts.

(** ** How [processIntent] ends *)

Module ProcessFacts.
Import JS Runtime PersonaAgent Hoare MemoryFacts FloatFacts RetrievalFacts AdaptationFacts.

(** How a call ends: it returns, or it throws [RecursionLimitError] for a
    recursion depth that admits no spawn at all. *)
Definition returns_or_limit {A} (depth : Z) (out : (error + A) * (World * Agent)) : Prop :=
  match out with
  | (inr _, (_, a')) => recursionDepth (traits a') = depth
  | (inl e, (_, a')) =>
      e = RecursionLimitError depth /\ depth <= 0 /\ recursionDepth (traits a') = depth
  end.

Lemma spawnRepository_outcome env request w a :
  recursionLevel request = 0 ->
  returns_or_limit (recursionDepth (traits a)) (spawnRepository env request w a).
Proof.
  intros Hlevel. destruct (Z.le_gt_cases (recursionDepth (traits a)) 0) as [Hle|Hgt].
  - unfold spawnRepository. cbv [mbind M_bind bind this].
    destruct (Z.leb_spec (recursionDepth (traits a)) (recursionLevel request)); [|lia].
    cbn. auto.
  - destruct (spawnRepository_returns env request w a ltac:(lia))
      as (result & w' & a' & -> & H).
    cbn. destruct H as (_ & _ & _ & _ & _ & _ & _ & _ & Ht & _). rewrite Ht. reflexivity.
Qed.

Lemma spawn_each_outcome env requests text done w a :
  Forall (fun r => recursionLevel r = 0) requests ->
  returns_or_limit (recursionDepth (traits a)) (spawn_each env requests text done w a).
Proof.
  intros Hall. revert text done w a.
  induction Hall as [|request rest Hr Hrest IH]; intros text done w a.
  - reflexivity.
  - cbn [spawn_each]. cbv [mbind M_bind bind].
    pose proof (spawnRepository_outcome env request w a Hr) as H.
    destruct (spawnRepository env request w a) as [[e|result] [w1 a1]]; cbn in H.
    + exact H.
    + rewrite <- H. apply IH.
Qed.

Lemma updateRAGMemory_total env text w a :
  exists u w' a',
    updateRAGMemory env text w a = (inr u, (w', a')) /\ traits a' = traits a.
Proof.
  unfold updateRAGMemory. destruct (String.eqb text "").
  - eexists _, _, _. split; reflexivity.
  - cbv [mbind M_bind bind]. rewrite generateEmbedding_returns.
    cbv [now assign mret M_ret ret]. eexists _, _, _. split; reflexivity.
Qed.

Lemma executeDecision_outcome env decision w a :
  Forall (fun r => recursionLevel r = 0) (spawnRequests decision) ->
  returns_or_limit (recursionDepth (traits a)) (executeDecision env decision w a).
Proof.
  intros Hall. unfold executeDecision. cbv [mbind M_bind bind now].
  destruct (shouldSpawnRepo decision).
  - set (w0 := mkWorld _ _ _ _).
    pose proof (spawn_each_outcome env (spawnRequests decision) "" [] w0 a Hall) as H.
    destruct (spawn_each env _ _ _ w0 a) as [[e|[text done]] [w1 a1]]; cbn in H; [exact H|].
    destruct (updateRAGMemory_total env text w1 a1) as (u & w2 & a2 & -> & Ht).
    cbn. rewrite Ht. exact H.
  - unfold generateDirectResponse. cbv [mbind M_bind bind this mret M_ret ret].
    set (text := (_ +:+ _)%string). set (w0 := mkWorld _ _ _ _).
    destruct (updateRAGMemory_total env text w0 a) as (u & w2 & a2 & -> & Ht).
    cbn. rewrite Ht. reflexivity.
Qed.

Lemma decideResponseStrategy_requests env cognitiveIntent w a :
  exists decision w' a',
    decideResponseStrategy env cognitiveIntent w a = (inr decision, (w', a'))
    /\ traits a' = traits a
    /\ Forall (fun r => recursionLevel r = 0) (spawnRequests decision).
Proof.
  unfold decideResponseStrategy. cbv [mbind M_bind bind now this assign mret M_ret ret].
  eexists _, _, _. split; [reflexivity|]. split; [reflexivity|].
  destruct (_ && _ && _); cbn [spawnRequests app]; repeat constructor.
Qed.

Lemma observe_to_act_outcome env intent context w a :
  returns_or_limit (recursionDepth (traits a)) (observe_to_act env intent context w a).
Proof.
  unfold observe_to_act. cbv zeta. cbv [mbind M_bind bind now assign].
  set (w0 := mkWorld _ _ _ _). set (a0 := with_oodaLoop _ a).
  destruct (orientCognitiveModel_spec env (parseIntentToCognitive intent) context w0 a0)
    as (w1 & a1 & -> & _ & Ht1 & _).
  destruct (decideResponseStrategy_requests env (parseIntentToCognitive intent) w1 a1)
    as (decision & w2 & a2 & -> & Ht2 & Hall).
  pose proof (executeDecision_outcome env decision w2 a2 Hall) as H.
  rewrite Ht2, Ht1 in H. exact H.
Qed.

Lemma processIntent_outcome env intent context w a :
  returns_or_limit (recursionDepth (traits a)) (processIntent env intent context w a).
Proof.
  rewrite processIntent_phases. cbv [mbind M_bind bind].
  pose proof (observe_to_act_outcome env intent context w a) as H.
  destruct (observe_to_act env intent context w a) as [[e|result] [w1 a1]]; cbn in H.
  - exact H.
  - destruct (adaptSelfModel_returns env result w1 a1) as (adaptations & w2 & ->).
    cbn. exact H.
Qed.


End ProcessFacts.

(** ** Spawning and construction *)

Module SpawnFacts.
Import JS Runtime PersonaAgent Hoare MemoryFacts.

(** X15. A spawn below the recursion limit returns an artifact named after the
    new repository whose files are [package.json], [README.md] and the one or
    two source files of the requested architecture (two exactly for
    ['fullstack']); the extension it returns holds, under
    ["repo:<id>:intent"], the very embedding the memory now holds under
    ["repo:<id>"].  The call reads the clock twice and draws 769 random
    numbers; the heap arrays, the OODA record and the persona tensors are as
    they were. *)
Theorem spawnRepository_artifact env (request : RepoSpawnRequest) (w : World) (a : Agent) :
  recursionLevel request < recursionDepth (traits a) ->
  exists result w' a',
    spawnRepository env request w a = (inr result, (w', a'))
    /\ artifact_id (boltArtifact result) = repoId result
    /\ List.map filePath (actions (boltArtifact result))
       = "package.json"%string :: "README.md"%string
         :: List.map filePath (generateArchitectureFiles request)
    /\ (length (actions (boltArtifact result))
        = if match architecture request with fullstack => true | _ => false end
          then 4%nat else 3%nat)
    /\ JSMap.get (extension_embeddings (ragExtension result))
                 ("repo:" +:+ repoId result +:+ ":intent")
       = embedding a' ("repo:" +:+ repoId result)
    /\ buffers w' = buffers w /\ arrays w' = arrays w
    /\ ticks w' = (ticks w + 2)%nat /\ draws w' = (draws w + 769)%nat
    /\ oodaLoop a' = oodaLoop a /\ personaTensors a' = personaTensors a
    /\ selfModel a' = selfModel a.
Proof.
  intros Hlevel.
  unfold spawnRepository, mbind, M_bind, bind, this. cbv beta iota.
  destruct (Z.leb_spec (recursionDepth (traits a)) (recursionLevel request)); [lia|].
  unfold now at 1, random at 1. cbv beta iota.
  unfold createBoltArtifact, generatePackageJson, mbind, M_bind, bind, now at 1.
  cbv beta iota. unfold mret at 1 2, M_ret at 1 2, ret at 1 2. cbv beta iota.
  unfold createRAGExtension, updateSelfModelFromSpawning, mbind, M_bind, bind.
  rewrite !generateEmbedding_returns. cbv beta iota.
  unfold assign, mret, M_ret, ret. cbv beta iota.
  rewrite !generateEmbedding_returns. cbv beta iota.
  eexists _, _, _. split; [reflexivity|].
  cbn [repoId boltArtifact ragExtension artifact_id actions extension_embeddings
       with_spawnedRepos with_ragMemory ragMemory embeddings set_embedding
       set_semanticGraph oodaLoop personaTensors selfModel
       buffers arrays ticks draws drawn List.map filePath length].
  split; [reflexivity|]. split; [reflexivity|]. split.
  { unfold generateArchitectureFiles. destruct (architecture request); reflexivity. }
  split.
  { rewrite get_set_eq. rewrite get_set_ne.
    - rewrite get_set_eq. reflexivity.
    - intros E. apply (f_equal String.length) in E.
      rewrite !RemountFacts.length_append in E. cbn [String.length] in E. lia. }
  repeat split; lia.
Qed.

(** X15 on a fullstack request of level 0, for an agent of depth 3. *)
Lemma spawnRepository_artifact_witness :
  exists result w' a',
    spawnRepository Examples.example_env
      (mkRequest "Create repository for development creation"
                 ["typescript"; "node.js"; "react"; "vite"]%string fullstack None 0)
      empty_world (Examples.bare_agent Examples.example_traits)
      = (inr result, (w', a'))
    /\ List.map filePath (actions (boltArtifact result))
       = ["package.json"; "README.md"; "src/App.tsx"; "src/server.ts"]%string
    /\ ticks w' = 2%nat /\ draws w' = 769%nat.
Proof.
  destruct (spawnRepository_artifact Examples.example_env
              (mkRequest "Create repository for development creation"
                 ["typescript"; "node.js"; "react"; "vite"]%string fullstack None 0)
              empty_world (Examples.bare_agent Examples.example_traits))
    as (result & w' & a' & E & _ & Hfiles & _ & _ & _ & _ & Ht & Hd & _).
  { cbn. lia. }
  exists result, w', a'. split; [exact E|]. split; [exact Hfiles|]. split; assumption.
Defined.

End SpawnFacts.

Module ConstructorFacts.
Import JS Runtime N9ml PersonaAgent Hoare FieldFacts.

(** What the constructor's five paths select. *)
Definition persona_quantization : QuantizationStrategy := mkQuant bits16 dynamic true.
Definition persona_architecture : Architecture := mkArch transformer 7 (2 ^ 15) memory.

Lemma mount_persona env (task : string) (path : string) w f :
  parsePath path = inr (mkIntent "persona" task medium false 5) ->
  includes task "time" = false ->
  exists t w',
    mount env path w f = (inr t, (w', set_mounted path t f)) /\
    (dtype t = uint16 /\
     quantization t = persona_quantization /\
     N9ml.architecture t = persona_architecture /\
     exists arr, buffers w' !! data t = Some arr /\ length (elems arr) = 1024%nat) /\
    (forall l arr, buffers w !! l = Some arr -> buffers w' !! l = Some arr) /\
    ticks w' = S (ticks w) /\ draws w' = (draws w + 1025)%nat.
Proof.
  intros Hp Htime. pose proof (mount_returns env path w f) as H. rewrite Hp in H.
  cbv zeta in H.
  destruct H as (t & w' & Hr & Hq & Ha & Hd & _ & Hb & _ & _ & Hframe & _ & Ht & Hn).
  exists t, w'. split; [exact Hr|]. split; [|split; [exact Hframe | split; assumption]].
  split; [exact Hd|]. split; [exact Hq|]. split; [|exact Hb].
  rewrite Ha. unfold collapseQuantumField. cbn [domain N9ml.task realtime complexity].
  rewrite Htime. reflexivity.
Qed.

Local Abbreviation persona_tensor w t :=
  (dtype t = uint16
   /\ quantization t = persona_quantization
   /\ N9ml.architecture t = persona_architecture
   /\ exists arr, buffers w !! data t = Some arr /\ length (elems arr) = 1024%nat).

Lemma persona_tensor_frame (w w' : World) (t : Tensor) :
  (forall l arr, buffers w !! l = Some arr -> buffers w' !! l = Some arr) ->
  persona_tensor w t -> persona_tensor w' t.
Proof.
  intros Hframe (Hd & Hq & Ha & arr & Hb & Hlen).
  split; [exact Hd|]. split; [exact Hq|]. split; [exact Ha|].
  exists arr. split; [apply Hframe, Hb | exact Hlen].
Qed.

(** X16. The constructor always returns.  The agent it builds has the traits
    it was given, an empty memory with retrieval threshold 0.7, an empty
    registry of spawned repositories and an empty OODA record; its field
    holds exactly the five persona paths, each bound to the tensor the agent
    keeps for it, and each of the five tensors is a uint16 tensor of 1024
    elements with 16-bit dynamic quantization and a 7-layer transformer
    architecture optimized for memory. *)
Theorem new_GGMLPersonaAgent_constructs env (traits0 : PersonaTraits) (w : World) :
  exists a w',
    new_GGMLPersonaAgent env traits0 w = (inr a, w')
    /\ traits a = traits0
    /\ ragMemory a = mkRAG JSMap.empty [] JSMap.empty (js_decimal 7 1)
    /\ spawnedRepos a = JSMap.empty
    /\ oodaLoop a = mkOODA None None None None
    /\ mountedTensors (quantumField a)
       = <["/persona/self/meta"%string := selfModel a]>
           (<["/persona/autonomy/recursive"%string := autonomyCore (personaTensors a)]>
              (<["/persona/task/bolt"%string := taskOrchestrator (personaTensors a)]>
                 (<["/persona/memory/rag"%string := memoryKernel (personaTensors a)]>
                    (<["/persona/cognitive/modules"%string
                         := cognitiveModules (personaTensors a)]> ∅))))
    /\ Forall (fun t => persona_tensor w' t)
              [cognitiveModules (personaTensors a); memoryKernel (personaTensors a);
               taskOrchestrator (personaTensors a); autonomyCore (personaTensors a);
               selfModel a]
    /\ ticks w' = (ticks w + 5)%nat /\ draws w' = (draws w + 5 * 1025)%nat.
Proof.
  unfold new_GGMLPersonaAgent. cbv zeta. cbv [mbind M_bind bind].
  destruct (mount_persona env "cognitive" "/persona/cognitive/modules" w
              new_CognitiveQuantumField ltac:(vm_compute; reflexivity) eq_refl)
    as (t1 & w1 & -> & P1 & F1 & T1 & D1).
  destruct (mount_persona env "memory" "/persona/memory/rag" w1
              (set_mounted "/persona/cognitive/modules" t1 new_CognitiveQuantumField)
              ltac:(vm_compute; reflexivity) eq_refl)
    as (t2 & w2 & -> & P2 & F2 & T2 & D2).
  destruct (mount_persona env "task" "/persona/task/bolt" w2
              (set_mounted "/persona/memory/rag" t2
                 (set_mounted "/persona/cognitive/modules" t1 new_CognitiveQuantumField))
              ltac:(vm_compute; reflexivity) eq_refl)
    as (t3 & w3 & -> & P3 & F3 & T3 & D3).
  destruct (mount_persona env "autonomy" "/persona/autonomy/recursive" w3
              (set_mounted "/persona/task/bolt" t3
                 (set_mounted "/persona/memory/rag" t2
                    (set_mounted "/persona/cognitive/modules" t1
                       new_CognitiveQuantumField)))
              ltac:(vm_compute; reflexivity) eq_refl)
    as (t4 & w4 & -> & P4 & F4 & T4 & D4).
  destruct (mount_persona env "self" "/persona/self/meta" w4
              (set_mounted "/persona/autonomy/recursive" t4
                 (set_mounted "/persona/task/bolt" t3
                    (set_mounted "/persona/memory/rag" t2
                       (set_mounted "/persona/cognitive/modules" t1
                          new_CognitiveQuantumField))))
              ltac:(vm_compute; reflexivity) eq_refl)
    as (t5 & w5 & -> & P5 & F5 & T5 & D5).
  cbv [this mret M_ret ret].
  eexists _, _. split; [reflexivity|].
  cbn [traits ragMemory spawnedRepos oodaLoop quantumField personaTensors selfModel
       cognitiveModules memoryKernel taskOrchestrator autonomyCore].
  repeat (split; [reflexivity|]).
  split; [|lia].
  constructor; [|constructor; [|constructor; [|constructor; [|constructor; [|constructor]]]]].
  - apply (persona_tensor_frame w1); [|exact P1]. eauto.
  - apply (persona_tensor_frame w2); [|exact P2]. eauto.
  - apply (persona_tensor_frame w3); [|exact P3]. eauto.
  - apply (persona_tensor_frame w4); [|exact P4]. eauto.
  - exact P5.
Qed.

End ConstructorFacts.

(** ** What [processIntent] reports *)

Module MessageFacts.
Import JS Runtime PersonaAgent Hoare MemoryFacts ProcessFacts.

(** X17. For the intent read from a message, [inferArchitecture] never answers
    ['backend'] (no task [parseIntentToCognitive] assigns contains ['api'] or
    ['server']): it answers ['ai-agent'] for the domain ['ai'], otherwise
    ['fullstack'] when the complexity exceeds 7, otherwise ['frontend'].  So a
    repository spawned by [processIntent] gets [src/server.ts] only together
    with [src/App.tsx]. *)
Theorem inferArchitecture_of_message (intent : string) :
  let c := parseIntentToCognitive intent in
  inferArchitecture c =
    (if String.eqb (N9ml.domain c) "ai" then ai_agent
     else if 7 <? N9ml.complexity c then fullstack
     else frontend)
  /\ inferArchitecture c <> backend.
Proof.
  unfold parseIntentToCognitive. cbv zeta.
  destruct (includes _ "create" || includes _ "build"),
    (includes _ "analyze" || includes _ "understand"),
    (includes _ "app" || includes _ "website"),
    (includes _ "ai" || includes _ "machine learning");
    (split; [reflexivity | discriminate]).
Qed.

Lemma length_nonempty (s : string) : (0 < String.length s)%nat -> s <> ""%string.
Proof. intros H ->. cbn in H. lia. Qed.

(** The loop of [executeDecision]: every request is spawned and listed, and
    each adds a line of at least 21 characters to the response. *)
Lemma spawn_each_returns env requests text done w a text' out w' a' :
  spawn_each env requests text done w a = (inr (text', out), (w', a')) ->
  out = Some (done ++ requests)
  /\ (String.length text + 21 * length requests <= String.length text')%nat.
Proof.
  revert text done w a. induction requests as [|request rest IH]; intros text done w a.
  - cbn [spawn_each]. cbv [mret M_ret ret]. intros E. injection E as <- <- _ _.
    rewrite app_nil_r. split; [reflexivity | cbn; lia].
  - cbn [spawn_each]. cbv [mbind M_bind bind].
    destruct (spawnRepository env request w a) as [[e|result] [w1 a1]]; [discriminate|].
    intros E. apply IH in E as [-> Hlen]. split.
    + rewrite <- app_assoc. reflexivity.
    + rewrite !RemountFacts.length_append in Hlen. cbn [String.length length] in *. lia.
Qed.

Lemma executeDecision_returns env decision w a result w' a' :
  executeDecision env decision w a = (inr result, (w', a')) ->
  (shouldSpawnRepo decision = true -> spawnRequests decision <> []) ->
  memoryUpdates result = mkMemoryUpdates 1 0 0
  /\ result_spawnedRepos result
     = (if shouldSpawnRepo decision then Some (spawnRequests decision) else None)
  /\ act (oodaLoop a') = Some result.
Proof.
  unfold executeDecision. cbv [mbind M_bind bind now].
  set (w0 := mkWorld _ _ _ _). destruct (shouldSpawnRepo decision).
  - intros E Hne. specialize (Hne eq_refl).
    destruct (spawn_each env _ _ _ w0 a) as [[e|[text done]] [w1 a1]] eqn:Es; [discriminate|].
    apply spawn_each_returns in Es as [-> Hlen].
    assert (Htext : text <> ""%string).
    { apply length_nonempty. destruct (spawnRequests decision); [contradiction|].
      cbn [length] in Hlen. lia. }
    destruct (updateRAGMemory_returns env text w1 a1 Htext) as (w2 & a2 & Eu & _).
    rewrite Eu in E. cbv [assign mret M_ret ret] in E. injection E as <- _ <-.
    repeat split.
  - intros E _. unfold generateDirectResponse in E.
    cbv [mbind M_bind bind this mret M_ret ret] in E.
    set (text := (_ +:+ _)%string) in E.
    assert (Htext : text <> ""%string).
    { apply length_nonempty. unfold text. rewrite RemountFacts.length_append.
      destruct (js_gt (precision _) _), (js_gt (creativity _) _);
        rewrite ?RemountFacts.length_append; cbn [String.length]; lia. }
    destruct (updateRAGMemory_returns env text w0 a Htext) as (w2 & a2 & Eu & _).
    rewrite Eu in E. cbv [assign] in E. injection E as <- _ <-.
    repeat split.
Qed.

Lemma decideResponseStrategy_spawning env cognitiveIntent w a :
  exists decision w' a',
    decideResponseStrategy env cognitiveIntent w a = (inr decision, (w', a'))
    /\ traits a' = traits a
    /\ shouldSpawnRepo decision
       = boltIntegration (traits a)
         && (String.eqb (N9ml.task cognitiveIntent) "creation"
             || String.eqb (N9ml.domain cognitiveIntent) "development")
         && (6 <? N9ml.complexity cognitiveIntent)
    /\ (shouldSpawnRepo decision = true ->
        exists request,
          spawnRequests decision = [request]
          /\ recursionLevel request = 0
          /\ technologies request = inferTechnologies cognitiveIntent
          /\ architecture request = inferArchitecture cognitiveIntent).
Proof.
  unfold decideResponseStrategy. cbv [mbind M_bind bind now this assign mret M_ret ret].
  eexists _, _, _. split; [reflexivity|]. split; [reflexivity|].
  destruct (_ && _ && _); cbn [shouldSpawnRepo spawnRequests app]; split;
    try reflexivity; try discriminate.
  intros _. eexists. split; [reflexivity|]. repeat split.
Qed.

Lemma parseIntentToCognitive_spawnable (intent : string) :
  let c := parseIntentToCognitive intent in
  String.eqb (N9ml.task c) "creation" || String.eqb (N9ml.domain c) "development" = true ->
  (6 <? N9ml.complexity c) = true.
Proof.
  unfold parseIntentToCognitive. cbv zeta.
  destruct (includes _ "create" || includes _ "build"),
    (includes _ "analyze" || includes _ "understand"),
    (includes _ "app" || includes _ "website"),
    (includes _ "ai" || includes _ "machine learning");
    cbn; intros H; first [reflexivity | discriminate H].
Qed.

(** X18. Every call of [processIntent] that returns reports exactly one new
    embedding (the response is never empty) and records its result as the
    Act phase of the OODA record.  It reports spawned repositories exactly
    when Bolt integration is on and the message asks for a creation or
    concerns development, and then exactly one, of recursion level 0, with the
    technologies and architecture inferred from the message; otherwise
    [spawnedRepos] is left undefined. *)
Theorem processIntent_result env (intent : string) (context : list string)
    (w w' : World) (a a' : Agent) (result : IntentResult) :
  processIntent env intent context w a = (inr result, (w', a')) ->
  let c := parseIntentToCognitive intent in
  let spawns :=
    boltIntegration (traits a)
    && (String.eqb (N9ml.task c) "creation" || String.eqb (N9ml.domain c) "development") in
  result_memoryUpdates result = mkMemoryUpdates 1 0 0
  /\ (exists executed,
        act (oodaLoop a') = Some executed /\ response executed = result_response result)
  /\ (if spawns
      then exists request,
             spawned result = Some [request]
             /\ recursionLevel request = 0
             /\ technologies request = inferTechnologies c
             /\ architecture request = inferArchitecture c
      else spawned result = None).
Proof.
  rewrite processIntent_phases. cbv [mbind M_bind bind].
  destruct (observe_to_act env intent context w a) as [[e|executed] [w1 a1]] eqn:Eo;
    [discriminate|].
  destruct (AdaptationFacts.adaptSelfModel_returns env executed w1 a1)
    as (adaptations & w2 & ->).
  cbv [mret M_ret ret]. intros E. injection E as <- <- <-. cbv zeta.
  cbn [result_memoryUpdates result_response spawned oodaLoop with_traits].
  unfold observe_to_act in Eo. cbv zeta in Eo. cbv [mbind M_bind bind now assign] in Eo.
  set (w0 := mkWorld _ _ _ _) in Eo. set (a0 := with_oodaLoop _ a) in Eo.
  destruct (orientCognitiveModel_spec env (parseIntentToCognitive intent) context w0 a0)
    as (w3 & a3 & Er & _ & Ht3 & _).
  rewrite Er in Eo.
  destruct (decideResponseStrategy_spawning env (parseIntentToCognitive intent) w3 a3)
    as (decision & w4 & a4 & Ed & Ht4 & Hs & Hreq).
  rewrite Ed in Eo.
  apply executeDecision_returns in Eo as (Hm & Hsp & Hact).
  - split; [exact Hm|]. split; [exists executed; split; [exact Hact | reflexivity]|].
    rewrite Hsp. rewrite Ht3 in Hs. change (traits a0) with (traits a) in Hs.
    pose proof (parseIntentToCognitive_spawnable intent) as Hc. cbv zeta in Hc.
    destruct (boltIntegration (traits a)); cbn [andb] in Hs |- *.
    + destruct (String.eqb _ "creation" || String.eqb _ "development") eqn:Ec;
        cbn [andb] in Hs.
      * rewrite (Hc eq_refl) in Hs. rewrite Hs.
        destruct (Hreq Hs) as (request & -> & Hl & Htech & Harch). eauto.
      * rewrite Hs. reflexivity.
    + rewrite Hs. reflexivity.
  - intros Htrue. destruct (Hreq Htrue) as (request & -> & _). discriminate.
Qed.

(** X18 on the message ["build an app"], for an agent with Bolt integration. *)
Lemma processIntent_result_witness :
  match processIntent Examples.example_env "build an app" [] empty_world
                      (Examples.bare_agent Examples.example_traits) with
  | (inr result, _) =>
      result_memoryUpdates result = mkMemoryUpdates 1 0 0
      /\ exists request,
           spawned result = Some [request]
           /\ recursionLevel request = 0
           /\ technologies request = ["typescript"; "node.js"; "react"; "vite"]%string
           /\ architecture request = fullstack
  | (inl _, _) => False
  end.
Proof.
  destruct (processIntent Examples.example_env "build an app" [] empty_world
              (Examples.bare_agent Examples.example_traits))
    as [[e|result] [w' a']] eqn:E.
  - pose proof (processIntent_outcome Examples.example_env "build an app" [] empty_world
                  (Examples.bare_agent Examples.example_traits)) as H.
    rewrite E in H. destruct H as (_ & Hle & _). cbn in Hle. lia.
  - destruct (processIntent_result _ _ _ _ _ _ _ _ E) as (Hm & _ & Hs).
    split; [exact Hm|]. cbv zeta in Hs.
    assert (C : boltIntegration (traits (Examples.bare_agent Examples.example_traits))
                && (String.eqb (N9ml.task (parseIntentToCognitive "build an app")) "creation"
                    || String.eqb (N9ml.domain (parseIntentToCognitive "build an app"))
                                  "development") = true)
      by (vm_compute; reflexivity).
    rewrite C in Hs.
    destruct Hs as (request & Hs & Hl & Htech & Harch).
    exists request. split; [exact Hs|]. split; [exact Hl|].
    split; [rewrite Htech | rewrite Harch]; vm_compute; reflexivity.
Defined.

End MessageFacts.

(** ** The draws of the Orient phase *)

Module OrientFacts.
Import JS Runtime PersonaAgent Hoare MemoryFacts.

(** The embeddings [Promise.all(context.map(...))] collects, from the draws
    they come from. *)
Definition batch (env : Env) (d n : nat) : list Float32Vector :=
  List.map (fun i => embedding_from env (d + 384 * i)) (seq 0 n).

Lemma map_all_batch env {S} (context : list string) w (s : S) :
  map_all (generateEmbedding env) context w s
  = (inr (batch env (draws w) (length context)),
     (drawn (384 * length context) w, s)).
Proof.
  revert w. induction context as [|c context IH]; intros w.
  - cbn [map_all length]. cbv [mret M_ret ret drawn batch]. cbn [seq List.map].
    destruct w; cbn. do 3 f_equal. lia.
  - cbn [map_all length]. cbv [mbind M_bind bind]. rewrite generateEmbedding_returns, IH.
    cbv [mret M_ret ret]. f_equal.
    + f_equal. unfold batch. cbn [seq List.map]. f_equal.
      * f_equal. lia.
      * rewrite <- seq_shift, List.map_map. apply List.map_ext. intros i.
        cbn [drawn draws]. f_equal. lia.
    + f_equal. unfold drawn. cbn [buffers arrays ticks draws]. f_equal. lia.
Qed.

(** The insertion loop: the [i]-th string gets the embedding drawn [384 * i]
    draws after the loop started, and keeps it unless it comes again later. *)
Lemma orient_insert_draws env (context : list string) w a :
  exists w' a',
    for_of context (fun contextItem =>
        e ← generateEmbedding env contextItem;
        _ ← assign (with_ragMemory (set_embedding contextItem e));
        assign (with_ragMemory (push_context contextItem))) w a
      = (inr tt, (w', a'))
    /\ w' = drawn (384 * length context) w
    /\ window a' = window a ++ context
    /\ oodaLoop a' = oodaLoop a
    /\ (forall i k, context !! i = Some k -> k ∉ drop (S i) context ->
          embedding a' k = Some (embedding_from env (draws w + 384 * i))).
Proof.
  apply (for_of_invariant
    (fun visited w' a' =>
       w' = drawn (384 * length visited) w
       /\ window a' = window a ++ visited
       /\ oodaLoop a' = oodaLoop a
       /\ (forall i k, visited !! i = Some k -> k ∉ drop (S i) visited ->
             embedding a' k = Some (embedding_from env (draws w + 384 * i))))).
  - split; [|split; [|split]].
    + unfold drawn. destruct w; cbn. f_equal. lia.
    + rewrite app_nil_r. reflexivity.
    + reflexivity.
    + intros i k H. discriminate.
  - intros visited x w1 a1 (Hw & Hwin & Ho & Hemb).
    cbv [mbind M_bind bind]. rewrite generateEmbedding_returns.
    cbv [assign]. eexists _, _. split; [reflexivity|].
    cbn [with_ragMemory ragMemory push_context set_embedding contextWindow embeddings
         oodaLoop].
    split; [|split; [|split]].
    + rewrite Hw, length_app. unfold drawn. cbn [buffers arrays ticks draws length].
      f_equal. lia.
    + rewrite Hwin, <- app_assoc. reflexivity.
    + exact Ho.
    + intros i k Hi Hlast.
      destruct (Nat.lt_ge_cases i (length visited)) as [Hlt|Hge].
      * rewrite lookup_app_l in Hi by exact Hlt.
        rewrite drop_app_le in Hlast by lia.
        apply not_elem_of_app in Hlast as [Hlast Hx].
        rewrite get_set_ne by (intros ->; apply Hx; constructor).
        apply Hemb; assumption.
      * rewrite lookup_app_r in Hi by exact Hge.
        destruct (i - length visited)%nat as [|n] eqn:En; [|destruct n; discriminate].
        injection Hi as <-. rewrite get_set_eq. rewrite Hw. cbn [drawn draws].
        do 2 f_equal. lia.
Qed.

(** X19. An Orient phase that evicts nothing embeds every context string
    twice, at 384 draws each: the first batch goes into the orientation record
    with the clock reading made after it, and the second into memory: the
    vector memory keeps for a string comes from later draws than the one the
    record holds for it.  The heap arrays and the other three phases of the OODA record are as they
    were. *)
Theorem orientCognitiveModel_embeds_twice env (cognitiveIntent : N9ml.CognitiveIntent)
    (context : list string) (w : World) (a : Agent) :
  (length (window a ++ context) <= 100)%nat ->
  exists w' a',
    orientCognitiveModel env cognitiveIntent context w a = (inr tt, (w', a'))
    /\ draws w' = (draws w + 768 * length context)%nat
    /\ ticks w' = S (ticks w)
    /\ buffers w' = buffers w /\ arrays w' = arrays w
    /\ oodaLoop a'
       = mkOODA (observe (oodaLoop a))
                (Some (mkOrientation cognitiveIntent
                         (batch env (draws w) (length context))
                         (Date_now env (ticks w))))
                (decide (oodaLoop a)) (act (oodaLoop a))
    /\ (forall i k, context !! i = Some k -> k ∉ drop (S i) context ->
          embedding a' k
          = Some (embedding_from env (draws w + 384 * (length context + i)))).
Proof.
  intros Hshort. unfold orientCognitiveModel.
  unfold mbind at 1, M_bind at 1, bind at 1. rewrite map_all_batch.
  unfold mbind at 1, M_bind at 1, bind at 1, now at 1. cbv beta iota.
  unfold mbind at 1, M_bind at 1, bind at 1, assign at 1. cbv beta iota.
  unfold mbind at 1, M_bind at 1, bind at 1.
  match goal with |- context [for_of context ?body ?w0 ?a0] =>
    destruct (orient_insert_draws env context w0 a0)
      as (w1 & a1 & -> & Hw & Hwin & Ho & Hemb)
  end.
  cbn [with_oodaLoop ragMemory contextWindow oodaLoop] in Hwin, Ho.
  unfold mbind at 1, M_bind at 1, bind at 1, this at 1. cbv beta iota.
  rewrite Hwin. destruct (Nat.ltb_spec 100 (length (window a ++ context))); [lia|].
  exists w1, a1. split; [reflexivity|]. rewrite Hw.
  cbn [drawn draws ticks buffers arrays]. repeat split; try lia.
  - rewrite Ho. cbn [drawn ticks]. reflexivity.
  - intros i k Hi Hlast. rewrite (Hemb i k Hi Hlast). cbn [draws drawn].
    do 2 f_equal. lia.
Qed.

(** X19 on two context strings and an empty window. *)
Lemma orientCognitiveModel_embeds_twice_witness :
  exists w' a',
    orientCognitiveModel Examples.example_env (parseIntentToCognitive "hello")
      ["first"; "second"]%string empty_world (Examples.bare_agent Examples.example_traits)
      = (inr tt, (w', a'))
    /\ draws w' = 1536%nat
    /\ embedding a' "second" = Some (embedding_from Examples.example_env 1152).
Proof.
  destruct (orientCognitiveModel_embeds_twice Examples.example_env
              (parseIntentToCognitive "hello") ["first"; "second"]%string empty_world
              (Examples.bare_agent Examples.example_traits))
    as (w' & a' & E & Hd & _ & _ & _ & _ & Hemb).
  { cbn. lia. }
  exists w', a'. split; [exact E|]. split; [exact Hd|].
  apply (Hemb 1%nat "second"%string); [reflexivity|].
  cbn [drop]. apply not_elem_of_nil.
Defined.

End OrientFacts.
